(** * PyLdB: Stevens' Mark VII perceived-loudness calculator

    A shallow embedding of [Codes/Calculate PLdB from radiosonde/pyldb.py]
    and the properties of its stages.

    Numbers.  The program computes with numpy [float64] values.  They are
    modelled here by the real numbers of the Standard Library, so that
    [np.log10], [np.cos] and the constant tables keep their mathematical
    meaning; infinities and NaN are outside the model.  Array indices,
    lengths and pad counts are [nat].

    Errors.  Python exceptions are modelled by the [result] type below. *)

From Stdlib Require Import Reals Lra Lia List Arith Bool ZArith Permutation.
Import ListNotations.

Open Scope R_scope.

(** ** Exceptions *)

Inductive exn : Type :=
| IndexError
| ValueError
| UnboundLocalError.

Inductive result (A : Type) : Type :=
| Ok (a : A)
| Raise (e : exn).

Arguments Ok {A} a.
Arguments Raise {A} e.

Definition bind {A B : Type} (m : result A) (k : A -> result B) : result B :=
  match m with
  | Ok a => k a
  | Raise e => Raise e
  end.

Notation "x <- m ;; k" := (bind m (fun x => k))
  (at level 61, m at next level, right associativity).

(** ** The numpy primitives the program calls *)

Module Np.

(** [a[i]] for [0 <= i]. *)
Definition getitem (a : list R) (i : nat) : result R :=
  match nth_error a i with
  | Some v => Ok v
  | None => Raise IndexError
  end.

(** [a[-1]]. *)
Definition getlast (a : list R) : result R :=
  match a with
  | [] => Raise IndexError
  | _ => Ok (last a 0)
  end.

(** [a[i] = v] for [0 <= i]. *)
Definition setitem (a : list R) (i : nat) (v : R) : result (list R) :=
  if (i <? length a)%nat
  then Ok (firstn i a ++ v :: skipn (S i) a)
  else Raise IndexError.

Definition zeros (n : nat) : list R := repeat 0 n.

(** [np.log10]. *)
Definition log10 (x : R) : R := ln x / ln 10.

(** [np.hanning(M)]: empty for [M < 1], [[1]] for [M = 1], and otherwise
    [w(n) = 0.5 - 0.5 cos(2 pi n / (M - 1))] for [0 <= n <= M - 1]. *)
Definition hanning (M : nat) : list R :=
  match M with
  | O => []
  | 1%nat => [1]
  | _ => map (fun n => 0.5 - 0.5 * cos (2 * PI * INR n / INR (M - 1)))
             (seq 0 M)
  end.

(** The start of the slice [a[-k:]] of an array of length [n]: [-0] is
    [0], so [a[-0:]] is the whole array; a [k] beyond [n] is clipped. *)
Definition neg_start (n k : nat) : nat :=
  match k with
  | O => O
  | _ => (n - k)%nat
  end.

(** [a[start:stop] *= b], for [start <= stop].  The slice is clipped to
    the array; [b] must have the length of the slice or length one
    (broadcast), otherwise numpy raises a [ValueError]. *)
Definition imul_slice (a : list R) (start stop : nat) (b : list R)
  : result (list R) :=
  let lo := Nat.min start (length a) in
  let hi := Nat.max lo (Nat.min stop (length a)) in
  let target := firstn (hi - lo) (skipn lo a) in
  if (length b =? length target)%nat then
    Ok (firstn lo a ++ map (fun p => fst p * snd p) (combine target b)
                 ++ skipn hi a)
  else if (length b =? 1)%nat then
    Ok (firstn lo a ++ map (fun v => v * hd 0 b) target ++ skipn hi a)
  else Raise ValueError.

(** [np.pad(y, (f, r), 'constant')]. *)
Definition pad (y : list R) (f r : nat) : list R :=
  zeros f ++ y ++ zeros r.

(** [np.linspace(start, stop, num, endpoint=True)]. *)
Definition linspace (start stop : R) (num : nat) : list R :=
  match num with
  | O => []
  | 1%nat => [start]
  | _ =>
      let step := (stop - start) / INR (num - 1) in
      map (fun i => INR i * step + start) (seq 0 (num - 1)) ++ [stop]
  end.

(** [a[start:stop] = b] where [b] has exactly the length of the slice. *)
Definition assign_slice (a : list R) (start stop : nat) (b : list R)
  : result (list R) :=
  let lo := Nat.min start (length a) in
  let hi := Nat.max lo (Nat.min stop (length a)) in
  if (length b =? hi - lo)%nat then Ok (firstn lo a ++ b ++ skipn hi a)
  else if (length b =? 1)%nat then
    Ok (firstn lo a ++ repeat (hd 0 b) (hi - lo) ++ skipn hi a)
  else Raise ValueError.

(** [np.arange(lo, hi, 1)] for integers [lo <= hi], as floats. *)
Definition arange (lo hi : nat) : list R :=
  map (fun k => IZR (Z.of_nat k)) (seq lo (hi - lo)).

(** The interpolation step of [np.interp] once [xp[0] <= x <= xp[-1]]:
    with [j] the index such that [xp[j] <= x < xp[j+1]], the result is
    [fp[j]] when [x = xp[j]] and
    [(fp[j+1] - fp[j]) / (xp[j+1] - xp[j]) * (x - xp[j]) + fp[j]]
    otherwise; at the last abscissa it is the last ordinate.  numpy finds
    [j] by binary search, which on an increasing [xp] is the first
    segment whose right end exceeds [x]. *)
Fixpoint interp_seg (x : R) (xp fp : list R) {struct xp} : R :=
  match xp, fp with
  | x0 :: xp', f0 :: fp' =>
      match xp', fp' with
      | x1 :: _, f1 :: _ =>
          if Rlt_dec x x1 then
            if Req_dec_T x x0 then f0
            else (f1 - f0) / (x1 - x0) * (x - x0) + f0
          else interp_seg x xp' fp'
      | _, _ => f0
      end
  | _, _ => 0
  end.

(** [np.interp(x, xp, fp, left=left, right=right)] for a scalar [x]. *)
Definition interp1 (x : R) (xp fp : list R) (left right : R) : R :=
  if Rlt_dec x (hd 0 xp) then left
  else if Rlt_dec (last xp 0) x then right
  else interp_seg x xp fp.

(** [np.interp] on an array of abscissae. *)
Definition interp (xs xp fp : list R) (left right : R) : list R :=
  map (fun x => interp1 x xp fp left right) xs.

(** [a.max()]; numpy raises a [ValueError] on an empty array. *)
Definition amax (a : list R) : result R :=
  match a with
  | [] => Raise ValueError
  | v :: t => Ok (fold_left Rmax t v)
  end.

(** Python's builtin [sum]. *)
Definition pysum (a : list R) : R := fold_left Rplus a 0.

(** [np.fft.fft(p)]: the discrete Fourier transform
    [A_k = sum_m p_m exp(-2 pi i m k / n)], as (real, imaginary) pairs.
    numpy raises a [ValueError] for an empty input. *)
Definition dft_re (p : list R) (k : nat) : R :=
  pysum (map (fun m => nth m p 0 * cos (2 * PI * INR m * INR k / INR (length p)))
           (seq 0 (length p))).

Definition dft_im (p : list R) (k : nat) : R :=
  pysum (map (fun m => - (nth m p 0 * sin (2 * PI * INR m * INR k / INR (length p))))
           (seq 0 (length p))).

Definition fft (p : list R) : result (list (R * R)) :=
  match p with
  | [] => Raise ValueError
  | _ => Ok (map (fun k => (dft_re p k, dft_im p k)) (seq 0 (length p)))
  end.

(** [np.abs] of a complex number. *)
Definition cabs (z : R * R) : R := sqrt (fst z * fst z + snd z * snd z).

(** [np.fft.fftfreq(n)]: [[0, 1, ..., (n-1)//2, -(n//2), ..., -1] / n]. *)
Definition fftfreq (n : nat) : list R :=
  map (fun v => v * (1 / INR n))
      (map INR (seq 0 ((n - 1) / 2 + 1))
       ++ map (fun k => - INR k) (rev (seq 1 (n / 2)))).

(** [a[start:stop]] for [0 <= start]; the bounds are clipped. *)
Definition slice (a : list R) (start stop : nat) : list R :=
  firstn (stop - start) (skipn start a).

(** The comparisons [x <= y] and [x < y] as Python booleans. *)
Definition fle (x y : R) : bool := if Rle_dec x y then true else false.
Definition flt (x y : R) : bool := if Rlt_dec x y then true else false.

(** [np.log2]. *)
Definition log2 (x : R) : R := ln x / ln 2.

(** A logarithm of an array entry is finite exactly on positive arguments:
    numpy gives [-inf] at 0 and [nan] below it, which [None] stands for. *)
Definition finite_log (log : R -> R) (x : R) : option R :=
  if flt 0 x then Some (log x) else None.

(** [x ** y] for a positive, non-integer exponent [y]: [0] at [x = 0] and
    [nan], which [None] stands for, at negative [x]. *)
Definition power (x y : R) : option R :=
  if flt 0 x then Some (Rpower x y)
  else if fle 0 x then Some 0
  else None.

(** [np.nonzero(mask)[0]]: the indices at which the mask holds. *)
Fixpoint nonzero_from (k : nat) (mask : list bool) : list nat :=
  match mask with
  | [] => []
  | b :: t =>
      if b then k :: nonzero_from (S k) t else nonzero_from (S k) t
  end.

Definition nonzero (mask : list bool) : list nat := nonzero_from 0 mask.

(** [a[idx]] for an array [idx] of indices. *)
Fixpoint take (a : list R) (idx : list nat) : result (list R) :=
  match idx with
  | [] => Ok []
  | i :: t => v <- getitem a i ;; r <- take a t ;; Ok (v :: r)
  end.

(** [trapz(y, x=x)]: the sum of [(x[i+1] - x[i]) * (y[i+1] + y[i]) / 2]. *)
Fixpoint trapz (y x : list R) {struct y} : R :=
  match y, x with
  | y0 :: y', x0 :: x' =>
      match y', x' with
      | y1 :: _, x1 :: _ => (x1 - x0) * (y1 + y0) / 2 + trapz y' x'
      | _, _ => 0
      end
  | _, _ => 0
  end.

(** [np.interp(xs, xp, fp)] with the default [left = fp[0]] and
    [right = fp[-1]]; numpy raises a [ValueError] when [xp] is empty or
    [xp] and [fp] differ in length. *)
Definition interp_default (xs xp fp : list R) : result (list R) :=
  if (length xp =? 0)%nat then Raise ValueError
  else if negb (length xp =? length fp)%nat then Raise ValueError
  else Ok (interp xs xp fp (hd 0 fp) (last fp 0)).

(** [np.digitize(x, bins)] for increasing [bins]: the index [i] with
    [bins[i-1] <= x < bins[i]], that is the number of edges not above
    [x]. *)
Fixpoint digitize1 (x : R) (bins : list R) : nat :=
  match bins with
  | [] => O
  | b :: t => if fle b x then S (digitize1 x t) else O
  end.

Definition digitize (xs bins : list R) : list nat :=
  map (fun x => digitize1 x bins) xs.

(** [np.arange(start, stop, step)] for floats:
    [ceil((stop - start) / step)] values [start + i * step]. *)
Definition ceil (x : R) : Z := (- Int_part (- x))%Z.

Definition arange_f (start stop step : R) : list R :=
  map (fun i => start + INR i * step)
      (seq 0 (Z.to_nat (ceil ((stop - start) / step)))).

(** The position that Python's index [k] denotes in a sequence of length
    [n]: a negative index counts from the end. *)
Definition py_index (n : nat) (k : Z) : result nat :=
  if (0 <=? k)%Z then
    if (k <? Z.of_nat n)%Z then Ok (Z.to_nat k) else Raise IndexError
  else
    if (0 <=? Z.of_nat n + k)%Z then Ok (Z.to_nat (Z.of_nat n + k))
    else Raise IndexError.

(** [a[:, k]] for a two-dimensional array given by its rows. *)
Fixpoint column (a : list (list R)) (k : nat) : result (list R) :=
  match a with
  | [] => Ok []
  | row :: rest => v <- getitem row k ;; r <- column rest k ;; Ok (v :: r)
  end.

End Np.

(** ** The module [pyldb] *)

Module Pyldb.
Import Np.

(** *** Constant tables (lines 387-462) *)

Definition L_EQ_RANGE : list R := arange 1 141.

Definition SONES_L : list R :=
  [ 0.078; 0.087; 0.097; 0.107; 0.118;
    0.129; 0.141; 0.153; 0.166; 0.181;
    0.196; 0.212; 0.230; 0.248; 0.269;
    0.290; 0.314; 0.339; 0.367; 0.396;
    0.428; 0.463; 0.500; 0.540; 0.583;
    0.630; 0.680; 0.735; 0.794; 0.857;
    0.926; 1.000; 1.080; 1.170; 1.260;
    1.360; 1.470; 1.590; 1.710; 1.850;
    2.000; 2.160; 2.330; 2.520; 2.720;
    2.940; 3.180; 3.430; 3.700; 4.000;
    4.320; 4.670; 5.040; 5.440; 5.880;
    6.350; 6.860; 7.410; 8.000; 8.640;
    9.330; 10.10; 10.90; 11.80; 12.70;
    13.70; 14.80; 16.00; 17.30; 18.70;
    20.20; 21.80; 23.50; 25.40; 27.40;
    29.60; 32.00; 34.60; 37.30; 40.30;
    43.50; 47.00; 50.80; 54.90; 59.30;
    64.00; 69.10; 74.70; 80.60; 87.10;
    94.10; 102.0; 110.0; 119.0; 128.0;
    138.0; 149.0; 161.0; 174.0; 188.0;
    203.0; 219.0; 237.0; 256.0; 276.0;
    299.0; 323.0; 348.0; 376.0; 406.0;
    439.0; 474.0; 512.0; 553.0; 597.0;
    645.0; 697.0; 752.0; 813.0; 878.0;
    948.0; 1024; 1106; 1194; 1290;
    1393; 1505; 1625; 1756; 1896;
    2048; 2212; 2389; 2580; 2787;
    3010; 3251; 3511; 3792; 4096 ].

(** [SONES_F = np.copy(SONES_L[9:104])] *)
Definition SONES_F : list R := slice SONES_L 9 104.

Definition SUMMATION_FACTORS : list R :=
  [ 0.100; 0.122; 0.140; 0.158; 0.174;
    0.187; 0.200; 0.212; 0.222; 0.232;
    0.241; 0.250; 0.259; 0.267; 0.274;
    0.281; 0.287; 0.293; 0.298; 0.303;
    0.308; 0.312; 0.316; 0.319; 0.320;
    0.322; 0.322; 0.320; 0.319; 0.317;
    0.314; 0.311; 0.308; 0.304; 0.300;
    0.296; 0.292; 0.288; 0.284; 0.279;
    0.275; 0.270; 0.266; 0.262; 0.258;
    0.253; 0.248; 0.244; 0.240; 0.235;
    0.230; 0.226; 0.222; 0.217; 0.212;
    0.208; 0.204; 0.200; 0.197; 0.195;
    0.194; 0.193; 0.192; 0.191; 0.190;
    0.190; 0.190; 0.190; 0.190; 0.190;
    0.191; 0.191; 0.192; 0.193; 0.194;
    0.195; 0.197; 0.199; 0.201; 0.203;
    0.205; 0.208; 0.210; 0.212; 0.215;
    0.217; 0.219; 0.221; 0.223; 0.224;
    0.225; 0.226; 0.227; 0.227; 0.227 ].

Definition BAND_CENTERS : list R :=
  [ 1.0000001; 1.25; 1.6; 2.0; 2.5;
    3.15; 4; 5; 6.3; 8;
    10; 12.5; 16; 20; 25;
    31.5; 40; 50; 63; 80;
    100; 125; 160; 200; 250;
    315; 400; 500; 630; 800;
    1000; 1250; 1600; 2000; 2500;
    3150; 4000; 5000; 6300; 8000;
    10000; 12500 ].

Definition BAND_LOWER_LIMITS : list R :=
  [ 0.89; 1.12; 1.41; 1.78; 2.24;
    2.82; 3.55; 4.47; 5.62; 7.08;
    8.91; 11.2; 14.1; 17.8; 22.4;
    28.2; 35.5; 44.7; 56.2; 70.8;
    89.1; 112; 141; 178; 224;
    282; 355; 447; 562; 708;
    891; 1120; 1410; 1780; 2240;
    2820; 3550; 4470; 5620; 7080;
    8910; 11200 ].

Definition BAND_UPPER_LIMITS : list R :=
  [ 1.12; 1.41; 1.78; 2.24; 2.82;
    3.55; 4.47; 5.62; 7.08; 8.91;
    11.2; 14.1; 17.8; 22.4; 28.2;
    35.5; 44.7; 56.2; 70.8; 89.1;
    112; 141; 178; 224; 282;
    355; 447; 562; 708; 891;
    1120; 1410; 1780; 2240; 2820;
    3550; 4470; 5620; 7080; 8910;
    11200; 14100 ].

(** [n_bins = len(BAND_CENTERS)], the band count that [perceivedloudness]
    hands to every per-band stage (line 187). *)
Definition n_bins : nat := length BAND_CENTERS.

(** *** [_window] (lines 255-260) *)

Definition _window (dataset : list R) (len_window : nat) : result (list R) :=
  let win := hanning (len_window * 2) in
  let windowed_data := dataset in
  windowed_data <-
    imul_slice windowed_data 0 len_window (slice win 0 len_window) ;;
  windowed_data <-
    imul_slice windowed_data
      (neg_start (length windowed_data) len_window) (length windowed_data)
      (slice win len_window (length win)) ;;
  Ok windowed_data.

(** *** [_padding] (lines 263-276) *)

Definition _padding (x_var y_var : list R) (f_pad r_pad : nat)
  : result (list R * list R) :=
  let pad_y := pad y_var f_pad r_pad in
  x1 <- getitem x_var 1 ;;
  x0 <- getitem x_var 0 ;;
  let frontpad := INR f_pad * (x1 - x0) in
  xl <- getlast x_var ;;
  let rearpad := xl + INR r_pad * (x1 - x0) + frontpad in
  let frontx := linspace x0 frontpad f_pad in
  let rearx := linspace (xl + frontpad) rearpad r_pad in
  let padded_length := (length x_var + length frontx + length rearx)%nat in
  let pad_x := zeros padded_length in
  let shifted_x := map (fun x => x + frontpad) x_var in
  pad_x <- assign_slice pad_x 0 (length frontx) frontx ;;
  pad_x <- assign_slice pad_x (length frontx)
             (length frontx + length x_var) shifted_x ;;
  pad_x <- assign_slice pad_x (length frontx + length x_var)
             (length pad_x) rearx ;;
  Ok (pad_x, pad_y).

(** *** [_power_spectrum] (lines 282-286): the time step, the frequency
    bins and the two-sided power handed to [_power_interp]. *)

Definition time_step (time : list R) (N : nat) : result R :=
  tl <- getlast time ;;
  t0 <- getitem time 0 ;;
  Ok (((tl - t0) / INR N) * 0.001).

Definition two_sided (time pressure : list R)
  : result (list R * list R * nat) :=
  let N := length pressure in
  dt <- time_step time N ;;
  FFT <- fft pressure ;;
  let freq := map (fun v => v / dt) (fftfreq N) in
  let Power := map (fun z => cabs z ^ 2 * dt ^ 2) FFT in
  Ok (freq, Power, N).

(** *** [_power_interp] (lines 293-295): the conversion of the two-sided
    spectrum to a one-sided one.  The interpolation at the band limits
    and the sort that follow it (lines 298-307) are not modelled. *)

Definition one_sided (freq power : list R) (N : nat)
  : result (list R * list R) :=
  let freq_one_side := slice freq 0 (N / 2) in
  power <- assign_slice power 1 (N / 2)
             (map (fun v => 2 * v) (slice power 1 (N / 2))) ;;
  let power_one_side := slice power 0 (N / 2) in
  Ok (freq_one_side, power_one_side).

Definition _power_spectrum_one_sided (time pressure : list R)
  : result (list R * list R) :=
  fpn <- two_sided time pressure ;;
  let '(freq, Power, N) := fpn in
  one_sided freq Power N.

(** *** [_loud_limits_400] (lines 367-376).  The local [L_eq] is unbound
    until one of the three [if] statements assigns it. *)

Definition _loud_limits_400 (f_central lower_limit upper_limit loudness X : R)
  : result R :=
  let L_eq : option R := None in
  let L_eq :=
    if fle loudness lower_limit then
      let A := 115.0 - ((115.0 - loudness) * log10 400.0) / log10 f_central in
      Some (A - 8.0)
    else L_eq in
  let L_eq :=
    if flt lower_limit loudness && fle loudness upper_limit then
      Some (loudness - X - 8.0)
    else L_eq in
  let L_eq :=
    if flt upper_limit loudness then
      let A := 160.0 - ((160.0 - loudness) * log10 400.0) / log10 f_central in
      Some (A - 8.0)
    else L_eq in
  match L_eq with
  | Some v => Ok v
  | None => Raise UnboundLocalError
  end.

(** *** [_equivalent_loudness] (lines 326-364).  The function called for
    the three-way sub-rule is a section variable, so that statements can
    be made about every call; the program's function is its instance at
    [_loud_limits_400]. *)

Section EquivalentLoudness.

Variable loud_limits : R -> R -> R -> R -> R -> result R.

(** [if i == k: L_eq[i] = _loud_limits_400(BAND_CENTERS[i], lo, hi, L[i], X)] *)
Definition band_400 (L : list R) (i k : nat) (lo hi X : R) (L_eq : list R)
  : result (list R) :=
  if (i =? k)%nat then
    c <- getitem BAND_CENTERS i ;;
    l <- getitem L i ;;
    v <- loud_limits c lo hi l X ;;
    setitem L_eq i v
  else Ok L_eq.

(** The body of the loop over [i]. *)
Definition loop_body (L : list R) (i : nat) (L_eq : list R)
  : result (list R) :=
  L_eq <- (if (39 <? i)%nat then
             l <- getitem L i ;;
             setitem L_eq i (l + 4 * (39 - INR i))
           else Ok L_eq) ;;
  L_eq <- (if ((35 <=? i) && (i <=? 39))%nat then
             l <- getitem L i ;;
             setitem L_eq i l
           else Ok L_eq) ;;
  L_eq <- (if ((32 <=? i) && (i <=? 34))%nat then
             l <- getitem L i ;;
             setitem L_eq i (l - 2 * (35 - INR i))
           else Ok L_eq) ;;
  L_eq <- (if ((26 <? i) && (i <=? 31))%nat then
             l <- getitem L i ;;
             setitem L_eq i (l - 8.0)
           else Ok L_eq) ;;
  L_eq <- (if ((20 <=? i) && (i <=? 26))%nat then
             L_eq <- band_400 L i 26 76.0 121.0 0.0 L_eq ;;
             L_eq <- band_400 L i 25 77.5 122.5 1.5 L_eq ;;
             L_eq <- band_400 L i 24 79.0 124.0 3.0 L_eq ;;
             L_eq <- band_400 L i 23 80.5 125.5 4.5 L_eq ;;
             L_eq <- band_400 L i 22 82.0 127.0 6.0 L_eq ;;
             L_eq <- band_400 L i 21 83.5 128.5 7.5 L_eq ;;
             band_400 L i 20 85.0 130.0 9.0 L_eq
           else Ok L_eq) ;;
  if (i <=? 19)%nat then
    l <- getitem L i ;;
    let numerator := (160.0 - l) * log10 80.0 in
    c <- getitem BAND_CENTERS i ;;
    let denominator := log10 c in
    let L_eq_B := 160.0 - numerator / denominator in
    v <- loud_limits 80.0 86.5 131.5 L_eq_B 10.5 ;;
    setitem L_eq i v
  else Ok L_eq.

(** [for i in range(...)] *)
Fixpoint for_each (body : nat -> list R -> result (list R))
  (range : list nat) (L_eq : list R) : result (list R) :=
  match range with
  | [] => Ok L_eq
  | i :: rest => L_eq <- body i L_eq ;; for_each body rest L_eq
  end.

Definition _equivalent_loudness_with (L : list R) (n_bins : nat)
  : result (list R) :=
  let L_eq := zeros n_bins in
  for_each (loop_body L) (seq 0 n_bins) L_eq.

End EquivalentLoudness.

Definition _equivalent_loudness : list R -> nat -> result (list R) :=
  _equivalent_loudness_with _loud_limits_400.

(** *** [_calc_total_loudness] (lines 379-384) *)

Definition _calc_total_loudness (L_eq : list R) : result (R * list R) :=
  sones_last <- getlast SONES_L ;;
  let sones := interp L_eq L_EQ_RANGE SONES_L 0.0 sones_last in
  sones_max <- amax sones ;;
  factors_last <- getlast SUMMATION_FACTORS ;;
  let sum_f_max :=
    interp1 sones_max SONES_F SUMMATION_FACTORS 0.0 factors_last in
  let total_loudness := sones_max + sum_f_max * (pysum sones - sones_max) in
  Ok (total_loudness, sones).

(** *** [_power_interp] (lines 291-307) and [_power_spectrum]
    (lines 279-288).  [np.argsort] does not fix the order of equal keys;
    the index array it returns is a section variable. *)

Section PowerInterp.

Variable argsort : list R -> list nat.

Definition _power_interp (freq power : list R) (N : nat)
  : result (list R * list R) :=
  sides <- one_sided freq power N ;;
  let freq_one_side := fst sides in
  let power_one_side := snd sides in
  upper_last <- getlast BAND_UPPER_LIMITS ;;
  let interp_freq := BAND_LOWER_LIMITS ++ [upper_last] in
  interp_power <- interp_default interp_freq freq_one_side power_one_side ;;
  let full_freq := freq_one_side ++ interp_freq in
  let full_power := power_one_side ++ interp_power in
  let full_pow_freq_sort := argsort full_freq in
  freq_one <- take full_freq full_pow_freq_sort ;;
  power_one <- take full_power full_pow_freq_sort ;;
  Ok (freq_one, power_one).

Definition _power_spectrum (time pressure : list R)
  : result (list R * list R) :=
  fpn <- two_sided time pressure ;;
  let '(freq, Power, N) := fpn in
  _power_interp freq Power N.

End PowerInterp.

(** *** [_sound_pressure_levels] (lines 310-323) *)

Definition po : R := 2.900755e-9 * 144.

Definition t_crit : R := 0.07.

(** The body of the loop over the bands [j]. *)
Definition band_energy (freq power : list R) (j : nat) (energy : list R)
  : result (list R) :=
  lower <- getitem BAND_LOWER_LIMITS j ;;
  upper <- getitem BAND_UPPER_LIMITS j ;;
  let i_section :=
    nonzero (map (fun f => fle lower f && fle f upper) freq) in
  if negb (length i_section =? 0)%nat then
    power_section <- take power i_section ;;
    frequency_section <- take freq i_section ;;
    setitem energy j (trapz power_section frequency_section)
  else Ok energy.

Definition _sound_pressure_levels (freq power : list R) (n_bins : nat)
  : result (list R * list (option R)) :=
  let energy := zeros n_bins in
  energy <- for_each (band_energy freq power) (seq 0 n_bins) energy ;;
  let energy := map (fun e => e / t_crit) energy in
  let loudness :=
    map (fun e => option_map (fun l => 10 * l - 3)
                    (finite_log log10 (e / po ^ 2))) energy in
  Ok (energy, loudness).

(** *** [perceivedloudness], the last statement (line 198):
    [pldb = 32.0 + 9.0*np.log2(total_loudness)]. *)

Definition pldb (total_loudness : R) : option R :=
  option_map (fun l => 32.0 + 9.0 * l) (finite_log log2 total_loudness).

(** *** [perceivedloudness], up to the band levels (lines 187-195):
    windowing, padding, spectrum and band integration. *)

Section Pipeline.

Variable argsort : list R -> list nat.

Definition perceivedloudness_levels (time pressure : list R)
  (pad_front pad_rear len_window : nat)
  : result (list R * list (option R)) :=
  let n_bins := length BAND_CENTERS in
  let frontpad := (length pressure * pad_front)%nat in
  let rearpad := (length pressure * pad_rear)%nat in
  pressure_window <- _window pressure len_window ;;
  padded <- _padding time pressure_window frontpad rearpad ;;
  let time_pad := fst padded in
  let pressure_pad := snd padded in
  spectrum <- _power_spectrum argsort time_pad pressure_pad ;;
  let freq := fst spectrum in
  let power := snd spectrum in
  _sound_pressure_levels freq power n_bins.

End Pipeline.

End Pyldb.

(** ** [Calculate exposed population/main.py] *)

Module Exposure.
Import Np.

(** *** [exterior_annoyance] (lines 8-20) *)

Definition annoyance_of (PL : list R) (i : nat) (annoyance : list R)
  : result (list R) :=
  let PL_0 := 72.412 in
  let slope := 5.7410605 in
  p <- getitem PL i ;;
  if fle p PL_0 then setitem annoyance i 0
  else if flt p 89.866 then setitem annoyance i (slope * (p - PL_0))
  else setitem annoyance i 100.

Definition exterior_annoyance (PL : list R) : result (list R) :=
  let annoyance := zeros (length PL) in
  Pyldb.for_each (annoyance_of PL) (seq 0 (length PL)) annoyance.

(** *** The population per noise bin (lines 28-48).  The array
    [noise_data] read from the pickle file is the argument. *)

Definition min_noise : R := 75.5.
Definition max_noise : R := 85.5.
Definition n_noise : R := 10.

Definition step : R := (max_noise - min_noise) / n_noise.

Definition bins : list R := arange_f min_noise (max_noise + step) step.

(** [np.histogram] returns the edges it was given. *)
Definition bin_edges : list R := bins.

(** [pop_level[inds[i]-1] += pop[i]] *)
Definition add_population (inds : list nat) (pop : list R) (i : nat)
  (pop_level : list R) : result (list R) :=
  ind <- match nth_error inds i with
         | Some v => Ok v
         | None => Raise IndexError
         end ;;
  k <- py_index (length pop_level) (Z.of_nat ind - 1) ;;
  old <- getitem pop_level k ;;
  p <- getitem pop i ;;
  setitem pop_level k (old + p).

(** Lines 35-47: the population summed per bin. *)
Definition population_counts (noise_data : list (list R))
  : result (list R) :=
  noise <- column noise_data 3 ;;
  pop <- column noise_data 2 ;;
  let inds := digitize noise bin_edges in
  let pop_level := zeros (length bin_edges - 1) in
  Pyldb.for_each (add_population inds pop) (seq 0 (length inds)) pop_level.

(** Line 48: [pop_level = pop_level/sum(pop_level*step)]. *)
Definition population_density (noise_data : list (list R))
  : result (list R) :=
  pop_level <- population_counts noise_data ;;
  let total := pysum (map (fun v => v * step) pop_level) in
  Ok (map (fun v => v / total) pop_level).

End Exposure.

(** ** [Retrieve NOAA GFS data/process.py] *)

Module Gfs.
Import Np.

(** [process] (line 16), for one entry [p] of [data.pressure]:
    [10.**5/2.5577*(1-(p/101325)**(1/5.2558)) / 0.3048]. *)
Definition elevation (p : R) : option R :=
  option_map (fun q => 10 ^ 5 / 2.5577 * (1 - q) / 0.3048)
    (power (p / 101325) (1 / 5.2558)).

End Gfs.

(** ** Vocabulary of the properties *)

Module Props.

(** Each entry is at least the previous one. *)
Fixpoint nondecreasing (l : list R) : Prop :=
  match l with
  | a :: t =>
      match t with
      | b :: _ => a <= b /\ nondecreasing t
      | [] => True
      end
  | [] => True
  end.

(** Each entry is greater than the previous one. *)
Fixpoint increasing (l : list R) : Prop :=
  match l with
  | a :: t =>
      match t with
      | b :: _ => a < b /\ increasing t
      | [] => True
      end
  | [] => True
  end.

(** Every entry satisfies [P]. *)
Fixpoint all (P : R -> Prop) (l : list R) : Prop :=
  match l with
  | a :: t => P a /\ all P t
  | [] => True
  end.

(** Consecutive entries differ by [dt]. *)
Fixpoint uniform (dt : R) (l : list R) : Prop :=
  match l with
  | a :: t =>
      match t with
      | b :: _ => b - a = dt /\ uniform dt t
      | [] => True
      end
  | [] => True
  end.

(** The limit pairs and offsets [X] tabulated for the bands 20..26:
    (lower limit, upper limit, X). *)
Definition stevens_limits (i : nat) : R * R * R :=
  match i with
  | 26%nat => (76.0, 121.0, 0.0)
  | 25%nat => (77.5, 122.5, 1.5)
  | 24%nat => (79.0, 124.0, 3.0)
  | 23%nat => (80.5, 125.5, 4.5)
  | 22%nat => (82.0, 127.0, 6.0)
  | 21%nat => (83.5, 128.5, 7.5)
  | _ => (85.0, 130.0, 9.0)
  end.

(** The tiered rule for one band, as a cascade over the band index:
    [sub] is the three-way sub-rule, [center] the band's center frequency
    and [Li] its sound pressure level. *)
Definition tier_rule (sub : R -> R -> R -> R -> R -> result R)
  (i : nat) (center Li : R) : result R :=
  if (39 <? i)%nat then Ok (Li + 4 * (39 - INR i))
  else if (35 <=? i)%nat then Ok Li
  else if (32 <=? i)%nat then Ok (Li - 2 * (35 - INR i))
  else if (26 <? i)%nat then Ok (Li - 8.0)
  else if (20 <=? i)%nat then
    let '(lo, hi, X) := stevens_limits i in sub center lo hi Li X
  else
    sub 80.0 86.5 131.5
        (160.0 - (160.0 - Li) * Np.log10 80.0 / Np.log10 center) 10.5.

(** The arguments with which the transform calls the sub-rule: the
    center argument is the reference 80 or an entry of the band table. *)
Definition called_center (f : R) : Prop :=
  f = 80 \/ In f Pyldb.BAND_CENTERS.

(** The sum of a list, from the right. *)
Fixpoint total (l : list R) : R :=
  match l with
  | [] => 0
  | a :: t => a + total t
  end.

(** [idx] is what an argsort of [a] may return: the indices of [a], each
    once, in an order that sorts [a]. *)
Definition sorts (idx : list nat) (a : list R) : Prop :=
  Permutation idx (seq 0 (length a)) /\
  nondecreasing (map (fun i => nth i a 0) idx).

(** The bin to which the population of a county with noise [x] below 85.5
    is added: its bin of width 1 from 75.5 on, and the last bin when [x]
    is below 75.5. *)
Definition credited_bin (x : R) : nat :=
  if Np.flt x 75.5 then 9
  else if Np.flt x 76.5 then 0
  else if Np.flt x 77.5 then 1
  else if Np.flt x 78.5 then 2
  else if Np.flt x 79.5 then 3
  else if Np.flt x 80.5 then 4
  else if Np.flt x 81.5 then 5
  else if Np.flt x 82.5 then 6
  else if Np.flt x 83.5 then 7
  else if Np.flt x 84.5 then 8
  else 9.

(** The entries of [a] at the positions where the mask [p] holds on
    [fr]: what [a[np.nonzero(p(fr))[0]]] selects. *)
Fixpoint select (p : R -> bool) (fr a : list R) : list R :=
  match fr, a with
  | f :: fr', v :: a' =>
      if p f then v :: select p fr' a' else select p fr' a'
  | _, _ => []
  end.

(** The mask of band [j]: the frequency lies within the band's limits,
    both included. *)
Definition in_band (j : nat) (f : R) : bool :=
  Np.fle (nth j Pyldb.BAND_LOWER_LIMITS 0) f
  && Np.fle f (nth j Pyldb.BAND_UPPER_LIMITS 0).

(** An argsort by insertion, one of the functions that [sorts]. *)
Fixpoint insert_index (a : list R) (i : nat) (idx : list nat) : list nat :=
  match idx with
  | [] => [i]
  | j :: t =>
      if Np.fle (nth i a 0) (nth j a 0) then i :: j :: t
      else j :: insert_index a i t
  end.

Definition insertion_argsort (a : list R) : list nat :=
  fold_right (insert_index a) [] (seq 0 (length a)).

End Props.

Import Np Pyldb Props.

(** ** The band table *)

Lemma band_limits_partition :
  skipn 1 BAND_LOWER_LIMITS = firstn 41 BAND_UPPER_LIMITS.
Proof. reflexivity. Qed.

(** C1, as stated, fails: the band table has 42 entries, not 41, and so
    has the band count [n_bins]. *)
Lemma band_count_is_not_41 :
  length BAND_CENTERS <> 41%nat /\ n_bins <> 41%nat.
Proof. split; unfold n_bins; simpl; discriminate. Qed.

(** C1, amended: the band table defines exactly 42 one-third-octave bands
    (center, lower limit, upper limit); the band count of the pipeline is
    [n_bins = 42], and the loops over the bands visit the indices 0..41. *)
Theorem band_table_has_42_bands :
  length BAND_CENTERS = 42%nat /\
  length BAND_LOWER_LIMITS = 42%nat /\
  length BAND_UPPER_LIMITS = 42%nat /\
  n_bins = 42%nat /\
  seq 0 n_bins = seq 0 42 /\
  last (seq 0 n_bins) 0%nat = 41%nat /\
  length (zeros n_bins) = 42%nat.
Proof. repeat split. Qed.

(** ** The conversion tables *)

Lemma all_In (P : R -> Prop) (l : list R) :
  all P l -> forall x, In x l -> P x.
Proof.
  induction l as [|a t IH]; simpl; intros H x Hx.
  - contradiction.
  - destruct H as [Ha Ht]. destruct Hx as [<-|Hx]; auto.
Qed.

Lemma increasing_nondecreasing (l : list R) :
  increasing l -> nondecreasing l.
Proof.
  induction l as [|a t IH]; simpl; auto.
  destruct t as [|b t']; auto.
  intros [Hab Ht]. split; [lra | exact (IH Ht)].
Qed.

Lemma SONES_L_increasing : increasing SONES_L.
Proof. unfold SONES_L. simpl. repeat split; lra. Qed.

Lemma SONES_F_increasing : increasing SONES_F.
Proof. unfold SONES_F, slice, SONES_L. simpl. repeat split; lra. Qed.

Lemma L_EQ_RANGE_increasing : increasing L_EQ_RANGE.
Proof. unfold L_EQ_RANGE, arange. simpl. repeat split; lra. Qed.

(** C5, as stated, fails: the summation factors fall from 0.322 at index
    26 to 0.320 at index 27. *)
Lemma SUMMATION_FACTORS_not_monotone :
  ~ nondecreasing SUMMATION_FACTORS /\
  nth 27 SUMMATION_FACTORS 0 < nth 26 SUMMATION_FACTORS 0.
Proof.
  split.
  - unfold SUMMATION_FACTORS. simpl. intro H.
    do 26 (destruct H as [_ H]). destruct H as [H _]. lra.
  - simpl. lra.
Qed.

(** C5, amended: the 140-entry equivalent-loudness->sones table is
    strictly increasing (so non-decreasing), and so are the abscissae of
    both interpolations; the 95 summation factors are non-decreasing up to
    index 26 only. *)
Theorem conversion_tables_monotonicity :
  length SONES_L = 140%nat /\
  length SUMMATION_FACTORS = 95%nat /\
  length SONES_F = 95%nat /\
  increasing SONES_L /\
  nondecreasing SONES_L /\
  increasing L_EQ_RANGE /\
  increasing SONES_F /\
  nondecreasing (firstn 27 SUMMATION_FACTORS).
Proof.
  split; [reflexivity|]. split; [reflexivity|]. split; [reflexivity|].
  split; [exact SONES_L_increasing|].
  split; [exact (increasing_nondecreasing _ SONES_L_increasing)|].
  split; [exact L_EQ_RANGE_increasing|].
  split; [exact SONES_F_increasing|].
  unfold SUMMATION_FACTORS. simpl. repeat split; lra.
Qed.

(** ** The three-way sub-rule *)

Lemma log10_pos (x : R) : 1 < x -> 0 < log10 x.
Proof.
  intros Hx. unfold log10.
  assert (H0 : forall y, 1 < y -> 0 < ln y).
  { intros y Hy. rewrite <- ln_1. apply ln_increasing; lra. }
  apply Rdiv_lt_0_compat; apply H0; lra.
Qed.

(** Equations between real expressions with decimal literals. *)
Ltac integral_literals :=
  repeat match goal with
    | |- context [Q2R (QArith_base.Qmake ?n ?d)] =>
        let q := eval vm_compute in (Qreduction.Qred (QArith_base.Qmake n d)) in
        match q with
        | QArith_base.Qmake ?m 1%positive =>
            replace (Q2R (QArith_base.Qmake n d)) with (IZR m) by lra
        end
    end.
Ltac decimals := cbv [Q2R QArith_base.Qnum QArith_base.Qden].
Ltac real_eq :=
  integral_literals; first [reflexivity | lra | decimals; field; try lra].

Lemma fle_true (x y : R) : x <= y -> fle x y = true.
Proof. intros H. unfold fle. destruct (Rle_dec x y); [reflexivity | contradiction]. Qed.

Lemma fle_false (x y : R) : y < x -> fle x y = false.
Proof. intros H. unfold fle. destruct (Rle_dec x y); [lra | reflexivity]. Qed.

Lemma flt_true (x y : R) : x < y -> flt x y = true.
Proof. intros H. unfold flt. destruct (Rlt_dec x y); [reflexivity | contradiction]. Qed.

Lemma flt_false (x y : R) : y <= x -> flt x y = false.
Proof. intros H. unfold flt. destruct (Rlt_dec x y); [lra | reflexivity]. Qed.

(** On real numbers one of the three tests always holds, so the local
    [L_eq] is bound when the function returns. *)
Lemma loud_limits_400_total (f lo hi l X : R) :
  exists v, _loud_limits_400 f lo hi l X = Ok v.
Proof.
  unfold _loud_limits_400.
  destruct (Rle_lt_dec l hi) as [Hhi|Hhi].
  - rewrite (flt_false hi l Hhi), (fle_true l hi Hhi).
    destruct (Rle_lt_dec l lo) as [Hlo|Hlo].
    + rewrite (fle_true l lo Hlo), (flt_false lo l Hlo). simpl. eauto.
    + rewrite (fle_false l lo Hlo), (flt_true lo l Hlo). simpl. eauto.
  - rewrite (flt_true hi l Hhi). eauto.
Qed.

(** C7: for a center frequency above 1 and limits [lowerLimit < upperLimit]
    the sub-rule returns [A - 8] with
    [A = 115 - (115 - loudness) log10(400) / log10(f)] when
    [loudness <= lowerLimit], [loudness - X - 8] when
    [lowerLimit < loudness <= upperLimit], and [A - 8] with
    [A = 160 - (160 - loudness) log10(400) / log10(f)] when
    [loudness > upperLimit]; the divisor [log10(f)] is positive. *)
Theorem loud_limits_400_three_way (f lowerLimit upperLimit X loudness : R) :
  1 < f ->
  lowerLimit < upperLimit ->
  0 < log10 f /\
  (loudness <= lowerLimit ->
   _loud_limits_400 f lowerLimit upperLimit loudness X
   = Ok (115 - (115 - loudness) * log10 400 / log10 f - 8)) /\
  (lowerLimit < loudness <= upperLimit ->
   _loud_limits_400 f lowerLimit upperLimit loudness X
   = Ok (loudness - X - 8)) /\
  (upperLimit < loudness ->
   _loud_limits_400 f lowerLimit upperLimit loudness X
   = Ok (160 - (160 - loudness) * log10 400 / log10 f - 8)).
Proof.
  intros Hf Hlim. pose proof (log10_pos f Hf) as Hpos.
  split; [exact Hpos|].
  assert (Hne : log10 f <> 0) by lra.
  unfold _loud_limits_400. repeat split.
  - intros H.
    rewrite (fle_true _ _ H), (flt_false lowerLimit loudness H).
    rewrite flt_false by lra. cbn [andb]. f_equal. real_eq.
  - intros [H1 H2].
    rewrite (fle_false _ _ H1), (flt_true _ _ H1), (fle_true _ _ H2).
    rewrite (flt_false _ _ H2). cbn [andb]. f_equal. real_eq.
  - intros H.
    rewrite (fle_false loudness lowerLimit) by lra.
    rewrite (fle_false loudness upperLimit) by lra.
    rewrite (flt_true upperLimit loudness H).
    f_equal. real_eq.
Qed.

Lemma loud_limits_400_three_way_witness :
  _loud_limits_400 400 76 121 100 0 = Ok (100 - 0 - 8).
Proof.
  apply (loud_limits_400_three_way 400 76 121 0 100); lra.
Defined.

(** ** The equivalent-loudness transform *)

Lemma getitem_nth (a : list R) (i : nat) :
  (i < length a)%nat -> getitem a i = Ok (nth i a 0).
Proof.
  intros H. unfold getitem.
  rewrite (nth_error_nth' a 0 H). reflexivity.
Qed.

Lemma setitem_Ok (a : list R) (i : nat) (v : R) :
  (i < length a)%nat ->
  exists a', setitem a i v = Ok a' /\ length a' = length a /\
             nth i a' 0 = v /\
             forall j, j <> i -> nth j a' 0 = nth j a 0.
Proof.
  intros H. unfold setitem.
  rewrite (proj2 (Nat.ltb_lt i (length a)) H).
  eexists. split; [reflexivity|].
  assert (Hf : length (firstn i a) = i) by (rewrite length_firstn; lia).
  repeat split.
  - rewrite length_app, Hf. cbn [length]. rewrite length_skipn. lia.
  - rewrite app_nth2 by lia. rewrite Hf, Nat.sub_diag. reflexivity.
  - intros j Hj. destruct (Nat.lt_ge_cases j i) as [Hlt|Hge].
    + rewrite app_nth1 by lia.
      rewrite nth_firstn. rewrite (proj2 (Nat.ltb_lt j i) Hlt). reflexivity.
    + rewrite app_nth2 by lia. rewrite Hf.
      destruct (j - i)%nat as [|m] eqn:Em; [lia|]. cbn [nth].
      rewrite nth_skipn. f_equal. lia.
Qed.

Lemma bind_Ok_r (A : Type) (m : result A) : (x <- m ;; Ok x) = m.
Proof. destruct m; reflexivity. Qed.

Ltac decide_tests :=
  repeat match goal with
    | |- context [(?a <? ?b)%nat] =>
        first [ rewrite (proj2 (Nat.ltb_lt a b)) by lia
              | rewrite (proj2 (Nat.ltb_ge a b)) by lia ]
    | |- context [(?a <=? ?b)%nat] =>
        first [ rewrite (proj2 (Nat.leb_le a b)) by lia
              | rewrite (proj2 (Nat.leb_gt a b)) by lia ]
    | |- context [(?a =? ?b)%nat] =>
        first [ rewrite (proj2 (Nat.eqb_eq a b)) by lia
              | rewrite (proj2 (Nat.eqb_neq a b)) by lia ]
    end.

Lemma band_center_defined (i : nat) :
  (i <= 26)%nat -> getitem BAND_CENTERS i = Ok (nth i BAND_CENTERS 0).
Proof.
  intros H. apply getitem_nth.
  change (length BAND_CENTERS) with 42%nat. lia.
Qed.

Lemma band_ranges (i : nat) :
  (i <= 19 \/ i = 20 \/ i = 21 \/ i = 22 \/ i = 23 \/ i = 24 \/ i = 25 \/
   i = 26 \/ 26 < i <= 31 \/ 32 <= i <= 34 \/ 35 <= i <= 39 \/ 39 < i)%nat.
Proof. lia. Qed.

(** One pass of the loop body reads [L[i]], computes the tiered rule and
    stores the value at [L_eq[i]]: the guards of the sequential [if]
    statements are mutually exclusive. *)
Lemma loop_body_tier (g : R -> R -> R -> R -> R -> result R)
  (L : list R) (i : nat) (s : list R) :
  loop_body g L i s
  = (l <- getitem L i ;;
     v <- tier_rule g i (nth i BAND_CENTERS 0) l ;;
     setitem s i v).
Proof.
  unfold loop_body, band_400, tier_rule.
  destruct (band_ranges i) as
    [H|[H|[H|[H|[H|[H|[H|[H|[H|[H|[H|H]]]]]]]]]]];
    try subst i; decide_tests; cbn [andb bind stevens_limits];
    try rewrite band_center_defined by lia;
    destruct (getitem L _) as [l|e]; cbn [bind];
    rewrite ?bind_Ok_r; reflexivity.
Qed.

Lemma tier_rule_total (i : nat) (c l : R) :
  exists v, tier_rule _loud_limits_400 i c l = Ok v.
Proof.
  unfold tier_rule.
  destruct (39 <? i)%nat; [eauto|].
  destruct (35 <=? i)%nat; [eauto|].
  destruct (32 <=? i)%nat; [eauto|].
  destruct (26 <? i)%nat; [eauto|].
  destruct (20 <=? i)%nat.
  - destruct (stevens_limits i) as [[lo hi] X]. apply loud_limits_400_total.
  - apply loud_limits_400_total.
Qed.

(** The loop over the bands [a, a + k): every visited entry receives its
    tier value, the other entries are left as they were. *)
Lemma for_each_tiers (L : list R) :
  forall (k a : nat) (s : list R),
    (a + k <= length s)%nat ->
    (a + k <= length L)%nat ->
    exists s',
      for_each (loop_body _loud_limits_400 L) (seq a k) s = Ok s' /\
      length s' = length s /\
      (forall i, (a <= i < a + k)%nat ->
         tier_rule _loud_limits_400 i (nth i BAND_CENTERS 0) (nth i L 0)
         = Ok (nth i s' 0)) /\
      (forall i, (i < a \/ a + k <= i)%nat -> nth i s' 0 = nth i s 0).
Proof.
  induction k as [|k IH]; intros a s Hs HL.
  - exists s. cbn [seq for_each]. repeat split; auto. intros i Hi. lia.
  - cbn [seq for_each]. rewrite loop_body_tier.
    rewrite (getitem_nth L a) by lia. cbn [bind].
    destruct (tier_rule_total a (nth a BAND_CENTERS 0) (nth a L 0)) as [v Hv].
    rewrite Hv. cbn [bind].
    destruct (setitem_Ok s a v) as (s1 & Hset & Hlen1 & Hat & Hother); [lia|].
    rewrite Hset. cbn [bind].
    destruct (IH (S a) s1) as (s' & Hrun & Hlen & Hin & Hout); [lia | lia |].
    exists s'. split; [exact Hrun|]. split; [congruence|]. split.
    + intros i Hi. destruct (Nat.eq_dec i a) as [->|Hne].
      * rewrite Hout by lia. rewrite Hat. exact Hv.
      * apply Hin. lia.
    + intros i Hi. rewrite Hout by lia. apply Hother. lia.
Qed.

(** C2: for every band index [i] and sound pressure level [L[i]] the
    transform stores in [L_eq[i]] the value of the tier that contains [i]:
    [L + 4 (39 - i)] for [i > 39]; [L] for [35 <= i <= 39];
    [L - 2 (35 - i)] for [32 <= i <= 34]; [L - 8] for [26 < i <= 31]; the
    three-way sub-rule at the band's center, tabulated limit pair and
    offset for [20 <= i <= 26]; and, for [i <= 19], the sub-rule at
    (80, 86.5, 131.5, 10.5) applied to the level remapped to
    [160 - (160 - L) log10(80) / log10(center[i])]. *)
Theorem equivalent_loudness_tiers (L : list R) (n : nat) :
  (n <= length L)%nat ->
  exists L_eq,
    _equivalent_loudness L n = Ok L_eq /\
    length L_eq = n /\
    forall i, (i < n)%nat ->
      let l := nth i L 0 in
      let c := nth i BAND_CENTERS 0 in
      let v := nth i L_eq 0 in
      ((39 < i)%nat -> v = l + 4 * (39 - INR i)) /\
      ((35 <= i <= 39)%nat -> v = l) /\
      ((32 <= i <= 34)%nat -> v = l - 2 * (35 - INR i)) /\
      ((26 < i <= 31)%nat -> v = l - 8) /\
      (i = 26%nat -> _loud_limits_400 c 76 121 l 0 = Ok v) /\
      (i = 25%nat -> _loud_limits_400 c 77.5 122.5 l 1.5 = Ok v) /\
      (i = 24%nat -> _loud_limits_400 c 79 124 l 3 = Ok v) /\
      (i = 23%nat -> _loud_limits_400 c 80.5 125.5 l 4.5 = Ok v) /\
      (i = 22%nat -> _loud_limits_400 c 82 127 l 6 = Ok v) /\
      (i = 21%nat -> _loud_limits_400 c 83.5 128.5 l 7.5 = Ok v) /\
      (i = 20%nat -> _loud_limits_400 c 85 130 l 9 = Ok v) /\
      ((i <= 19)%nat ->
       _loud_limits_400 80 86.5 131.5
         (160 - (160 - l) * log10 80 / log10 c) 10.5 = Ok v).
Proof.
  intros Hn. unfold _equivalent_loudness, _equivalent_loudness_with.
  destruct (for_each_tiers L n 0 (zeros n)) as (s' & Hrun & Hlen & Hin & _).
  { unfold zeros. rewrite repeat_length. lia. }
  { lia. }
  exists s'. split; [exact Hrun|]. split.
  { rewrite Hlen. unfold zeros. apply repeat_length. }
  intros i Hi. cbv zeta. specialize (Hin i ltac:(lia)).
  unfold tier_rule in Hin.
  repeat split; intros Hcase; try subst i; revert Hin; decide_tests;
    cbn [stevens_limits]; integral_literals; intros Hin;
    first [ exact Hin | injection Hin as Hin; lra ].
Qed.

Lemma equivalent_loudness_tiers_witness :
  (42 <= length (zeros 42))%nat /\
  exists L_eq,
    _equivalent_loudness (zeros 42) 42 = Ok L_eq /\ length L_eq = 42%nat.
Proof.
  split; [apply Nat.eq_le_incl; reflexivity|].
  destruct (equivalent_loudness_tiers (zeros 42) 42) as (L_eq & H1 & H2 & _).
  - apply Nat.eq_le_incl. reflexivity.
  - exists L_eq. split; assumption.
Defined.

(** ** The divisors of the sub-rule *)

Lemma band_centers_above_1 : all (fun c => 1 < c) BAND_CENTERS.
Proof. unfold BAND_CENTERS. simpl. repeat split; lra. Qed.

Lemma called_center_above_1 (f : R) : called_center f -> 1 < f.
Proof.
  intros [->|Hin]; [lra|].
  exact (all_In _ _ band_centers_above_1 f Hin).
Qed.

Lemma called_center_band (i : nat) :
  (i <= 26)%nat -> called_center (nth i BAND_CENTERS 0).
Proof.
  intros H. right. apply nth_In.
  change (length BAND_CENTERS) with 42%nat. lia.
Qed.

(** The tier rule consults the sub-rule only at called centers. *)
Lemma tier_rule_ext (g h : R -> R -> R -> R -> R -> result R) (i : nat) (l : R) :
  (forall f lo hi x X, called_center f -> g f lo hi x X = h f lo hi x X) ->
  tier_rule g i (nth i BAND_CENTERS 0) l = tier_rule h i (nth i BAND_CENTERS 0) l.
Proof.
  intros Hgh. unfold tier_rule.
  destruct (39 <? i)%nat; [reflexivity|].
  destruct (35 <=? i)%nat; [reflexivity|].
  destruct (32 <=? i)%nat; [reflexivity|].
  destruct (26 <? i)%nat eqn:E26; [reflexivity|].
  apply Nat.ltb_ge in E26.
  destruct (20 <=? i)%nat.
  - destruct (stevens_limits i) as [[lo hi] X].
    apply Hgh. apply called_center_band. exact E26.
  - apply Hgh. left. lra.
Qed.

Lemma for_each_ext (g h : R -> R -> R -> R -> R -> result R) (L : list R) :
  (forall f lo hi x X, called_center f -> g f lo hi x X = h f lo hi x X) ->
  forall (range : list nat) (s : list R),
    for_each (loop_body g L) range s = for_each (loop_body h L) range s.
Proof.
  intros Hgh. induction range as [|i rest IH]; intros s; [reflexivity|].
  cbn [for_each]. rewrite !loop_body_tier.
  destruct (getitem L i) as [l|e]; [|reflexivity]. cbn [bind].
  rewrite (tier_rule_ext g h i l Hgh).
  destruct (tier_rule h i (nth i BAND_CENTERS 0) l) as [v|e]; [|reflexivity].
  cbn [bind]. destruct (setitem s i v) as [s1|e]; [|reflexivity].
  cbn [bind]. apply IH.
Qed.

(** C10: every entry of the band-center table exceeds 1, the first being
    1.0000001; the center argument of every call of the sub-rule is the
    reference 80 or such an entry, so the divisor [log10(f_central)] is
    positive.  "Every call" reads: a function that agrees with the sub-rule
    wherever the center is a called one with a positive [log10] can take
    its place in the transform without changing any result. *)
Theorem sub_rule_divisor_positive
  (g : R -> R -> R -> R -> R -> result R) (L : list R) (n : nat) :
  (forall f lo hi x X,
      called_center f -> 0 < log10 f ->
      g f lo hi x X = _loud_limits_400 f lo hi x X) ->
  _equivalent_loudness_with g L n = _equivalent_loudness L n /\
  all (fun c => 1 < c) BAND_CENTERS /\
  nth 0 BAND_CENTERS 0 = 1.0000001 /\
  (forall f, called_center f -> 1 < f /\ 0 < log10 f /\ log10 f <> 0).
Proof.
  intros Hg.
  assert (Hpos : forall f, called_center f -> 1 < f /\ 0 < log10 f /\ log10 f <> 0).
  { intros f Hf. pose proof (called_center_above_1 f Hf) as H1.
    pose proof (log10_pos f H1) as H2. repeat split; lra. }
  split; [|split; [exact band_centers_above_1 | split; [reflexivity | exact Hpos]]].
  unfold _equivalent_loudness, _equivalent_loudness_with.
  apply for_each_ext. intros f lo hi x X Hf.
  apply Hg; [exact Hf | apply Hpos; exact Hf].
Qed.

Lemma sub_rule_divisor_positive_witness :
  _equivalent_loudness_with
    (fun f lo hi x X =>
       if flt 0 (log10 f) then _loud_limits_400 f lo hi x X
       else Raise ValueError)
    (zeros 42) 42
  = _equivalent_loudness (zeros 42) 42.
Proof.
  apply (sub_rule_divisor_positive
           (fun f lo hi x X =>
              if flt 0 (log10 f) then _loud_limits_400 f lo hi x X
              else Raise ValueError) (zeros 42) 42).
  intros f lo hi x X _ Hpos. rewrite (flt_true 0 (log10 f) Hpos). reflexivity.
Defined.

(** ** Interpolation *)

Lemma interp1_left (x : R) (xp fp : list R) (l r : R) :
  x < hd 0 xp -> interp1 x xp fp l r = l.
Proof.
  intros H. unfold interp1.
  destruct (Rlt_dec x (hd 0 xp)); [reflexivity | contradiction].
Qed.

Lemma interp1_right (x : R) (xp fp : list R) (l r : R) :
  hd 0 xp <= x -> last xp 0 < x -> interp1 x xp fp l r = r.
Proof.
  intros H1 H2. unfold interp1.
  destruct (Rlt_dec x (hd 0 xp)); [lra|].
  destruct (Rlt_dec (last xp 0) x); [reflexivity | contradiction].
Qed.

(** Between two nodes the interpolated value lies between the ordinates;
    in particular it is not negative when they are not. *)
Lemma interp_seg_nonneg (x : R) :
  forall xp fp : list R,
    increasing xp -> all (fun v => 0 <= v) fp -> hd 0 xp <= x ->
    0 <= interp_seg x xp fp.
Proof.
  induction xp as [|x0 xp' IH]; intros fp Hinc Hfp Hx; cbn [interp_seg].
  - lra.
  - destruct fp as [|f0 fp']; [lra|].
    destruct Hfp as [Hf0 Hfp'].
    destruct xp' as [|x1 xp'']; [exact Hf0|].
    destruct fp' as [|f1 fp'']; [exact Hf0|].
    destruct Hinc as [H01 Hinc']. cbn [hd] in Hx.
    destruct (Rlt_dec x x1) as [Hlt|Hge].
    + destruct (Req_dec_T x x0) as [_|Hne]; [exact Hf0|].
      destruct Hfp' as [Hf1 _].
      set (t := (x - x0) / (x1 - x0)).
      assert (Ht : 0 <= t <= 1).
      { unfold t. split.
        - apply Rle_mult_inv_pos; lra.
        - apply (Rmult_le_reg_r (x1 - x0)); [lra|].
          unfold Rdiv. rewrite Rmult_assoc, Rinv_l by lra. lra. }
      replace ((f1 - f0) / (x1 - x0) * (x - x0) + f0)
        with (f0 * (1 - t) + f1 * t) by (unfold t; field; lra).
      nra.
    + apply IH.
      * exact Hinc'.
      * exact Hfp'.
      * cbn [hd]. lra.
Qed.

Lemma interp1_nonneg (x : R) (xp fp : list R) (l r : R) :
  increasing xp -> all (fun v => 0 <= v) fp -> 0 <= l -> 0 <= r ->
  0 <= interp1 x xp fp l r.
Proof.
  intros Hinc Hfp Hl Hr. unfold interp1.
  destruct (Rlt_dec x (hd 0 xp)) as [|Hlo]; [exact Hl|].
  destruct (Rlt_dec (last xp 0) x); [exact Hr|].
  apply interp_seg_nonneg; [assumption | assumption | lra].
Qed.

Lemma SONES_L_nonneg : all (fun v => 0 <= v) SONES_L.
Proof. unfold SONES_L. simpl. repeat split; lra. Qed.

Lemma L_EQ_RANGE_ends : hd 0 L_EQ_RANGE = 1 /\ last L_EQ_RANGE 0 = 140.
Proof. split; reflexivity. Qed.

Lemma SONES_L_ends : nth 0 SONES_L 0 = 0.078 /\ last SONES_L 0 = 4096.
Proof. split; reflexivity. Qed.

Lemma SONES_F_ends : hd 0 SONES_F = 0.181 /\ last SONES_F 0 = 256.
Proof. split; [reflexivity | simpl; lra]. Qed.

Lemma SUMMATION_FACTORS_ends :
  nth 0 SUMMATION_FACTORS 0 = 0.100 /\ last SUMMATION_FACTORS 0 = 0.227.
Proof. split; reflexivity. Qed.

Lemma getlast_SONES_L : getlast SONES_L = Ok (last SONES_L 0).
Proof. reflexivity. Qed.

Lemma getlast_SUMMATION_FACTORS :
  getlast SUMMATION_FACTORS = Ok (last SUMMATION_FACTORS 0).
Proof. reflexivity. Qed.

Lemma amax_defined (a : list R) :
  a <> [] -> exists m, amax a = Ok m.
Proof. destruct a as [|v t]; [congruence | intros _; simpl; eauto]. Qed.

(** The function returns whenever there is at least one band. *)
Lemma calc_total_loudness_unfold (L_eq : list R) :
  L_eq <> [] ->
  let sones := interp L_eq L_EQ_RANGE SONES_L 0.0 (last SONES_L 0) in
  exists smax,
    amax sones = Ok smax /\
    _calc_total_loudness L_eq
    = Ok (smax + interp1 smax SONES_F SUMMATION_FACTORS 0.0
                   (last SUMMATION_FACTORS 0) * (pysum sones - smax),
          sones).
Proof.
  intros Hne sones.
  destruct (amax_defined sones) as [smax Hmax].
  { unfold sones, interp. destruct L_eq; [congruence | discriminate]. }
  exists smax. split; [exact Hmax|].
  unfold _calc_total_loudness.
  rewrite getlast_SONES_L. cbn [bind]. fold sones. rewrite Hmax. cbn [bind].
  rewrite getlast_SUMMATION_FACTORS. reflexivity.
Qed.

(** ** Loudness summation *)

Lemma nth_interp (xs xp fp : list R) (l r : R) (i : nat) :
  (i < length xs)%nat ->
  nth i (interp xs xp fp l r) 0 = interp1 (nth i xs 0) xp fp l r.
Proof.
  intros H. unfold interp.
  rewrite (nth_indep _ 0 (interp1 0 xp fp l r)) by (rewrite length_map; exact H).
  apply (map_nth (fun x => interp1 x xp fp l r)).
Qed.

(** C6, as stated, fails: an equivalent loudness below 1 dB gives 0 sones,
    not the first table value 0.078. *)
Lemma sones_below_domain_are_zero :
  exists total sones,
    _calc_total_loudness [0] = Ok (total, sones) /\
    nth 0 sones 0 = 0 /\
    nth 0 SONES_L 0 = 0.078 /\
    nth 0 sones 0 <> nth 0 SONES_L 0.
Proof.
  destruct (calc_total_loudness_unfold [0]) as (smax & _ & Hrun);
    [discriminate|].
  eexists. eexists. split; [exact Hrun|].
  assert (H0 : nth 0 (interp [0] L_EQ_RANGE SONES_L 0.0 (last SONES_L 0)) 0 = 0).
  { rewrite nth_interp by (simpl; lia). cbn [nth].
    rewrite interp1_left; [lra|].
    rewrite (proj1 L_EQ_RANGE_ends). lra. }
  split; [exact H0|]. split; [reflexivity|].
  rewrite H0. rewrite (proj1 SONES_L_ends). lra.
Qed.

(** C6, amended: an equivalent loudness below the domain [1,140] gives 0
    sones and one above it the last sone value 4096; likewise a maximum
    sone value below the domain [0.181, 256] of the summation-factor table
    gives the factor 0 and one above it the last factor 0.227. *)
Theorem total_loudness_lookups_outside_domain (L_eq : list R) :
  L_eq <> [] ->
  exists total sones smax,
    _calc_total_loudness L_eq = Ok (total, sones) /\
    length sones = length L_eq /\
    amax sones = Ok smax /\
    (forall i, (i < length L_eq)%nat ->
       nth i L_eq 0 < 1 -> nth i sones 0 = 0) /\
    (forall i, (i < length L_eq)%nat ->
       140 < nth i L_eq 0 -> nth i sones 0 = 4096) /\
    (smax < 0.181 -> total = smax + 0 * (pysum sones - smax)) /\
    (256 < smax -> total = smax + 0.227 * (pysum sones - smax)) /\
    last SONES_L 0 = 4096 /\
    last SUMMATION_FACTORS 0 = 0.227.
Proof.
  intros Hne.
  destruct (calc_total_loudness_unfold L_eq Hne) as (smax & Hmax & Hrun).
  eexists. eexists. exists smax. split; [exact Hrun|].
  destruct L_EQ_RANGE_ends as [Hx0 Hx1]. destruct SONES_F_ends as [Hs0 Hs1].
  split; [unfold interp; apply length_map|]. split; [exact Hmax|].
  split; [|split; [|split; [|split; [|split; reflexivity]]]].
  - intros i Hi Hlow. rewrite nth_interp by exact Hi.
    rewrite interp1_left; [lra | rewrite Hx0; exact Hlow].
  - intros i Hi Hhigh. rewrite nth_interp by exact Hi.
    rewrite interp1_right; [reflexivity | rewrite Hx0; lra | rewrite Hx1; exact Hhigh].
  - intros Hlow. rewrite interp1_left; [lra | rewrite Hs0; exact Hlow].
  - intros Hhigh.
    rewrite interp1_right; [reflexivity | rewrite Hs0; lra | rewrite Hs1; exact Hhigh].
Qed.

Lemma total_loudness_lookups_outside_domain_witness :
  [141] <> [] /\
  exists total sones, _calc_total_loudness [141] = Ok (total, sones).
Proof.
  assert (Hne : [141] <> []) by discriminate.
  split; [exact Hne|].
  destruct (total_loudness_lookups_outside_domain [141] Hne)
    as (total & sones & smax & Hrun & _).
  exists total, sones. exact Hrun.
Defined.

Lemma nth_nil_R (k : nat) : nth k (@nil R) 0 = 0.
Proof. destruct k; reflexivity. Qed.

(** The sum of a vector with a single nonzero entry is that entry. *)
Lemma fold_plus_single :
  forall (s : list R) (k : nat) (a : R),
    (forall j, j <> k -> nth j s 0 = 0) ->
    fold_left Rplus s a = a + nth k s 0.
Proof.
  induction s as [|x t IH]; intros k a Hz.
  - rewrite nth_nil_R. cbn [fold_left]. lra.
  - cbn [fold_left]. destruct k as [|k'].
    + rewrite (IH (length t) (a + x)).
      * rewrite nth_overflow by lia. cbn [nth]. lra.
      * intros j _. apply (Hz (S j)). discriminate.
    + rewrite (IH k' (a + x)).
      * pose proof (Hz 0%nat ltac:(discriminate)) as H0. cbn [nth] in *. lra.
      * intros j Hj. apply (Hz (S j)). congruence.
Qed.

(** The maximum of a non-negative vector with a single nonzero entry. *)
Lemma fold_max_single :
  forall (s : list R) (k : nat) (a : R),
    all (fun v => 0 <= v) s ->
    (forall j, j <> k -> nth j s 0 = 0) ->
    0 <= a ->
    fold_left Rmax s a = Rmax a (nth k s 0).
Proof.
  induction s as [|x t IH]; intros k a Hpos Hz Ha.
  - rewrite nth_nil_R. cbn [fold_left]. rewrite Rmax_left; lra.
  - cbn [fold_left]. destruct Hpos as [Hx Ht].
    assert (Hax : 0 <= Rmax a x).
    { apply Rle_trans with a; [exact Ha | apply Rmax_l]. }
    destruct k as [|k'].
    + rewrite (IH (length t) (Rmax a x) Ht); [| |exact Hax].
      * rewrite nth_overflow by lia. cbn [nth]. apply Rmax_left. exact Hax.
      * intros j _. apply (Hz (S j)). discriminate.
    + rewrite (IH k' (Rmax a x) Ht); [| |exact Hax].
      * pose proof (Hz 0%nat ltac:(discriminate)) as H0. cbn [nth] in *.
        rewrite H0. rewrite (Rmax_left a 0 Ha). reflexivity.
      * intros j Hj. apply (Hz (S j)). congruence.
Qed.

Lemma all_map_interp1 (xs xp fp : list R) (l r : R) :
  increasing xp -> all (fun v => 0 <= v) fp -> 0 <= l -> 0 <= r ->
  all (fun v => 0 <= v) (interp xs xp fp l r).
Proof.
  intros Hinc Hfp Hl Hr. unfold interp.
  induction xs as [|x t IH]; cbn [map all]; [exact I|].
  split; [apply interp1_nonneg; assumption | exact IH].
Qed.

(** C9: when exactly one band has a nonzero sone value, the remainder
    [sum(sones) - S_max] is zero and the total loudness is the sone value
    of that band. *)
Theorem single_band_total_loudness (L_eq : list R) (k : nat) :
  let sones := interp L_eq L_EQ_RANGE SONES_L 0 (last SONES_L 0) in
  nth k sones 0 <> 0 ->
  (forall j, j <> k -> nth j sones 0 = 0) ->
  exists total,
    _calc_total_loudness L_eq = Ok (total, sones) /\
    amax sones = Ok (nth k sones 0) /\
    pysum sones - nth k sones 0 = 0 /\
    total = nth k sones 0.
Proof.
  intros sones Hk Hz.
  assert (Hne : L_eq <> []).
  { intros ->. apply Hk. unfold sones, interp. cbn [map]. apply nth_nil_R. }
  assert (Es : interp L_eq L_EQ_RANGE SONES_L 0.0 (last SONES_L 0) = sones).
  { unfold sones. f_equal. lra. }
  destruct (calc_total_loudness_unfold L_eq Hne) as (smax & Hmax & Hrun).
  cbv zeta in Hmax, Hrun. rewrite Es in Hmax, Hrun.
  assert (Hpos : all (fun v => 0 <= v) sones).
  { unfold sones. apply all_map_interp1.
    - exact L_EQ_RANGE_increasing.
    - exact SONES_L_nonneg.
    - lra.
    - rewrite (proj2 SONES_L_ends). lra. }
  assert (Hsum : pysum sones = nth k sones 0).
  { unfold pysum. rewrite (fold_plus_single sones k 0 Hz). lra. }
  assert (Hm : smax = nth k sones 0).
  { destruct sones as [|v t] eqn:E; [discriminate|].
    cbn [amax] in Hmax. injection Hmax as <-.
    destruct Hpos as [Hv Ht]. destruct k as [|k'].
    - rewrite (fold_max_single t (length t) v Ht); [| |exact Hv].
      + rewrite nth_overflow by lia. cbn [nth]. apply Rmax_left. exact Hv.
      + intros j _. apply (Hz (S j)). discriminate.
    - rewrite (fold_max_single t k' v Ht); [| |exact Hv].
      + pose proof (Hz 0%nat ltac:(discriminate)) as H0. cbn [nth] in *.
        subst v. apply Rmax_right.
        pose proof (all_In _ _ Ht) as Hin.
        destruct (Nat.lt_ge_cases k' (length t)) as [Hlt|Hge].
        * apply Hin. apply nth_In. exact Hlt.
        * rewrite nth_overflow by lia. lra.
      + intros j Hj. apply (Hz (S j)). congruence. }
  subst smax. eexists. split; [exact Hrun|]. split; [exact Hmax|].
  split; [lra|]. rewrite Hsum. lra.
Qed.

Lemma single_band_total_loudness_witness :
  exists total,
    _calc_total_loudness [141; 0] = Ok (total, [4096; 0]) /\ total = 4096.
Proof.
  assert (E : interp [141; 0] L_EQ_RANGE SONES_L 0 (last SONES_L 0) = [4096; 0]).
  { destruct L_EQ_RANGE_ends as [Hx0 Hx1]. unfold interp. cbn [map].
    rewrite interp1_right by (rewrite ?Hx0, ?Hx1; lra).
    rewrite interp1_left by (rewrite Hx0; lra). reflexivity. }
  pose proof (single_band_total_loudness [141; 0] 0) as H.
  cbv zeta in H. rewrite E in H.
  destruct H as (total & Hrun & _ & _ & Htot).
  - cbn [nth]. lra.
  - intros [|[|j]] Hj; [congruence | reflexivity | destruct j; reflexivity].
  - exists total. split; [exact Hrun | exact Htot].
Defined.

(** ** Windowing *)

Lemma nth_mul_combine :
  forall (t b : list R) (j : nat),
    (j < length t)%nat -> length b = length t ->
    nth j (map (fun p => fst p * snd p) (combine t b)) 0
    = nth j t 0 * nth j b 0.
Proof.
  induction t as [|x t IH]; intros b j Hj Hb; cbn [length] in *; [lia|].
  destruct b as [|y b]; [discriminate|]. cbn [length] in Hb.
  destruct j as [|j]; cbn [combine map nth fst snd]; [reflexivity|].
  apply IH; lia.
Qed.

Lemma length_mul_combine (t b : list R) :
  length b = length t ->
  length (map (fun p => fst p * snd p) (combine t b)) = length t.
Proof. intros H. rewrite length_map, length_combine. lia. Qed.

Lemma nth_slice (a : list R) (s e j : nat) :
  (j < e - s)%nat -> nth j (slice a s e) 0 = nth (s + j) a 0.
Proof.
  intros H. unfold slice. rewrite nth_firstn.
  rewrite (proj2 (Nat.ltb_lt j (e - s)) H). apply nth_skipn.
Qed.

Lemma length_slice (a : list R) (s e : nat) :
  (e <= length a)%nat -> length (slice a s e) = (e - s)%nat.
Proof.
  intros H. unfold slice. rewrite length_firstn, length_skipn. lia.
Qed.

Lemma length_hanning (M : nat) : length (hanning M) = M.
Proof.
  destruct M as [|[|M]]; [reflexivity | reflexivity |].
  unfold hanning. rewrite length_map, length_seq. reflexivity.
Qed.

(** [a[start:stop] *= b] on a slice inside the array, with [b] of the
    length of the slice. *)
Lemma imul_slice_inside (a : list R) (start stop : nat) (b : list R) :
  (start <= stop <= length a)%nat ->
  length b = (stop - start)%nat ->
  exists a',
    imul_slice a start stop b = Ok a' /\
    length a' = length a /\
    (forall i, (i < start)%nat -> nth i a' 0 = nth i a 0) /\
    (forall i, (start <= i < stop)%nat ->
       nth i a' 0 = nth i a 0 * nth (i - start) b 0) /\
    (forall i, (stop <= i)%nat -> nth i a' 0 = nth i a 0).
Proof.
  intros [Hs He] Hb. unfold imul_slice.
  rewrite (Nat.min_l start (length a)) by lia.
  rewrite (Nat.min_l stop (length a)) by lia.
  rewrite (Nat.max_r start stop) by lia.
  set (target := firstn (stop - start) (skipn start a)).
  assert (Ht : length target = (stop - start)%nat).
  { unfold target. rewrite length_firstn, length_skipn. lia. }
  rewrite (proj2 (Nat.eqb_eq (length b) (length target))) by lia.
  eexists. split; [reflexivity|].
  assert (Hf : length (firstn start a) = start) by (rewrite length_firstn; lia).
  assert (Hm : length (map (fun p => fst p * snd p) (combine target b))
               = (stop - start)%nat).
  { rewrite length_mul_combine; lia. }
  split; [|split; [|split]].
  - rewrite !length_app, Hf, Hm, length_skipn. lia.
  - intros i Hi. rewrite app_nth1 by lia. rewrite nth_firstn.
    rewrite (proj2 (Nat.ltb_lt i start) Hi). reflexivity.
  - intros i Hi. rewrite app_nth2 by lia. rewrite Hf.
    rewrite app_nth1 by lia. rewrite nth_mul_combine by lia.
    f_equal. unfold target. rewrite nth_firstn.
    rewrite (proj2 (Nat.ltb_lt (i - start) (stop - start))) by lia.
    rewrite nth_skipn. f_equal. lia.
  - intros i Hi. rewrite app_nth2 by lia. rewrite Hf.
    rewrite app_nth2 by lia. rewrite Hm. rewrite nth_skipn. f_equal. lia.
Qed.

(** The window is applied without error whenever [1 <= len_window <= N]. *)
Lemma window_defined (dataset : list R) (len_window : nat) :
  (1 <= len_window <= length dataset)%nat ->
  exists w1 out,
    imul_slice dataset 0 len_window
      (slice (hanning (len_window * 2)) 0 len_window) = Ok w1 /\
    length w1 = length dataset /\
    imul_slice w1 (length dataset - len_window) (length dataset)
      (slice (hanning (len_window * 2)) len_window (len_window * 2)) = Ok out /\
    length out = length dataset /\
    _window dataset len_window = Ok out.
Proof.
  intros [H1 HN].
  pose proof (length_hanning (len_window * 2)) as Hw.
  destruct (imul_slice_inside dataset 0 len_window
              (slice (hanning (len_window * 2)) 0 len_window))
    as (w1 & E1 & L1 & _); [lia | rewrite length_slice; lia |].
  destruct (imul_slice_inside w1 (length dataset - len_window) (length dataset)
              (slice (hanning (len_window * 2)) len_window (len_window * 2)))
    as (out & E2 & L2 & _); [lia | rewrite length_slice; lia |].
  exists w1, out. repeat split; try assumption; try congruence.
  unfold _window. rewrite E1. cbn [bind]. rewrite L1, Hw.
  replace (neg_start (length dataset) len_window)
    with (length dataset - len_window)%nat
    by (destruct len_window; [lia | reflexivity]).
  rewrite E2. reflexivity.
Qed.

(** A window longer than the signal does not fit the slice it multiplies:
    numpy reports a shape mismatch. *)
Lemma window_too_long (dataset : list R) (len_window : nat) :
  (1 <= length dataset < len_window)%nat ->
  _window dataset len_window = Raise ValueError.
Proof.
  intros [H1 H2]. unfold _window, imul_slice at 1.
  cbn [Nat.min]. rewrite (Nat.min_r len_window (length dataset)) by lia.
  rewrite Nat.max_r by lia. rewrite Nat.sub_0_r.
  rewrite length_slice by (rewrite length_hanning; lia).
  rewrite length_firstn, length_skipn.
  rewrite (proj2 (Nat.eqb_neq (len_window - 0) _)) by lia.
  rewrite (proj2 (Nat.eqb_neq (len_window - 0) 1)) by lia.
  reflexivity.
Qed.

(** With [len_window = 0] the slice [windowed_data[-0:]] is the whole
    array, which the empty window does not fit. *)
Lemma window_zero_raises (dataset : list R) :
  (1 <= length dataset)%nat -> _window dataset 0 = Raise ValueError.
Proof.
  intros H. unfold _window. cbn [Nat.mul hanning slice Nat.sub firstn].
  unfold imul_slice at 1. cbn [Nat.min Nat.max Nat.sub firstn length Nat.eqb].
  cbn [combine map skipn app bind neg_start].
  unfold imul_slice. cbn [Nat.min]. rewrite Nat.min_id, Nat.max_r by lia.
  rewrite Nat.sub_0_r. cbn [skipn length]. rewrite firstn_all.
  destruct (length dataset) as [|n] eqn:E; [lia|]. reflexivity.
Qed.

(** C3, as stated, fails: a window half-length above [N/2] but not above
    [N] raises nothing. *)
Lemma window_overlap_does_not_fail :
  (3 < 2 * 2)%nat /\
  exists out, _window [1; 2; 3] 2 = Ok out /\ length out = 3%nat.
Proof.
  split; [lia|].
  destruct (window_defined [1; 2; 3] 2) as (w1 & out & _ & _ & _ & Hlen & Hrun).
  - simpl. lia.
  - exists out. split; [exact Hrun | exact Hlen].
Qed.

(** C3, amended: for [1 <= len_window] the windowing operation fails, with
    a shape mismatch, when [len_window] exceeds [N]; it returns a sequence
    of length [N] whenever [len_window <= N]; and when [2 len_window <= N]
    the first [len_window] samples are multiplied by the rising half of
    the Hann window of length [2 len_window], the last [len_window] samples
    by its falling half, and the samples between are unchanged. *)
Theorem window_taper (dataset : list R) (len_window : nat) :
  (1 <= len_window)%nat ->
  let N := length dataset in
  let win := hanning (2 * len_window) in
  ((1 <= N < len_window)%nat ->
   _window dataset len_window = Raise ValueError) /\
  ((len_window <= N)%nat ->
   exists out, _window dataset len_window = Ok out /\ length out = N) /\
  ((2 * len_window <= N)%nat ->
   exists out,
     _window dataset len_window = Ok out /\
     length out = N /\
     (forall i, (i < len_window)%nat ->
        nth i out 0 = nth i dataset 0 * nth i win 0) /\
     (forall i, (len_window <= i < N - len_window)%nat ->
        nth i out 0 = nth i dataset 0) /\
     (forall i, (i < len_window)%nat ->
        nth (N - len_window + i) out 0
        = nth (N - len_window + i) dataset 0 * nth (len_window + i) win 0)).
Proof.
  intros H1 N win. split; [|split].
  - intros H. apply window_too_long. exact H.
  - intros H.
    destruct (window_defined dataset len_window) as (w1 & out & _ & _ & _ & Hlen & Hrun);
      [lia|].
    exists out. split; [exact Hrun | exact Hlen].
  - intros H. unfold win. rewrite (Nat.mul_comm 2 len_window).
    pose proof (length_hanning (len_window * 2)) as Hw.
    destruct (imul_slice_inside dataset 0 len_window
                (slice (hanning (len_window * 2)) 0 len_window))
      as (w1 & E1 & L1 & _ & Hin1 & Hout1); [lia | rewrite length_slice; lia |].
    destruct (imul_slice_inside w1 (N - len_window) N
                (slice (hanning (len_window * 2)) len_window (len_window * 2)))
      as (out & E2 & L2 & Hlow2 & Hin2 & _);
      [unfold N in *; lia | rewrite length_slice; lia |].
    exists out. split; [|split; [unfold N; congruence|split; [|split]]].
    + unfold _window. rewrite E1. cbn [bind]. rewrite L1, Hw.
      replace (neg_start (length dataset) len_window) with (N - len_window)%nat
        by (unfold N; destruct len_window; [lia | reflexivity]).
      fold N. rewrite E2. reflexivity.
    + intros i Hi. rewrite Hlow2 by lia. rewrite Hin1 by lia.
      rewrite Nat.sub_0_r. rewrite nth_slice by lia. reflexivity.
    + intros i Hi. rewrite Hlow2 by lia. apply Hout1. lia.
    + intros i Hi. rewrite Hin2 by lia. rewrite Hout1 by lia.
      rewrite nth_slice by lia. do 2 f_equal. lia.
Qed.

Lemma window_taper_witness :
  (1 <= 1)%nat /\ (2 * 1 <= length [5; 6; 7])%nat /\
  exists out, _window [5; 6; 7] 1 = Ok out /\ nth 1 out 0 = 6.
Proof.
  split; [lia|]. split; [simpl; lia|].
  destruct (window_taper [5; 6; 7] 1 (le_n 1)) as (_ & _ & H).
  destruct H as (out & Hrun & _ & _ & Hmid & _); [simpl; lia|].
  exists out. split; [exact Hrun|]. apply (Hmid 1%nat). simpl. lia.
Defined.

(** ** Padding *)

Lemma assign_slice_inside (a : list R) (start stop : nat) (b : list R) :
  (start <= stop <= length a)%nat ->
  length b = (stop - start)%nat ->
  assign_slice a start stop b = Ok (firstn start a ++ b ++ skipn stop a).
Proof.
  intros [Hs He] Hb. unfold assign_slice.
  rewrite (Nat.min_l start (length a)) by lia.
  rewrite (Nat.min_l stop (length a)) by lia.
  rewrite (Nat.max_r start stop) by lia.
  rewrite (proj2 (Nat.eqb_eq (length b) (stop - start))) by exact Hb.
  reflexivity.
Qed.

Lemma length_linspace (start stop : R) (num : nat) :
  length (linspace start stop num) = num.
Proof.
  destruct num as [|[|k]]; [reflexivity | reflexivity |].
  unfold linspace. rewrite length_app, length_map, length_seq.
  cbn [length]. lia.
Qed.

Lemma linspace_first (start stop : R) (num : nat) :
  (1 <= num)%nat -> nth 0 (linspace start stop num) 0 = start.
Proof.
  destruct num as [|[|k]]; intros H; [lia | reflexivity |].
  unfold linspace. cbn [Nat.sub seq map app nth INR]. lra.
Qed.

(** The padded time axis is the front ramp, the shifted samples and the
    rear ramp, one after the other. *)
Lemma padding_time_axis (x_var y_var : list R) (f_pad r_pad : nat) :
  (2 <= length x_var)%nat ->
  let dx := nth 1 x_var 0 - nth 0 x_var 0 in
  let frontpad := INR f_pad * dx in
  let rearpad := last x_var 0 + INR r_pad * dx + frontpad in
  _padding x_var y_var f_pad r_pad
  = Ok (linspace (nth 0 x_var 0) frontpad f_pad
        ++ map (fun x => x + frontpad) x_var
        ++ linspace (last x_var 0 + frontpad) rearpad r_pad,
        pad y_var f_pad r_pad).
Proof.
  intros Hn dx frontpad rearpad. unfold _padding.
  rewrite (getitem_nth x_var 1) by lia. cbn [bind].
  rewrite (getitem_nth x_var 0) by lia. cbn [bind].
  assert (Hlast : getlast x_var = Ok (last x_var 0)).
  { destruct x_var; [cbn [length] in Hn; lia | reflexivity]. }
  rewrite Hlast. cbn [bind]. fold dx. fold frontpad. fold rearpad.
  set (frontx := linspace (nth 0 x_var 0) frontpad f_pad).
  set (rearx := linspace (last x_var 0 + frontpad) rearpad r_pad).
  set (shifted_x := map (fun x => x + frontpad) x_var).
  assert (Hf : length frontx = f_pad) by apply length_linspace.
  assert (Hr : length rearx = r_pad) by apply length_linspace.
  assert (Hs : length shifted_x = length x_var) by apply length_map.
  rewrite Hf, Hr. set (n := length x_var) in *.
  assert (Hz : zeros (n + f_pad + r_pad)
               = zeros f_pad ++ zeros n ++ zeros r_pad).
  { unfold zeros. rewrite <- !repeat_app. f_equal. lia. }
  rewrite Hz.
  assert (Hzl : forall k, length (zeros k) = k)
    by (intros k; apply repeat_length).
  rewrite assign_slice_inside;
    [ | rewrite !length_app, !Hzl; lia | lia ].
  cbn [firstn app bind].
  rewrite skipn_app, Hzl, Nat.sub_diag, skipn_all2 by (rewrite Hzl; lia).
  cbn [skipn app].
  rewrite (assign_slice_inside (frontx ++ zeros n ++ zeros r_pad));
    [ | rewrite !length_app, !Hzl, Hf; lia | lia ].
  cbn [bind].
  rewrite firstn_app, firstn_all2, Hf, Nat.sub_diag by lia.
  cbn [firstn]. rewrite app_nil_r.
  rewrite skipn_app, Hf, skipn_all2 by lia. cbn [app].
  replace (f_pad + n - f_pad)%nat with n by lia.
  rewrite skipn_app, Hzl, Nat.sub_diag, skipn_all2 by (rewrite Hzl; lia).
  cbn [skipn app].
  rewrite (assign_slice_inside (frontx ++ shifted_x ++ zeros r_pad));
    [ | rewrite !length_app, !Hzl, Hf, Hs; lia
      | rewrite !length_app, !Hzl, Hf, Hs; lia ].
  cbn [bind]. do 2 f_equal.
  rewrite skipn_all, app_nil_r.
  rewrite firstn_app, firstn_all2, Hf by lia.
  replace (f_pad + n - f_pad)%nat with n by lia.
  rewrite firstn_app, firstn_all2, Hs, Nat.sub_diag by lia.
  cbn [firstn]. rewrite app_nil_r. rewrite <- app_assoc. reflexivity.
Qed.

Lemma uniform_nth (dt : R) :
  forall (l : list R) (i : nat),
    uniform dt l -> (S i < length l)%nat ->
    nth (S i) l 0 - nth i l 0 = dt.
Proof.
  induction l as [|a t IH]; intros i Hu Hi; cbn [length] in Hi; [lia|].
  destruct t as [|b t']; [cbn [length] in Hi; lia|].
  destruct Hu as [Hab Ht]. destruct i as [|i].
  - exact Hab.
  - change (nth (S i) (b :: t') 0 - nth i (b :: t') 0 = dt).
    apply IH; [exact Ht | cbn [length] in *; lia].
Qed.

Lemma nth_pred_last (l : list R) : nth (Nat.pred (length l)) l 0 = last l 0.
Proof.
  induction l as [|a t IH]; [reflexivity|].
  destruct t as [|b t']; [reflexivity|].
  change (nth (Nat.pred (length (b :: t'))) (b :: t') 0 = last (b :: t') 0).
  exact IH.
Qed.

(** The rear ramp starts at the time of the last shifted sample: the
    padded time axis holds that time twice in a row. *)
Lemma padding_rear_repeats (x_var y_var : list R) (f_pad r_pad : nat) :
  (2 <= length x_var)%nat -> (1 <= r_pad)%nat ->
  exists pad_x pad_y,
    _padding x_var y_var f_pad r_pad = Ok (pad_x, pad_y) /\
    length pad_x = (length x_var + f_pad + r_pad)%nat /\
    nth (S (f_pad + length x_var - 1)) pad_x 0
    = nth (f_pad + length x_var - 1) pad_x 0.
Proof.
  intros Hn Hr.
  pose proof (padding_time_axis x_var y_var f_pad r_pad Hn) as Hrun.
  cbv zeta in Hrun.
  set (frontpad := INR f_pad * (nth 1 x_var 0 - nth 0 x_var 0)) in *.
  eexists. eexists. split; [exact Hrun|].
  assert (Hs : length (map (fun x => x + frontpad) x_var) = length x_var)
    by apply length_map.
  split.
  - rewrite !length_app, !length_linspace, Hs. lia.
  - rewrite app_nth2 by (rewrite length_linspace; lia).
    rewrite (app_nth2 (linspace _ _ f_pad)) by (rewrite length_linspace; lia).
    rewrite !length_linspace.
    rewrite app_nth2 by (rewrite Hs; lia).
    rewrite app_nth1 by (rewrite Hs; lia). rewrite Hs.
    replace (S (f_pad + length x_var - 1) - f_pad - length x_var)%nat
      with 0%nat by lia.
    rewrite linspace_first by exact Hr.
    rewrite (nth_indep _ 0 (0 + frontpad)) by (rewrite Hs; lia).
    rewrite (map_nth (fun x => x + frontpad)).
    replace (f_pad + length x_var - 1 - f_pad)%nat
      with (Nat.pred (length x_var)) by lia.
    rewrite nth_pred_last. reflexivity.
Qed.

(** For every uniformly spaced time sequence with a nonzero step the
    padded time sequence is not uniformly spaced at that step. *)
Lemma padding_never_uniform
  (x_var y_var : list R) (f_pad r_pad : nat) (dt : R) :
  (2 <= length x_var)%nat -> uniform dt x_var -> dt <> 0 ->
  (1 <= f_pad)%nat -> (1 <= r_pad)%nat ->
  exists pad_x pad_y,
    _padding x_var y_var f_pad r_pad = Ok (pad_x, pad_y) /\
    ~ uniform dt pad_x.
Proof.
  intros Hn _ Hdt _ Hr.
  destruct (padding_rear_repeats x_var y_var f_pad r_pad Hn Hr)
    as (pad_x & pad_y & Hrun & Hlen & Hrep).
  exists pad_x, pad_y. split; [exact Hrun|].
  intros Hu. apply Hdt.
  rewrite <- (uniform_nth dt pad_x (f_pad + length x_var - 1) Hu) by lia.
  rewrite Hrep. lra.
Qed.

(** C4 on a two-sample signal padded by two samples on each side: the
    input times 0, 1 have step 1; the padded times are 0, 2, 2, 3, 3, 5. *)
Theorem padding_time_axis_example :
  uniform 1 [0; 1] /\
  _padding [0; 1] [7; 9] 2 2
  = Ok ([0; 2; 2; 3; 3; 5], [0; 0; 7; 9; 0; 0]) /\
  ~ uniform 1 [0; 2; 2; 3; 3; 5].
Proof.
  split; [|split].
  - cbn [uniform]. split; [lra | exact I].
  - rewrite padding_time_axis by (cbn [length]; lia).
    cbn [nth last linspace Nat.sub seq map app pad zeros repeat INR].
    do 2 f_equal. repeat (f_equal; try lra).
  - cbn [uniform]. intros (H & _). lra.
Qed.

(** ** The one-sided power spectrum *)

Lemma nth_map_R (A : Type) (f : A -> R) (l : list A) (d : A) (k : nat) :
  (k < length l)%nat -> nth k (map f l) 0 = f (nth k l d).
Proof.
  intros H. rewrite (nth_indep _ 0 (f d)) by (rewrite length_map; exact H).
  apply map_nth.
Qed.

Lemma length_fftfreq (n : nat) :
  (1 <= n)%nat -> length (fftfreq n) = n.
Proof.
  intros H. unfold fftfreq.
  rewrite length_map, length_app, !length_map, length_rev, !length_seq.
  pose proof (Nat.div_mod_eq n 2) as E1.
  pose proof (Nat.div_mod_eq (n - 1) 2) as E2.
  pose proof (Nat.mod_upper_bound n 2) as B1.
  pose proof (Nat.mod_upper_bound (n - 1) 2) as B2.
  lia.
Qed.

Lemma nth_fftfreq (n k : nat) :
  (k < (n - 1) / 2 + 1)%nat -> nth k (fftfreq n) 0 = INR k * (1 / INR n).
Proof.
  intros H. unfold fftfreq.
  rewrite (nth_map_R _ (fun v => v * (1 / INR n)) _ 0)
    by (rewrite length_app, length_map, length_seq; lia).
  f_equal. rewrite app_nth1 by (rewrite length_map, length_seq; lia).
  rewrite (nth_map_R _ INR _ 0%nat) by (rewrite length_seq; lia).
  rewrite seq_nth by lia. reflexivity.
Qed.

Lemma even_half (n : nat) :
  Nat.Even n -> (0 < n)%nat -> (1 <= n / 2 <= n /\ (n - 1) / 2 + 1 = n / 2)%nat.
Proof.
  intros [m ->] Hpos.
  assert (Hm : (1 <= m)%nat) by lia.
  rewrite (Nat.mul_comm 2 m), Nat.div_mul by lia.
  replace (m * 2 - 1)%nat with (1 + (m - 1) * 2)%nat by lia.
  rewrite Nat.div_add by lia. cbn [Nat.div Nat.divmod fst]. lia.
Qed.

(** The one-sided spectrum in terms of the step [dt] that the code takes
    from the two end points of the time sequence: each bin receives the
    power [|FFT amplitude|^2 dt^2]; the first [N/2] bins, which are the bins
    of non-negative frequency [k / (N dt)], are kept; the power of every
    kept bin but the zero-frequency one is doubled. *)
Lemma one_sided_spectrum_of_code_step (time pressure : list R) :
  let N := length pressure in
  Nat.Even N -> (0 < N)%nat -> time <> [] ->
  exists dt FFT freq power,
    time_step time N = Ok dt /\
    dt = (last time 0 - nth 0 time 0) / INR N * 0.001 /\
    fft pressure = Ok FFT /\
    length FFT = N /\
    _power_spectrum_one_sided time pressure = Ok (freq, power) /\
    length freq = (N / 2)%nat /\
    length power = (N / 2)%nat /\
    ((N - 1) / 2 + 1 = N / 2)%nat /\
    (forall k, (k < N / 2)%nat -> nth k freq 0 = INR k * (1 / INR N) / dt) /\
    nth 0 power 0 = cabs (nth 0 FFT (0, 0)) ^ 2 * dt ^ 2 /\
    (forall k, (1 <= k < N / 2)%nat ->
       nth k power 0 = 2 * (cabs (nth k FFT (0, 0)) ^ 2 * dt ^ 2)).
Proof.
  intros N Heven Hpos Htime.
  destruct (even_half N Heven Hpos) as [[Hh1 Hh2] Hnonneg].
  set (dt := (last time 0 - nth 0 time 0) / INR N * 0.001).
  assert (Hdt : time_step time N = Ok dt).
  { unfold time_step. destruct time as [|t0 rest]; [congruence|].
    reflexivity. }
  set (FFT := map (fun k => (dft_re pressure k, dft_im pressure k)) (seq 0 N)).
  assert (Hfft : fft pressure = Ok FFT).
  { unfold fft, FFT, N. destruct pressure; [cbn [length] in *; lia | reflexivity]. }
  assert (HlF : length FFT = N).
  { unfold FFT. rewrite length_map, length_seq. reflexivity. }
  set (P := map (fun z => cabs z ^ 2 * dt ^ 2) FFT).
  assert (HlP : length P = N) by (unfold P; rewrite length_map; exact HlF).
  set (b := map (fun v => 2 * v) (slice P 1 (N / 2))).
  assert (Hlb : length b = (N / 2 - 1)%nat).
  { unfold b. rewrite length_map, length_slice; lia. }
  assert (Hlf1 : length (firstn 1 P) = 1%nat) by (rewrite length_firstn; lia).
  set (freq := map (fun v => v / dt) (fftfreq N)).
  assert (Hlfr : length freq = N).
  { unfold freq. rewrite length_map. apply length_fftfreq. lia. }
  exists dt, FFT, (slice freq 0 (N / 2)),
    (slice (firstn 1 P ++ b ++ skipn (N / 2) P) 0 (N / 2)).
  split; [exact Hdt|]. split; [reflexivity|]. split; [exact Hfft|].
  split; [exact HlF|].
  assert (Hlall : length (firstn 1 P ++ b ++ skipn (N / 2) P) = N).
  { rewrite !length_app, Hlf1, Hlb, length_skipn. lia. }
  split; [|split; [|split; [|split; [exact Hnonneg|split; [|split]]]]].
  - unfold _power_spectrum_one_sided, two_sided. fold N.
    rewrite Hdt. cbn [bind]. rewrite Hfft. cbn [bind].
    fold P. fold freq. unfold one_sided. fold b.
    rewrite assign_slice_inside by lia. reflexivity.
  - rewrite length_slice by lia. lia.
  - rewrite length_slice by lia. lia.
  - intros k Hk. rewrite nth_slice by lia. cbn [Nat.add]. unfold freq.
    rewrite (nth_map_R _ (fun v => v / dt) _ 0)
      by (rewrite length_fftfreq; lia).
    rewrite nth_fftfreq by lia. reflexivity.
  - rewrite nth_slice by lia. cbn [Nat.add].
    rewrite app_nth1 by lia. rewrite nth_firstn. cbn [Nat.ltb Nat.leb].
    unfold P.
    apply (nth_map_R _ (fun z => cabs z ^ 2 * dt ^ 2) FFT (0, 0)). lia.
  - intros k Hk. rewrite nth_slice by lia. cbn [Nat.add].
    rewrite app_nth2 by lia. rewrite Hlf1.
    rewrite app_nth1 by lia. unfold b.
    rewrite (nth_map_R _ (fun v => 2 * v) _ 0) by (rewrite length_slice; lia).
    rewrite nth_slice by lia. f_equal.
    replace (1 + (k - 1))%nat with k by lia.
    unfold P.
    apply (nth_map_R _ (fun z => cabs z ^ 2 * dt ^ 2) FFT (0, 0)). lia.
Qed.

Lemma uniform_last (dt : R) :
  forall l : list R,
    uniform dt l -> (1 <= length l)%nat ->
    last l 0 = nth 0 l 0 + INR (length l - 1) * dt.
Proof.
  induction l as [|a t IH]; intros Hu Hl; cbn [length] in Hl; [lia|].
  destruct t as [|b t'].
  - cbn [last nth length Nat.sub INR]. lra.
  - destruct Hu as [Hab Ht].
    change (last (a :: b :: t') 0) with (last (b :: t') 0).
    rewrite (IH Ht) by (cbn [length]; lia).
    cbn [nth length].
    replace (S (length t') - 1)%nat with (length t') by lia.
    replace (S (S (length t')) - 1)%nat with (S (length t')) by lia.
    rewrite (S_INR (length t')). lra.
Qed.

(** For [N] uniformly spaced times the two end points are [N - 1] steps
    apart, and the code divides their distance by [N]: the step it uses is
    [(N - 1) / N] of the step of the sequence, in every bin. *)
Lemma power_spectrum_step_of_uniform_times (time pressure : list R) (dt : R) :
  let N := length pressure in
  let step := INR (N - 1) / INR N * (dt * 0.001) in
  Nat.Even N -> (0 < N)%nat -> length time = N -> uniform dt time ->
  exists FFT freq power,
    fft pressure = Ok FFT /\
    _power_spectrum_one_sided time pressure = Ok (freq, power) /\
    nth 0 power 0 = cabs (nth 0 FFT (0, 0)) ^ 2 * step ^ 2 /\
    (forall k, (1 <= k < N / 2)%nat ->
       nth k power 0 = 2 * (cabs (nth k FFT (0, 0)) ^ 2 * step ^ 2)) /\
    (dt <> 0 -> cabs (nth 0 FFT (0, 0)) <> 0 ->
     nth 0 power 0 <> cabs (nth 0 FFT (0, 0)) ^ 2 * (dt * 0.001) ^ 2) /\
    (dt <> 0 -> forall k, (1 <= k < N / 2)%nat ->
     cabs (nth k FFT (0, 0)) <> 0 ->
     nth k power 0 <> 2 * (cabs (nth k FFT (0, 0)) ^ 2 * (dt * 0.001) ^ 2)).
Proof.
  intros N step Heven Hpos Hlen Hu.
  assert (Htime : time <> []).
  { intros ->. cbn [length] in Hlen. lia. }
  destruct (one_sided_spectrum_of_code_step time pressure Heven Hpos Htime)
    as (d & FFT & freq & power & _ & Hd & Hfft & _ & Hrun & _ & _ & _ & _
        & H0 & Hk).
  fold N in Hd, H0, Hk.
  assert (HN : 0 < INR N) by (apply lt_0_INR; exact Hpos).
  assert (Hstep : d = step).
  { rewrite Hd, (uniform_last dt time Hu) by lia. rewrite Hlen.
    unfold step. field. lra. }
  rewrite Hstep in H0, Hk.
  assert (Hr : 0 <= INR (N - 1) / INR N < 1).
  { split.
    - apply Rle_mult_inv_pos; [apply pos_INR | exact HN].
    - apply Rmult_lt_reg_r with (INR N); [exact HN|].
      replace (INR (N - 1) / INR N * INR N) with (INR (N - 1))
        by (field; lra).
      rewrite Rmult_1_l. apply lt_INR. lia. }
  assert (Hless : forall c, c <> 0 -> dt <> 0 ->
                    c ^ 2 * step ^ 2 < c ^ 2 * (dt * 0.001) ^ 2).
  { intros c Hc Hdt. unfold step.
    set (r := INR (N - 1) / INR N) in *. set (e := dt * 0.001).
    assert (He : 0 < e ^ 2) by (unfold e; nra).
    assert (Hc2 : 0 < c ^ 2) by nra.
    assert (Hr2 : r ^ 2 < 1) by nra.
    replace (c ^ 2 * (r * e) ^ 2) with (c ^ 2 * e ^ 2 * r ^ 2) by ring.
    assert (Hce : 0 < c ^ 2 * e ^ 2) by (apply Rmult_lt_0_compat; assumption).
    nra. }
  exists FFT, freq, power.
  split; [exact Hfft|]. split; [exact Hrun|]. split; [exact H0|].
  split; [exact Hk|]. split.
  - intros Hdt Hc. rewrite H0.
    pose proof (Hless _ Hc Hdt). lra.
  - intros Hdt k Hrange Hc. rewrite (Hk k Hrange).
    pose proof (Hless _ Hc Hdt). lra.
Qed.

(** C8: the times 0, 1, 2, 3 ms have the step 1 ms, and the zero-frequency
    amplitude of the pressures 1, 2, 3, 4 is 10, so the claim gives the
    zero-frequency bin the power [100 * 0.001^2].  The code divides the
    distance of the end points, 3 ms, by the 4 samples and uses the step
    0.75 ms: the bin receives [100 * 0.00075^2]. *)
Theorem power_spectrum_time_step_example :
  uniform 1 [0; 1; 2; 3] /\
  exists FFT freq power,
    fft [1; 2; 3; 4] = Ok FFT /\
    cabs (nth 0 FFT (0, 0)) ^ 2 = 100 /\
    _power_spectrum_one_sided [0; 1; 2; 3] [1; 2; 3; 4] = Ok (freq, power) /\
    length power = 2%nat /\
    nth 0 power 0 = 100 * 0.00075 ^ 2 /\
    nth 0 power 0 <> 100 * (1 * 0.001) ^ 2.
Proof.
  assert (Hu : uniform 1 [0; 1; 2; 3]) by (cbn [uniform]; repeat split; lra).
  split; [exact Hu|].
  assert (He : Nat.Even (length [1; 2; 3; 4])) by (exists 2%nat; reflexivity).
  destruct (one_sided_spectrum_of_code_step [0; 1; 2; 3] [1; 2; 3; 4] He)
    as (d & FFT & freq & power & _ & Hd & Hfft & _ & Hrun & _ & Hlen & _ & _
        & H0 & _); [cbn [length]; lia | discriminate |].
  assert (Hamp : cabs (nth 0 FFT (0, 0)) ^ 2 = 100).
  { cbn [fft length seq map] in Hfft. injection Hfft as <-. cbn [nth].
    unfold cabs, dft_re, dft_im, pysum.
    cbn [fst snd length seq map nth INR fold_left]. unfold Rdiv.
    rewrite !Rmult_0_r, !Rmult_0_l, cos_0, sin_0.
    rewrite pow2_sqrt by lra. lra. }
  assert (Hstep : d = 0.00075).
  { rewrite Hd. cbn [last nth length INR]. lra. }
  exists FFT, freq, power.
  split; [exact Hfft|]. split; [exact Hamp|]. split; [exact Hrun|].
  split; [exact Hlen|].
  rewrite H0, Hamp, Hstep. split; lra.
Qed.

(** * Further properties of the code *)

(** ** Padding and the time step of the spectrum *)

(** X1: the padding operation returns exactly when the time sequence has
    at least two samples, and then both outputs are extended by
    [f_pad + r_pad] samples; on a shorter time sequence it raises an
    [IndexError]. *)
Theorem padding_defined (x_var y_var : list R) (f_pad r_pad : nat) :
  ((2 <= length x_var)%nat ->
   exists pad_x pad_y,
     _padding x_var y_var f_pad r_pad = Ok (pad_x, pad_y) /\
     length pad_x = (length x_var + f_pad + r_pad)%nat /\
     length pad_y = (length y_var + f_pad + r_pad)%nat) /\
  ((length x_var < 2)%nat ->
   _padding x_var y_var f_pad r_pad = Raise IndexError).
Proof.
  split.
  - intros Hn. rewrite (padding_time_axis x_var y_var f_pad r_pad Hn).
    eexists. eexists. split; [reflexivity|]. split.
    + rewrite !length_app, !length_linspace, length_map. lia.
    + unfold pad, zeros. rewrite !length_app, !repeat_length. lia.
  - intros Hn. unfold _padding, getitem.
    destruct x_var as [|a [|b t]]; [reflexivity | reflexivity |].
    cbn [length] in Hn. lia.
Qed.

Lemma padding_defined_witness :
  (2 <= length [0; 1])%nat /\
  exists pad_x pad_y, _padding [0; 1] [7; 9] 3 4 = Ok (pad_x, pad_y) /\
                      length pad_x = 9%nat.
Proof.
  assert (H : (2 <= length [0; 1])%nat) by (cbn [length]; lia).
  split; [exact H|].
  destruct (proj1 (padding_defined [0; 1] [7; 9] 3 4) H)
    as (pad_x & pad_y & Hrun & Hlen & _).
  exists pad_x, pad_y. split; [exact Hrun | exact Hlen].
Defined.

Lemma last_app_cons (l : list R) (a : R) (t : list R) :
  last (l ++ a :: t) 0 = last (a :: t) 0.
Proof.
  induction l as [|x l IH]; [reflexivity|].
  cbn [app]. destruct (l ++ a :: t) eqn:E.
  - destruct l; discriminate.
  - exact IH.
Qed.

Lemma linspace_last (start stop : R) (num : nat) :
  (2 <= num)%nat -> last (linspace start stop num) 0 = stop.
Proof.
  intros H. destruct num as [|[|k]]; [lia | lia |].
  unfold linspace. apply last_last.
Qed.

(** The ends of the padded time axis of a uniformly spaced input. *)
Lemma padded_time_ends
  (x_var y_var : list R) (f_pad r_pad : nat) (dt : R) :
  (2 <= length x_var)%nat -> uniform dt x_var ->
  (1 <= f_pad)%nat -> (2 <= r_pad)%nat ->
  exists pad_x,
    _padding x_var y_var f_pad r_pad = Ok (pad_x, pad y_var f_pad r_pad) /\
    length pad_x = (length x_var + f_pad + r_pad)%nat /\
    nth 0 pad_x 0 = nth 0 x_var 0 /\
    last pad_x 0 = nth 0 x_var 0 + INR (length pad_x - 1) * dt.
Proof.
  intros Hn Hu Hf Hr.
  pose proof (padding_time_axis x_var y_var f_pad r_pad Hn) as Hrun.
  cbv zeta in Hrun.
  rewrite (uniform_nth dt x_var 0 Hu) in Hrun by lia.
  rewrite (uniform_last dt x_var Hu) in Hrun by lia.
  set (x0 := nth 0 x_var 0) in *. set (n := length x_var) in *.
  set (px := linspace x0 (INR f_pad * dt) f_pad
             ++ map (fun x => x + INR f_pad * dt) x_var
             ++ linspace (x0 + INR (n - 1) * dt + INR f_pad * dt)
                  (x0 + INR (n - 1) * dt + INR r_pad * dt + INR f_pad * dt)
                  r_pad) in *.
  assert (Hlen : length px = (n + f_pad + r_pad)%nat).
  { unfold px. rewrite !length_app, !length_linspace, length_map.
    fold n. lia. }
  assert (Hfirst : nth 0 px 0 = x0).
  { unfold px. rewrite app_nth1 by (rewrite length_linspace; lia).
    apply linspace_first. exact Hf. }
  assert (Hlast : last px 0 = x0 + INR (length px - 1) * dt).
  { rewrite Hlen. unfold px.
    destruct (linspace (x0 + INR (n - 1) * dt + INR f_pad * dt)
                (x0 + INR (n - 1) * dt + INR r_pad * dt + INR f_pad * dt)
                r_pad) as [|a t] eqn:E.
    { apply (f_equal (@length R)) in E. rewrite length_linspace in E.
      cbn [length] in E. lia. }
    rewrite app_assoc, last_app_cons, <- E, linspace_last by exact Hr.
    replace (n + f_pad + r_pad - 1)%nat with ((n - 1) + f_pad + r_pad)%nat
      by (unfold n; lia).
    rewrite !plus_INR. lra. }
  exists px. split; [exact Hrun|]. split; [exact Hlen|].
  split; [exact Hfirst | exact Hlast].
Qed.

(** X2: padding followed by the time step of the spectrum.  For a time
    sequence uniformly spaced by [dt] (milliseconds), padded by
    [f_pad >= 1] and [r_pad >= 2] samples to [N] samples, the padded times
    run from the first input time over [(N - 1) dt], so the time step the
    spectrum uses is [(N - 1) dt / N] (in seconds), not [dt]. *)
Theorem padded_time_step
  (x_var y_var : list R) (f_pad r_pad : nat) (dt : R) :
  (2 <= length x_var)%nat -> uniform dt x_var ->
  (1 <= f_pad)%nat -> (2 <= r_pad)%nat ->
  exists pad_x pad_y,
    _padding x_var y_var f_pad r_pad = Ok (pad_x, pad_y) /\
    nth 0 pad_x 0 = nth 0 x_var 0 /\
    last pad_x 0 = nth 0 x_var 0 + INR (length pad_x - 1) * dt /\
    time_step pad_x (length pad_x)
    = Ok (INR (length pad_x - 1) * dt / INR (length pad_x) * 0.001).
Proof.
  intros Hn Hu Hf Hr.
  destruct (padded_time_ends x_var y_var f_pad r_pad dt Hn Hu Hf Hr)
    as (px & Hrun & Hlen & Hfirst & Hlast).
  exists px, (pad y_var f_pad r_pad).
  split; [exact Hrun|]. split; [exact Hfirst|]. split; [exact Hlast|].
  unfold time_step.
  assert (Hgl : getlast px = Ok (last px 0)).
  { destruct px; [cbn [length] in Hlen; lia | reflexivity]. }
  rewrite Hgl. cbn [bind].
  rewrite (getitem_nth px 0) by lia. cbn [bind].
  rewrite Hlast, Hfirst. do 3 f_equal. lra.
Qed.

Lemma padded_time_step_witness :
  uniform 1 [0; 1] /\
  exists pad_x pad_y,
    _padding [0; 1] [7; 9] 2 2 = Ok (pad_x, pad_y) /\
    time_step pad_x (length pad_x)
    = Ok (INR (length pad_x - 1) * 1 / INR (length pad_x) * 0.001).
Proof.
  assert (Hu : uniform 1 [0; 1]) by (cbn [uniform]; split; [lra | exact I]).
  split; [exact Hu|].
  destruct (padded_time_step [0; 1] [7; 9] 2 2 1)
    as (pad_x & pad_y & Hrun & _ & _ & Hdt);
    [cbn [length]; lia | exact Hu | lia | lia |].
  exists pad_x, pad_y. split; [exact Hrun | exact Hdt].
Defined.

(** ** The Hann taper *)

Lemma nth_hanning (M k : nat) :
  (2 <= M)%nat -> (k < M)%nat ->
  nth k (hanning M) 0 = 0.5 - 0.5 * cos (2 * PI * INR k / INR (M - 1)).
Proof.
  intros HM Hk. destruct M as [|[|M']]; [lia | lia |].
  unfold hanning.
  rewrite (nth_map_R _ (fun n => 0.5 - 0.5 * cos (2 * PI * INR n / INR (S (S M') - 1)))
             _ 0%nat) by (rewrite length_seq; exact Hk).
  rewrite seq_nth by exact Hk. reflexivity.
Qed.

Lemma hanning_range (M k : nat) : 0 <= nth k (hanning M) 0 <= 1.
Proof.
  destruct (Nat.lt_ge_cases k M) as [Hk|Hk].
  - destruct (Nat.lt_ge_cases M 2) as [HM|HM].
    + destruct M as [|[|M']]; [lia | | lia].
      destruct k as [|k]; [cbn [hanning nth]; lra | lia].
    + rewrite nth_hanning by assumption.
      pose proof (COS_bound (2 * PI * INR k / INR (M - 1))) as [Hlo Hhi].
      lra.
  - rewrite nth_overflow by (rewrite length_hanning; exact Hk). lra.
Qed.

(** Every sample of the windowed signal is the input sample times the
    taper factor of the front region and that of the rear region. *)
Lemma window_factors (dataset : list R) (len_window : nat) :
  (1 <= len_window <= length dataset)%nat ->
  let N := length dataset in
  let win := hanning (len_window * 2) in
  exists out,
    _window dataset len_window = Ok out /\
    length out = N /\
    forall i, (i < N)%nat ->
      nth i out 0
      = nth i dataset 0
        * (if (i <? len_window)%nat then nth i win 0 else 1)
        * (if (N - len_window <=? i)%nat
           then nth (len_window + (i - (N - len_window))) win 0 else 1).
Proof.
  intros [H1 HN] N win.
  pose proof (length_hanning (len_window * 2)) as Hw.
  destruct (imul_slice_inside dataset 0 len_window
              (slice (hanning (len_window * 2)) 0 len_window))
    as (w1 & E1 & L1 & _ & Hin1 & Hout1); [lia | rewrite length_slice; lia |].
  destruct (imul_slice_inside w1 (N - len_window) N
              (slice (hanning (len_window * 2)) len_window (len_window * 2)))
    as (out & E2 & L2 & Hlow2 & Hin2 & _);
    [unfold N in *; lia | rewrite length_slice; lia |].
  exists out. split; [|split; [unfold N; congruence|]].
  - unfold _window. rewrite E1. cbn [bind]. rewrite L1, Hw.
    replace (neg_start (length dataset) len_window) with (N - len_window)%nat
      by (unfold N; destruct len_window; [lia | reflexivity]).
    fold N. rewrite E2. reflexivity.
  - intros i Hi. fold win in Hin1, Hin2.
    assert (Hw1 : nth i w1 0
                  = nth i dataset 0
                    * (if (i <? len_window)%nat then nth i win 0 else 1)).
    { destruct (i <? len_window)%nat eqn:E.
      - apply Nat.ltb_lt in E. rewrite Hin1 by lia.
        rewrite Nat.sub_0_r, nth_slice by lia. reflexivity.
      - apply Nat.ltb_ge in E. rewrite Hout1 by lia. lra. }
    destruct (N - len_window <=? i)%nat eqn:E.
    + apply Nat.leb_le in E. rewrite Hin2 by lia.
      rewrite nth_slice by lia. rewrite Hw1. reflexivity.
    + apply Nat.leb_gt in E. rewrite Hlow2 by lia. rewrite Hw1. lra.
Qed.

(** X3: whenever the window fits ([1 <= len_window <= N]) the first and
    the last sample of the windowed signal are zero, whatever the input:
    the Hann window vanishes at both ends. *)
Theorem window_ends_are_zero (dataset : list R) (len_window : nat) :
  (1 <= len_window <= length dataset)%nat ->
  exists out,
    _window dataset len_window = Ok out /\
    nth 0 out 0 = 0 /\
    last out 0 = 0.
Proof.
  intros H. destruct (window_factors dataset len_window H)
    as (out & Hrun & Hlen & Hnth).
  exists out. split; [exact Hrun|].
  assert (HM : (2 <= len_window * 2)%nat) by lia.
  split.
  - rewrite Hnth by lia.
    rewrite (proj2 (Nat.ltb_lt 0 len_window)) by lia.
    rewrite (nth_hanning (len_window * 2) 0) by lia. cbn [INR].
    replace (2 * PI * 0 / INR (len_window * 2 - 1)) with 0
      by (unfold Rdiv; ring).
    rewrite cos_0. lra.
  - rewrite <- nth_pred_last, Hlen.
    rewrite Hnth by lia.
    rewrite (proj2 (Nat.leb_le (length dataset - len_window)
                      (Nat.pred (length dataset)))) by lia.
    replace (len_window + (Nat.pred (length dataset)
                           - (length dataset - len_window)))%nat
      with (len_window * 2 - 1)%nat by lia.
    rewrite (nth_hanning (len_window * 2) (len_window * 2 - 1)) by lia.
    replace (2 * PI * INR (len_window * 2 - 1) / INR (len_window * 2 - 1))
      with (2 * PI).
    + rewrite cos_2PI. lra.
    + field. apply not_0_INR. lia.
Qed.

Lemma window_ends_are_zero_witness :
  (1 <= 2 <= length [5; 6; 7])%nat /\
  exists out, _window [5; 6; 7] 2 = Ok out /\ last out 0 = 0.
Proof.
  assert (H : (1 <= 2 <= length [5; 6; 7])%nat) by (cbn [length]; lia).
  split; [exact H|].
  destruct (window_ends_are_zero [5; 6; 7] 2 H) as (out & Hrun & _ & Hl).
  exists out. split; [exact Hrun | exact Hl].
Defined.

(** X4: whenever the window fits, also when its two tapered regions
    overlap, windowing never amplifies a sample:
    [|out[i]| <= |dataset[i]|] for every [i]. *)
Theorem window_never_amplifies (dataset : list R) (len_window : nat) :
  (1 <= len_window <= length dataset)%nat ->
  exists out,
    _window dataset len_window = Ok out /\
    length out = length dataset /\
    forall i, Rabs (nth i out 0) <= Rabs (nth i dataset 0).
Proof.
  intros H. destruct (window_factors dataset len_window H)
    as (out & Hrun & Hlen & Hnth).
  exists out. split; [exact Hrun|]. split; [exact Hlen|].
  intros i. destruct (Nat.lt_ge_cases i (length dataset)) as [Hi|Hi].
  - rewrite (Hnth i Hi).
    set (a := if (i <? len_window)%nat
              then nth i (hanning (len_window * 2)) 0 else 1).
    set (b := if (length dataset - len_window <=? i)%nat
              then nth (len_window + (i - (length dataset - len_window)))
                     (hanning (len_window * 2)) 0
              else 1).
    assert (Ha : 0 <= a <= 1).
    { unfold a. destruct (i <? len_window)%nat;
        [apply hanning_range | lra]. }
    assert (Hb : 0 <= b <= 1).
    { unfold b. destruct (length dataset - len_window <=? i)%nat;
        [apply hanning_range | lra]. }
    destruct Ha as [Ha0 Ha1]. destruct Hb as [Hb0 Hb1].
    rewrite !Rabs_mult, (Rabs_pos_eq a Ha0), (Rabs_pos_eq b Hb0).
    pose proof (Rabs_pos (nth i dataset 0)) as Hd.
    assert (Hab : a * b <= 1) by nra.
    assert (Hab0 : 0 <= a * b) by nra.
    rewrite Rmult_assoc. nra.
  - rewrite !nth_overflow by lia. lra.
Qed.

Lemma window_never_amplifies_witness :
  (1 <= 2 <= length [5; 6; 7])%nat /\
  exists out, _window [5; 6; 7] 2 = Ok out /\
              Rabs (nth 1 out 0) <= Rabs (nth 1 [5; 6; 7] 0).
Proof.
  assert (H : (1 <= 2 <= length [5; 6; 7])%nat) by (cbn [length]; lia).
  split; [exact H|].
  destruct (window_never_amplifies [5; 6; 7] 2 H) as (out & Hrun & _ & Hl).
  exists out. split; [exact Hrun | exact (Hl 1%nat)].
Defined.

(** X5: a window half-length of zero is not "no windowing": the slice
    [windowed_data[-0:]] is the whole array, and multiplying it by the
    empty window raises a [ValueError] for every non-empty signal; only
    the empty signal is returned as it is. *)
Theorem window_without_taper_raises (dataset : list R) :
  ((1 <= length dataset)%nat -> _window dataset 0 = Raise ValueError) /\
  _window [] 0 = Ok [].
Proof.
  split.
  - intros H. apply window_zero_raises. exact H.
  - reflexivity.
Qed.

Lemma window_without_taper_raises_witness :
  (1 <= length [5; 6; 7])%nat /\ _window [5; 6; 7] 0 = Raise ValueError.
Proof.
  assert (H : (1 <= length [5; 6; 7])%nat) by (cbn [length]; lia).
  split; [exact H | exact (proj1 (window_without_taper_raises [5; 6; 7]) H)].
Defined.

(** ** More on the equivalent-loudness transform *)

Lemma for_each_app (body : nat -> list R -> result (list R)) :
  forall (r1 r2 : list nat) (s : list R),
    for_each body (r1 ++ r2) s
    = (s' <- for_each body r1 s ;; for_each body r2 s').
Proof.
  induction r1 as [|i r1 IH]; intros r2 s; [reflexivity|].
  cbn [app for_each]. destruct (body i s) as [s1|e]; [|reflexivity].
  cbn [bind]. apply IH.
Qed.

(** X6: when the level array is shorter than the band count the transform
    raises an [IndexError]; no partial result is returned. *)
Theorem equivalent_loudness_short_input (L : list R) (n : nat) :
  (length L < n)%nat -> _equivalent_loudness L n = Raise IndexError.
Proof.
  intros Hn. unfold _equivalent_loudness, _equivalent_loudness_with.
  assert (E : seq 0 n
              = seq 0 (length L) ++ seq (0 + length L) (S (n - length L - 1))).
  { rewrite <- seq_app. f_equal. lia. }
  rewrite E, for_each_app.
  destruct (for_each_tiers L (length L) 0 (zeros n)) as (s' & Hrun & _).
  { unfold zeros. rewrite repeat_length. lia. }
  { lia. }
  rewrite Hrun. cbn [bind Nat.add seq for_each].
  rewrite loop_body_tier. unfold getitem.
  rewrite (proj2 (nth_error_None L (length L))) by lia.
  reflexivity.
Qed.

Lemma equivalent_loudness_short_input_witness :
  (length [60; 61] < 42)%nat /\
  _equivalent_loudness [60; 61] 42 = Raise IndexError.
Proof.
  assert (H : (length [60; 61] < 42)%nat) by (cbn [length]; lia).
  split; [exact H | exact (equivalent_loudness_short_input [60; 61] 42 H)].
Defined.

Lemma log10_400_nonzero : log10 400 <> 0.
Proof. pose proof (log10_pos 400 ltac:(lra)). lra. Qed.

(** At the center 400 Hz with offset 0 the three branches coincide. *)
Lemma loud_limits_400_at_400 (lo hi l : R) :
  _loud_limits_400 400 lo hi l 0 = Ok (l - 8).
Proof.
  pose proof log10_400_nonzero as Hne.
  unfold _loud_limits_400.
  destruct (Rle_lt_dec l hi) as [Hhi|Hhi].
  - rewrite (flt_false hi l Hhi), (fle_true l hi Hhi).
    destruct (Rle_lt_dec l lo) as [Hlo|Hlo].
    + rewrite (fle_true l lo Hlo), (flt_false lo l Hlo). cbn [andb].
      f_equal. real_eq.
    + rewrite (fle_false l lo Hlo), (flt_true lo l Hlo). cbn [andb].
      f_equal. real_eq.
  - rewrite (flt_true hi l Hhi). f_equal. real_eq.
Qed.

(** X7: the band at 400 Hz (index 26) goes through the three-way
    sub-rule, but there the rule is the constant shift of the bands
    27..31: for every level, [L_eq[i] = L[i] - 8] for [26 <= i <= 31]. *)
Theorem equivalent_loudness_400_to_1250 (L : list R) (n i : nat) :
  (n <= length L)%nat -> (i < n)%nat -> (26 <= i <= 31)%nat ->
  exists L_eq,
    _equivalent_loudness L n = Ok L_eq /\
    nth i L_eq 0 = nth i L 0 - 8.
Proof.
  intros Hn Hi Hband.
  unfold _equivalent_loudness, _equivalent_loudness_with.
  destruct (for_each_tiers L n 0 (zeros n)) as (s' & Hrun & _ & Hin & _).
  { unfold zeros. rewrite repeat_length. lia. }
  { lia. }
  exists s'. split; [exact Hrun|].
  specialize (Hin i ltac:(lia)). unfold tier_rule in Hin. revert Hin.
  destruct (Nat.eq_dec i 26) as [->|Hne].
  - decide_tests. cbn [stevens_limits nth BAND_CENTERS].
    integral_literals. rewrite loud_limits_400_at_400.
    intros [= <-]. reflexivity.
  - decide_tests. intros [= <-]. lra.
Qed.

Lemma equivalent_loudness_400_to_1250_witness :
  exists L_eq,
    _equivalent_loudness (zeros 42) 42 = Ok L_eq /\
    nth 26 L_eq 0 = nth 26 (zeros 42) 0 - 8.
Proof.
  apply (equivalent_loudness_400_to_1250 (zeros 42) 42 26).
  - apply Nat.eq_le_incl. reflexivity.
  - lia.
  - lia.
Defined.

Lemma INR_lit (k : nat) : INR k = IZR (Z.of_nat k).
Proof. apply INR_IZR_INZ. Qed.

(** X8: from 500 Hz up (band indices 27 and above) the equivalent
    loudness never exceeds the band's sound pressure level, and equals it
    exactly on the bands 35..39. *)
Theorem equivalent_loudness_upper_bands (L : list R) (n i : nat) :
  (n <= length L)%nat -> (27 <= i < n)%nat ->
  exists L_eq,
    _equivalent_loudness L n = Ok L_eq /\
    nth i L_eq 0 <= nth i L 0 /\
    (nth i L_eq 0 = nth i L 0 <-> (35 <= i <= 39)%nat).
Proof.
  intros Hn Hi.
  unfold _equivalent_loudness, _equivalent_loudness_with.
  destruct (for_each_tiers L n 0 (zeros n)) as (s' & Hrun & _ & Hin & _).
  { unfold zeros. rewrite repeat_length. lia. }
  { lia. }
  exists s'. split; [exact Hrun|].
  specialize (Hin i ltac:(lia)). unfold tier_rule in Hin. revert Hin.
  destruct (band_ranges i) as
    [H|[H|[H|[H|[H|[H|[H|[H|[H|[H|[H|H]]]]]]]]]]]; try lia.
  - decide_tests. intros [= <-]. split; [lra|].
    split; intros Hx; first [lia | lra | exfalso; lia | exfalso; lra].
  - decide_tests. intros [= <-].
    assert (Hi35 : INR i <= 34).
    { replace 34 with (INR 34) by (rewrite INR_lit; reflexivity).
      apply le_INR. lia. }
    split; [lra|].
    split; intros Hx; first [lia | lra | exfalso; lia | exfalso; lra].
  - decide_tests. intros [= <-]. split; [lra|].
    split; intros Hx; first [lia | lra | exfalso; lia | exfalso; lra].
  - decide_tests. intros [= <-].
    assert (Hi40 : 40 <= INR i).
    { replace 40 with (INR 40) by (rewrite INR_lit; reflexivity).
      apply le_INR. lia. }
    split; [lra|].
    split; intros Hx; first [lia | lra | exfalso; lia | exfalso; lra].
Qed.

Lemma equivalent_loudness_upper_bands_witness :
  exists L_eq,
    _equivalent_loudness (zeros 42) 42 = Ok L_eq /\
    nth 41 L_eq 0 <= nth 41 (zeros 42) 0.
Proof.
  destruct (equivalent_loudness_upper_bands (zeros 42) 42 41)
    as (L_eq & Hrun & Hle & _).
  - apply Nat.eq_le_incl. reflexivity.
  - lia.
  - exists L_eq. split; [exact Hrun | exact Hle].
Defined.

(** ** More on the loudness summation *)

Lemma nondecreasing_hd_last (l : list R) :
  nondecreasing l -> l <> [] -> hd 0 l <= last l 0.
Proof.
  induction l as [|a t IH]; intros Hn Hne; [congruence|].
  destruct t as [|b t']; [cbn [hd last]; lra|].
  destruct Hn as [Hab Ht].
  change (last (a :: b :: t') 0) with (last (b :: t') 0).
  specialize (IH Ht ltac:(discriminate)). cbn [hd] in *. lra.
Qed.

(** Inside the table the interpolated value lies between the first and
    the last ordinate of a non-decreasing table. *)
Lemma interp_seg_bounds (x : R) :
  forall xp fp : list R,
    increasing xp -> nondecreasing fp -> length xp = length fp ->
    xp <> [] -> hd 0 xp <= x ->
    hd 0 fp <= interp_seg x xp fp <= last fp 0.
Proof.
  induction xp as [|x0 xp' IH]; intros fp Hinc Hfp Hlen Hne Hx;
    [congruence|].
  destruct fp as [|f0 fp']; [discriminate|].
  pose proof (nondecreasing_hd_last (f0 :: fp') Hfp ltac:(discriminate)) as Hhl.
  cbn [interp_seg].
  destruct xp' as [|x1 xp'']; [destruct fp'; [cbn [hd last]; lra | discriminate]|].
  destruct fp' as [|f1 fp'']; [discriminate|].
  destruct Hinc as [H01 Hinc']. destruct Hfp as [Hf01 Hfp'].
  cbn [hd] in Hx, Hhl |- *.
  change (last (f0 :: f1 :: fp'') 0) with (last (f1 :: fp'') 0) in *.
  pose proof (nondecreasing_hd_last (f1 :: fp'') Hfp' ltac:(discriminate)) as Hhl1.
  cbn [hd] in Hhl1.
  destruct (Rlt_dec x x1) as [Hlt|Hge].
  - destruct (Req_dec_T x x0) as [_|Hxne]; [lra|].
    set (t := (x - x0) / (x1 - x0)).
    assert (Ht : 0 <= t <= 1).
    { unfold t. split.
      - apply Rle_mult_inv_pos; lra.
      - apply (Rmult_le_reg_r (x1 - x0)); [lra|].
        unfold Rdiv. rewrite Rmult_assoc, Rinv_l by lra. lra. }
    replace ((f1 - f0) / (x1 - x0) * (x - x0) + f0)
      with (f0 * (1 - t) + f1 * t) by (unfold t; field; lra).
    split; nra.
  - specialize (IH (f1 :: fp'') Hinc' Hfp').
    cbn [length hd] in IH, Hlen.
    destruct IH as [IH1 IH2]; [lia | discriminate | lra |].
    split; lra.
Qed.

(** The interpolation step is monotone on a non-decreasing table. *)
Lemma interp_seg_mono (x y : R) :
  forall xp fp : list R,
    increasing xp -> nondecreasing fp -> length xp = length fp ->
    xp <> [] -> hd 0 xp <= x -> x <= y ->
    interp_seg x xp fp <= interp_seg y xp fp.
Proof.
  induction xp as [|x0 xp' IH]; intros fp Hinc Hfp Hlen Hne Hx Hxy;
    [congruence|].
  destruct fp as [|f0 fp']; [discriminate|].
  cbn [interp_seg].
  destruct xp' as [|x1 xp'']; [lra|].
  destruct fp' as [|f1 fp'']; [discriminate|].
  pose proof Hinc as [H01 Hinc']. pose proof Hfp as [Hf01 Hfp'].
  cbn [hd] in Hx.
  assert (Hseg : forall z, x0 <= z -> z < x1 ->
                 f0 <= (f1 - f0) / (x1 - x0) * (z - x0) + f0 <= f1).
  { intros z Hz0 Hz1.
    set (t := (z - x0) / (x1 - x0)).
    assert (Ht : 0 <= t <= 1).
    { unfold t. split.
      - apply Rle_mult_inv_pos; lra.
      - apply (Rmult_le_reg_r (x1 - x0)); [lra|].
        unfold Rdiv. rewrite Rmult_assoc, Rinv_l by lra. lra. }
    replace ((f1 - f0) / (x1 - x0) * (z - x0) + f0)
      with (f0 * (1 - t) + f1 * t) by (unfold t; field; lra).
    split; nra. }
  destruct (Rlt_dec x x1) as [Hlt|Hge]; destruct (Rlt_dec y x1) as [Hlty|Hgey].
  - assert (Hslope : 0 <= (f1 - f0) / (x1 - x0)).
    { apply Rle_mult_inv_pos; lra. }
    destruct (Req_dec_T x x0) as [Ex|Nx]; destruct (Req_dec_T y x0) as [Ey|Ny];
      try lra.
    + pose proof (Hseg y ltac:(lra) Hlty). lra.
    + nra.
  - assert (Hy : f1 <= interp_seg y (x1 :: xp'') (f1 :: fp'')).
    { pose proof (interp_seg_bounds y (x1 :: xp'') (f1 :: fp'') Hinc' Hfp').
      cbn [length hd] in *. apply H; [lia | discriminate | lra]. }
    destruct (Req_dec_T x x0) as [Ex|Nx]; [lra|].
    pose proof (Hseg x ltac:(lra) Hlt). lra.
  - lra.
  - apply IH; try assumption.
    + cbn [length] in *. lia.
    + discriminate.
    + cbn [hd]. lra.
Qed.

Lemma interp1_mono (xp fp : list R) (l r x y : R) :
  increasing xp -> nondecreasing fp -> length xp = length fp -> xp <> [] ->
  l <= hd 0 fp -> last fp 0 <= r -> x <= y ->
  interp1 x xp fp l r <= interp1 y xp fp l r.
Proof.
  intros Hinc Hfp Hlen Hne Hl Hr Hxy.
  assert (Hfne : fp <> []) by (destruct fp, xp; [congruence | discriminate | congruence | discriminate]).
  pose proof (nondecreasing_hd_last fp Hfp Hfne) as Hhl.
  unfold interp1.
  destruct (Rlt_dec x (hd 0 xp)) as [Hx|Hx];
    destruct (Rlt_dec y (hd 0 xp)) as [Hy|Hy]; try lra.
  - destruct (Rlt_dec (last xp 0) y); [lra|].
    pose proof (interp_seg_bounds y xp fp Hinc Hfp Hlen Hne ltac:(lra)). lra.
  - destruct (Rlt_dec (last xp 0) x) as [Hx1|Hx1];
      destruct (Rlt_dec (last xp 0) y) as [Hy1|Hy1]; try lra.
    + pose proof (interp_seg_bounds x xp fp Hinc Hfp Hlen Hne ltac:(lra)). lra.
    + apply interp_seg_mono; try assumption; lra.
Qed.

(** X9: the sone value is monotone in the equivalent loudness: a band
    with a higher equivalent loudness never receives fewer sones. *)
Theorem sones_monotone (L_eq : list R) (i j : nat) :
  (i < length L_eq)%nat -> (j < length L_eq)%nat ->
  nth i L_eq 0 <= nth j L_eq 0 ->
  exists total sones,
    _calc_total_loudness L_eq = Ok (total, sones) /\
    nth i sones 0 <= nth j sones 0.
Proof.
  intros Hi Hj Hle.
  destruct (calc_total_loudness_unfold L_eq) as (smax & _ & Hrun).
  { intros ->. cbn [length] in Hi. lia. }
  eexists. eexists. split; [exact Hrun|].
  rewrite !nth_interp by assumption.
  apply interp1_mono.
  - exact L_EQ_RANGE_increasing.
  - exact (increasing_nondecreasing _ SONES_L_increasing).
  - reflexivity.
  - discriminate.
  - change (hd 0 SONES_L) with 0.078. lra.
  - lra.
  - exact Hle.
Qed.

Lemma sones_monotone_witness :
  exists total sones,
    _calc_total_loudness [30; 50] = Ok (total, sones) /\
    nth 0 sones 0 <= nth 1 sones 0.
Proof.
  apply (sones_monotone [30; 50] 0 1).
  - cbn [length]. lia.
  - cbn [length]. lia.
  - cbn [nth]. lra.
Defined.

Lemma interp_seg_le (x M : R) :
  forall xp fp : list R,
    increasing xp -> all (fun v => v <= M) fp -> 0 <= M -> hd 0 xp <= x ->
    interp_seg x xp fp <= M.
Proof.
  induction xp as [|x0 xp' IH]; intros fp Hinc Hfp HM Hx; cbn [interp_seg].
  - exact HM.
  - destruct fp as [|f0 fp']; [exact HM|].
    destruct Hfp as [Hf0 Hfp'].
    destruct xp' as [|x1 xp'']; [exact Hf0|].
    destruct fp' as [|f1 fp'']; [exact Hf0|].
    destruct Hinc as [H01 Hinc']. cbn [hd] in Hx.
    destruct (Rlt_dec x x1) as [Hlt|Hge].
    + destruct (Req_dec_T x x0) as [_|Hne]; [exact Hf0|].
      destruct Hfp' as [Hf1 _].
      set (t := (x - x0) / (x1 - x0)).
      assert (Ht : 0 <= t <= 1).
      { unfold t. split.
        - apply Rle_mult_inv_pos; lra.
        - apply (Rmult_le_reg_r (x1 - x0)); [lra|].
          unfold Rdiv. rewrite Rmult_assoc, Rinv_l by lra. lra. }
      replace ((f1 - f0) / (x1 - x0) * (x - x0) + f0)
        with (f0 * (1 - t) + f1 * t) by (unfold t; field; lra).
      nra.
    + apply IH; [exact Hinc' | exact Hfp' | exact HM | cbn [hd]; lra].
Qed.

Lemma interp1_le (x M : R) (xp fp : list R) (l r : R) :
  increasing xp -> all (fun v => v <= M) fp -> 0 <= M -> l <= M -> r <= M ->
  interp1 x xp fp l r <= M.
Proof.
  intros Hinc Hfp HM Hl Hr. unfold interp1.
  destruct (Rlt_dec x (hd 0 xp)) as [|Hlo]; [exact Hl|].
  destruct (Rlt_dec (last xp 0) x); [exact Hr|].
  apply interp_seg_le; [assumption | assumption | assumption | lra].
Qed.

Lemma SONES_L_le_4096 : all (fun v => v <= 4096) SONES_L.
Proof. unfold SONES_L. simpl. repeat split; lra. Qed.

Lemma SUMMATION_FACTORS_range :
  all (fun v => 0 <= v) SUMMATION_FACTORS /\
  all (fun v => v <= 0.322) SUMMATION_FACTORS.
Proof. unfold SUMMATION_FACTORS. simpl. repeat split; lra. Qed.

Lemma fold_plus_shift (t : list R) :
  forall a, fold_left Rplus t a = a + fold_left Rplus t 0.
Proof.
  induction t as [|x t IH]; intros a; cbn [fold_left]; [lra|].
  rewrite (IH (a + x)), (IH (0 + x)). lra.
Qed.

Lemma fold_max_ge_init (t : list R) :
  forall a, a <= fold_left Rmax t a.
Proof.
  induction t as [|x t IH]; intros a; cbn [fold_left]; [lra|].
  apply Rle_trans with (Rmax a x); [apply Rmax_l | apply IH].
Qed.

Lemma fold_max_ge_elem (t : list R) :
  forall a x, In x t -> x <= fold_left Rmax t a.
Proof.
  induction t as [|y t IH]; intros a x Hin; [contradiction|].
  cbn [fold_left]. destruct Hin as [->|Hin].
  - apply Rle_trans with (Rmax a x); [apply Rmax_r | apply fold_max_ge_init].
  - apply IH. exact Hin.
Qed.

Lemma fold_max_le_sum (t : list R) :
  forall a, all (fun v => 0 <= v) t -> 0 <= a ->
            fold_left Rmax t a <= fold_left Rplus t a.
Proof.
  induction t as [|x t IH]; intros a Ht Ha; cbn [fold_left]; [lra|].
  destruct Ht as [Hx Ht].
  assert (Hm : 0 <= Rmax a x).
  { apply Rle_trans with a; [exact Ha | apply Rmax_l]. }
  apply Rle_trans with (fold_left Rplus t (Rmax a x)); [apply IH; assumption|].
  rewrite (fold_plus_shift t (Rmax a x)), (fold_plus_shift t (a + x)).
  assert (Rmax a x <= a + x) by (apply Rmax_lub; lra). lra.
Qed.

(** X10: for at least one band the summation returns, every sone value
    lies in [0, 4096], and the total loudness lies between the largest
    sone value and the plain sum of the sones: no band exceeds the total,
    and the damped remainder never adds more than the other bands hold. *)
Theorem total_loudness_bounds (L_eq : list R) :
  L_eq <> [] ->
  exists total sones,
    _calc_total_loudness L_eq = Ok (total, sones) /\
    (forall i, 0 <= nth i sones 0 <= 4096) /\
    (forall i, nth i sones 0 <= total) /\
    total <= pysum sones.
Proof.
  intros Hne.
  destruct (calc_total_loudness_unfold L_eq Hne) as (smax & Hmax & Hrun).
  cbv zeta in Hmax, Hrun.
  set (sones := interp L_eq L_EQ_RANGE SONES_L 0.0 (last SONES_L 0)) in *.
  set (F := interp1 smax SONES_F SUMMATION_FACTORS 0.0
              (last SUMMATION_FACTORS 0)) in *.
  exists (smax + F * (pysum sones - smax)), sones.
  split; [exact Hrun|].
  assert (Hpos : all (fun v => 0 <= v) sones).
  { unfold sones. apply all_map_interp1.
    - exact L_EQ_RANGE_increasing.
    - exact SONES_L_nonneg.
    - lra.
    - rewrite (proj2 SONES_L_ends). lra. }
  assert (Hrange : forall i, 0 <= nth i sones 0 <= 4096).
  { intros i. destruct (Nat.lt_ge_cases i (length sones)) as [Hi|Hi].
    - split.
      + apply (all_In _ _ Hpos). apply nth_In. exact Hi.
      + unfold sones in Hi |- *. unfold interp in Hi.
        rewrite length_map in Hi. rewrite nth_interp by exact Hi.
        apply interp1_le.
        * exact L_EQ_RANGE_increasing.
        * exact SONES_L_le_4096.
        * lra.
        * lra.
        * rewrite (proj2 SONES_L_ends). lra.
    - rewrite nth_overflow by exact Hi. lra. }
  assert (HF : 0 <= F <= 1).
  { unfold F. split.
    - apply interp1_nonneg.
      + exact SONES_F_increasing.
      + exact (proj1 SUMMATION_FACTORS_range).
      + lra.
      + rewrite (proj2 SUMMATION_FACTORS_ends). lra.
    - apply Rle_trans with 0.322; [|lra]. apply interp1_le.
      + exact SONES_F_increasing.
      + exact (proj2 SUMMATION_FACTORS_range).
      + lra.
      + lra.
      + rewrite (proj2 SUMMATION_FACTORS_ends). lra. }
  destruct sones as [|v t] eqn:Es; [discriminate|].
  cbn [amax] in Hmax. injection Hmax as Hmax.
  destruct Hpos as [Hv Ht].
  assert (Hsum : smax <= pysum (v :: t)).
  { unfold pysum. cbn [fold_left]. rewrite <- Hmax.
    replace (0 + v) with v by lra. apply fold_max_le_sum; assumption. }
  assert (Hmax0 : 0 <= smax).
  { rewrite <- Hmax. apply Rle_trans with v; [exact Hv | apply fold_max_ge_init]. }
  split; [exact Hrange|]. split.
  - intros i. apply Rle_trans with smax; [|nra].
    destruct (Nat.lt_ge_cases i (length (v :: t))) as [Hi|Hi].
    + rewrite <- Hmax. destruct i as [|i]; cbn [nth].
      * apply fold_max_ge_init.
      * apply fold_max_ge_elem. apply nth_In. cbn [length] in Hi. lia.
    + rewrite nth_overflow by exact Hi. exact Hmax0.
  - nra.
Qed.

Lemma total_loudness_bounds_witness :
  [30; 50] <> [] /\
  exists total sones,
    _calc_total_loudness [30; 50] = Ok (total, sones) /\ total <= pysum sones.
Proof.
  assert (Hne : [30; 50] <> []) by discriminate.
  split; [exact Hne|].
  destruct (total_loudness_bounds [30; 50] Hne)
    as (total & sones & Hrun & _ & _ & Hle).
  exists total, sones. split; [exact Hrun | exact Hle].
Defined.

Lemma fold_max_zero (t : list R) :
  (forall x, In x t -> x = 0) -> fold_left Rmax t 0 = 0.
Proof.
  induction t as [|x t IH]; intros Hz; cbn [fold_left]; [reflexivity|].
  rewrite (Hz x (or_introl eq_refl)), Rmax_left by lra.
  apply IH. intros y Hy. apply Hz. right. exact Hy.
Qed.

(** X11: silence.  When every band's equivalent loudness is below 1 dB,
    every sone value and the total loudness are 0, and the perceived level
    [32 + 9 log2(total)] is then not a finite number. *)
Theorem silent_total_loudness (L_eq : list R) :
  L_eq <> [] ->
  (forall i, (i < length L_eq)%nat -> nth i L_eq 0 < 1) ->
  exists total sones,
    _calc_total_loudness L_eq = Ok (total, sones) /\
    (forall i, nth i sones 0 = 0) /\
    total = 0 /\
    pldb total = None.
Proof.
  intros Hne Hlow.
  destruct (calc_total_loudness_unfold L_eq Hne) as (smax & Hmax & Hrun).
  cbv zeta in Hmax, Hrun.
  set (sones := interp L_eq L_EQ_RANGE SONES_L 0.0 (last SONES_L 0)) in *.
  assert (Hz : forall i, nth i sones 0 = 0).
  { intros i. destruct (Nat.lt_ge_cases i (length L_eq)) as [Hi|Hi].
    - unfold sones. rewrite nth_interp by exact Hi.
      rewrite interp1_left; [lra|].
      rewrite (proj1 L_EQ_RANGE_ends). apply Hlow. exact Hi.
    - apply nth_overflow. unfold sones, interp. rewrite length_map. exact Hi. }
  assert (Hin : forall x, In x sones -> x = 0).
  { intros x Hx. destruct (In_nth sones x 0 Hx) as (i & _ & <-). apply Hz. }
  assert (Hsmax : smax = 0).
  { destruct sones as [|v t]; [discriminate|].
    cbn [amax] in Hmax. injection Hmax as <-.
    rewrite (Hin v (or_introl eq_refl)).
    apply fold_max_zero. intros x Hx. apply Hin. right. exact Hx. }
  assert (Hsum : pysum sones = 0).
  { unfold pysum. rewrite (fold_plus_single sones (length sones) 0).
    - rewrite nth_overflow by lia. lra.
    - intros j _. apply Hz. }
  eexists. exists sones. split; [exact Hrun|]. split; [exact Hz|].
  assert (Ht : smax + interp1 smax SONES_F SUMMATION_FACTORS 0.0
                        (last SUMMATION_FACTORS 0) * (pysum sones - smax) = 0).
  { rewrite Hsum, Hsmax. lra. }
  split; [exact Ht|]. rewrite Ht.
  unfold pldb, finite_log. rewrite flt_false by lra. reflexivity.
Qed.

Lemma silent_total_loudness_witness :
  exists total sones,
    _calc_total_loudness [0; 0.5] = Ok (total, sones) /\ total = 0.
Proof.
  destruct (silent_total_loudness [0; 0.5]) as (total & sones & Hrun & _ & Ht & _).
  - discriminate.
  - intros [|[|i]] Hi; cbn [nth length] in *; [lra | lra | lia].
  - exists total, sones. split; [exact Hrun | exact Ht].
Defined.

(** X12: the level law of the last statement.  A positive total loudness
    has a finite level; 1 sone is 32 PLdB and every doubling of the total
    loudness adds 9 PLdB. *)
Theorem pldb_doubling (total : R) :
  0 < total ->
  exists level,
    pldb total = Some level /\
    pldb (2 * total) = Some (level + 9) /\
    pldb 1 = Some 32.
Proof.
  intros Hpos.
  assert (Hln2 : 0 < ln 2) by (rewrite <- ln_1; apply ln_increasing; lra).
  unfold pldb, finite_log.
  rewrite (flt_true 0 total Hpos), (flt_true 0 (2 * total)) by lra.
  rewrite (flt_true 0 1) by lra.
  cbn [option_map]. eexists. split; [reflexivity|]. split.
  - f_equal. unfold log2. rewrite ln_mult by lra.
    integral_literals. field. lra.
  - f_equal. unfold log2. rewrite ln_1. integral_literals. field. lra.
Qed.

Lemma pldb_doubling_witness :
  exists level, pldb 4 = Some level /\ pldb (2 * 4) = Some (level + 9).
Proof.
  destruct (pldb_doubling 4) as (level & H1 & H2 & _); [lra|].
  exists level. split; [exact H1 | exact H2].
Defined.

(** ** Annoyance of an exposed population *)

Import Exposure.

(** A loop whose body stores [f i] at index [i]. *)
Lemma for_each_setitem
  (body : nat -> list R -> result (list R)) (f : nat -> R) (hi : nat) :
  (forall i s, (i < hi)%nat -> body i s = setitem s i (f i)) ->
  forall (k a : nat) (s : list R),
    (a + k <= hi)%nat -> (a + k <= length s)%nat ->
    exists s',
      for_each body (seq a k) s = Ok s' /\
      length s' = length s /\
      (forall i, (a <= i < a + k)%nat -> nth i s' 0 = f i) /\
      (forall i, (i < a \/ a + k <= i)%nat -> nth i s' 0 = nth i s 0).
Proof.
  intros Hbody. induction k as [|k IH]; intros a s Hhi Hs.
  - exists s. cbn [seq for_each]. repeat split; auto. intros i Hi. lia.
  - cbn [seq for_each]. rewrite Hbody by lia.
    destruct (setitem_Ok s a (f a)) as (s1 & Hset & Hlen1 & Hat & Hother); [lia|].
    rewrite Hset. cbn [bind].
    destruct (IH (S a) s1) as (s' & Hrun & Hlen & Hin & Hout); [lia | lia |].
    exists s'. split; [exact Hrun|]. split; [congruence|]. split.
    + intros i Hi. destruct (Nat.eq_dec i a) as [->|Hne].
      * rewrite Hout by lia. exact Hat.
      * apply Hin. lia.
    + intros i Hi. rewrite Hout by lia. apply Hother. lia.
Qed.

Lemma annoyance_entries (PL : list R) :
  exists a,
    exterior_annoyance PL = Ok a /\
    length a = length PL /\
    forall i, (i < length PL)%nat ->
      nth i a 0
      = (if fle (nth i PL 0) 72.412 then 0
         else if flt (nth i PL 0) 89.866
              then 5.7410605 * (nth i PL 0 - 72.412) else 100).
Proof.
  unfold exterior_annoyance.
  destruct (for_each_setitem (annoyance_of PL)
              (fun i => if fle (nth i PL 0) 72.412 then 0
                        else if flt (nth i PL 0) 89.866
                             then 5.7410605 * (nth i PL 0 - 72.412) else 100)
              (length PL)) with (k := length PL) (a := 0%nat)
                                (s := zeros (length PL))
    as (a & Hrun & Hlen & Hin & _).
  - intros i s Hi. unfold annoyance_of.
    rewrite (getitem_nth PL i Hi). cbn [bind].
    destruct (fle (nth i PL 0) 72.412); [reflexivity|].
    destruct (flt (nth i PL 0) 89.866); reflexivity.
  - lia.
  - unfold zeros. rewrite repeat_length. lia.
  - exists a. split; [exact Hrun|]. split.
    + rewrite Hlen. unfold zeros. apply repeat_length.
    + intros i Hi. apply Hin. lia.
Qed.

(** X13: [exterior_annoyance] returns, for every input, an array of the
    input's length; an entry is 0 exactly when the level is at most
    72.412, it is 100 when the level is at least 89.866, and every entry
    lies in [0, 100.21]. *)
Theorem exterior_annoyance_range (PL : list R) :
  exists a,
    exterior_annoyance PL = Ok a /\
    length a = length PL /\
    forall i, (i < length PL)%nat ->
      0 <= nth i a 0 <= 100.21 /\
      (nth i a 0 = 0 <-> nth i PL 0 <= 72.412) /\
      (89.866 <= nth i PL 0 -> nth i a 0 = 100).
Proof.
  destruct (annoyance_entries PL) as (a & Hrun & Hlen & Hval).
  exists a. split; [exact Hrun|]. split; [exact Hlen|].
  intros i Hi. rewrite (Hval i Hi). unfold fle, flt.
  destruct (Rle_dec (nth i PL 0) 72.412) as [H1|H1];
    destruct (Rlt_dec (nth i PL 0) 89.866) as [H2|H2];
    repeat split; intros; try lra.
Qed.

Lemma exterior_annoyance_range_witness :
  exists a,
    exterior_annoyance [60; 80; 95] = Ok a /\
    (89.866 <= nth 2 [60; 80; 95] 0 -> nth 2 a 0 = 100).
Proof.
  destruct (exterior_annoyance_range [60; 80; 95]) as (a & Hrun & _ & H).
  exists a. split; [exact Hrun|].
  apply (H 2%nat). cbn [length]. lia.
Defined.

(** X14: the annoyance is non-decreasing in the level below 89.866, but
    it is not monotone: levels from 89.831 up to, not including, 89.866
    give more than 100, the value at and above 89.866. *)
Theorem exterior_annoyance_overshoot (PL : list R) (i j : nat) :
  (i < length PL)%nat -> (j < length PL)%nat ->
  exists a,
    exterior_annoyance PL = Ok a /\
    (nth i PL 0 <= nth j PL 0 -> nth j PL 0 < 89.866 ->
     nth i a 0 <= nth j a 0) /\
    (89.831 <= nth i PL 0 -> nth i PL 0 < 89.866 -> 89.866 <= nth j PL 0 ->
     nth j a 0 = 100 /\ 100 < nth i a 0).
Proof.
  intros Hi Hj.
  destruct (annoyance_entries PL) as (a & Hrun & Hlen & Hval).
  exists a. split; [exact Hrun|].
  rewrite (Hval i Hi), (Hval j Hj). unfold fle, flt.
  destruct (Rle_dec (nth i PL 0) 72.412) as [H1|H1];
    destruct (Rlt_dec (nth i PL 0) 89.866) as [H2|H2];
    destruct (Rle_dec (nth j PL 0) 72.412) as [H3|H3];
    destruct (Rlt_dec (nth j PL 0) 89.866) as [H4|H4];
    repeat split; intros; try lra.
Qed.

Lemma exterior_annoyance_overshoot_witness :
  exists a,
    exterior_annoyance [89.85; 89.9] = Ok a /\
    nth 1 a 0 = 100 /\ 100 < nth 0 a 0.
Proof.
  destruct (exterior_annoyance_overshoot [89.85; 89.9] 0 1)
    as (a & Hrun & _ & H); [cbn [length]; lia | cbn [length]; lia |].
  exists a. split; [exact Hrun|].
  apply H; cbn [nth]; lra.
Defined.

(** ** Population per noise bin *)

Lemma step_is_1 : step = 1.
Proof. unfold step, max_noise, min_noise, n_noise. lra. Qed.

Lemma ceil_IZR (z : Z) (x : R) : x = IZR z -> ceil x = z.
Proof.
  intros ->. unfold ceil.
  rewrite <- (Int_part_spec (- IZR z) (- z)%Z).
  - lia.
  - rewrite opp_IZR. lra.
Qed.

Lemma bin_edges_values :
  bin_edges
  = [75.5; 76.5; 77.5; 78.5; 79.5; 80.5; 81.5; 82.5; 83.5; 84.5; 85.5].
Proof.
  unfold bin_edges, bins, arange_f.
  rewrite (ceil_IZR 11) by (rewrite step_is_1; unfold max_noise, min_noise; lra).
  rewrite step_is_1. unfold min_noise.
  change (Z.to_nat 11) with 11%nat.
  cbn [seq map INR].
  repeat (f_equal; try lra).
Qed.

Ltac decide_edges x :=
  repeat match goal with
    | |- context [fle ?b x] =>
        first [ rewrite (fle_true b x) by lra
              | rewrite (fle_false b x) by lra
              | destruct (Rle_lt_dec b x);
                [ rewrite (fle_true b x) by lra
                | rewrite (fle_false b x) by lra ] ];
        cbv beta iota
    | |- context [flt x ?b] =>
        first [ rewrite (flt_true x b) by lra
              | rewrite (flt_false x b) by lra ];
        cbv beta iota
    end.

(** A noise level below 85.5 is credited to one of the ten bins; below
    75.5 the index -1 denotes the last bin. *)
Lemma bin_index_inside (x : R) :
  x < 85.5 ->
  py_index 10 (Z.of_nat (digitize1 x bin_edges) - 1) = Ok (credited_bin x) /\
  (credited_bin x < 10)%nat.
Proof.
  intros Hx. rewrite bin_edges_values. unfold digitize1, credited_bin.
  decide_edges x; split; solve [reflexivity | lia].
Qed.

Lemma bin_index_outside (x : R) :
  85.5 <= x ->
  py_index 10 (Z.of_nat (digitize1 x bin_edges) - 1) = Raise IndexError.
Proof.
  intros Hx. rewrite bin_edges_values. unfold digitize1.
  decide_edges x. reflexivity.
Qed.

Lemma column_rows (data : list (list R)) (k : nat) :
  Forall (fun row => (k < length row)%nat) data ->
  column data k = Ok (map (fun row => nth k row 0) data).
Proof.
  induction 1 as [|row rest Hrow _ IH]; [reflexivity|].
  cbn [column map]. rewrite (getitem_nth row k Hrow). cbn [bind].
  rewrite IH. reflexivity.
Qed.

Lemma pysum_total (l : list R) : pysum l = total l.
Proof.
  unfold pysum. induction l as [|x t IH]; [reflexivity|].
  cbn [fold_left total]. rewrite fold_plus_shift, IH. lra.
Qed.

Lemma fold_plus_replace :
  forall (s : list R) (k : nat) (v a : R),
    (k < length s)%nat ->
    fold_left Rplus (firstn k s ++ v :: skipn (S k) s) a
    = fold_left Rplus s a - nth k s 0 + v.
Proof.
  induction s as [|x t IH]; intros k v a Hk; cbn [length] in Hk; [lia|].
  destruct k as [|k].
  - cbn [firstn skipn app fold_left nth].
    rewrite (fold_plus_shift t (a + v)), (fold_plus_shift t (a + x)). lra.
  - cbn [firstn skipn app fold_left nth]. apply IH. lia.
Qed.

Lemma digitize_nth_error (noise : list R) (i : nat) :
  (i < length noise)%nat ->
  nth_error (digitize noise bin_edges) i
  = Some (digitize1 (nth i noise 0) bin_edges).
Proof.
  intros Hi. unfold digitize.
  rewrite nth_error_map, (nth_error_nth' noise 0 Hi). reflexivity.
Qed.

(** One pass of the loop for a county within range. *)
Lemma add_population_inside (noise pop s : list R) (i : nat) :
  (i < length noise)%nat -> length pop = length noise ->
  length s = 10%nat -> nth i noise 0 < 85.5 ->
  add_population (digitize noise bin_edges) pop i s
  = setitem s (credited_bin (nth i noise 0))
      (nth (credited_bin (nth i noise 0)) s 0 + nth i pop 0).
Proof.
  intros Hi Hlen Hs Hx. unfold add_population.
  rewrite (digitize_nth_error noise i Hi). cbn [bind]. rewrite Hs.
  destruct (bin_index_inside _ Hx) as [Hk Hlt].
  rewrite Hk. cbn [bind].
  rewrite (getitem_nth s) by lia. cbn [bind].
  rewrite (getitem_nth pop i) by lia. reflexivity.
Qed.

Lemma add_population_outside (noise pop s : list R) (i : nat) :
  (i < length noise)%nat -> length s = 10%nat -> 85.5 <= nth i noise 0 ->
  add_population (digitize noise bin_edges) pop i s = Raise IndexError.
Proof.
  intros Hi Hs Hx. unfold add_population.
  rewrite (digitize_nth_error noise i Hi). cbn [bind]. rewrite Hs.
  rewrite (bin_index_outside _ Hx). reflexivity.
Qed.

(** The loop over the counties [a, a + k), all within range. *)
Lemma population_loop (noise pop : list R) :
  length pop = length noise ->
  (forall i, (i < length noise)%nat -> nth i noise 0 < 85.5) ->
  forall (k a : nat) (s : list R),
    (a + k <= length noise)%nat -> length s = 10%nat ->
    exists s',
      for_each (add_population (digitize noise bin_edges) pop) (seq a k) s
      = Ok s' /\
      length s' = 10%nat /\
      (forall j,
          nth j s' 0
          = nth j s 0
            + total (map (fun i => if Nat.eqb (credited_bin (nth i noise 0)) j
                                   then nth i pop 0 else 0) (seq a k))) /\
      pysum s' = pysum s + total (map (fun i => nth i pop 0) (seq a k)).
Proof.
  intros Hlen Hin. induction k as [|k IH]; intros a s Hk Hs.
  - exists s. cbn [seq for_each map total]. repeat split; auto; intros; ring.
  - cbn [seq for_each].
    rewrite add_population_inside;
      [ | lia | exact Hlen | exact Hs | apply Hin; lia ].
    destruct (bin_index_inside (nth a noise 0)) as [_ Hb]; [apply Hin; lia|].
    set (b := credited_bin (nth a noise 0)) in *.
    destruct (setitem_Ok s b (nth b s 0 + nth a pop 0))
      as (s1 & Hset & Hlen1 & Hat & Hother); [lia|].
    rewrite Hset. cbn [bind].
    destruct (IH (S a) s1) as (s' & Hrun & Hl' & Hval & Hsum); [lia | lia |].
    exists s'. split; [exact Hrun|]. split; [exact Hl'|]. split.
    + intros j. rewrite (Hval j). cbn [map total]. fold b.
      destruct (Nat.eqb_spec b j) as [<-|Hne].
      * rewrite Hat. lra.
      * rewrite Hother by congruence. lra.
    + rewrite Hsum. cbn [map total].
      assert (E : pysum s1 = pysum s + nth a pop 0).
      { unfold setitem in Hset.
        rewrite (proj2 (Nat.ltb_lt b (length s))) in Hset by lia.
        injection Hset as <-. unfold pysum.
        rewrite fold_plus_replace by lia. lra. }
      rewrite E. lra.
Qed.

Lemma map_seq_nth (A : Type) (g : list R -> A) (data : list (list R)) :
  map (fun i => g (nth i data [])) (seq 0 (length data)) = map g data.
Proof.
  induction data as [|row rest IH]; [reflexivity|].
  cbn [length seq map nth]. f_equal.
  rewrite <- seq_shift, map_map. exact IH.
Qed.

(** The counts of a data set within range, and their sum. *)
Lemma population_counts_loop_total (data : list (list R)) :
  Forall (fun row => (3 < length row)%nat) data ->
  (forall row, In row data -> nth 3 row 0 < 85.5) ->
  exists counts,
    population_counts data = Ok counts /\
    length counts = 10%nat /\
    pysum counts = pysum (map (fun row => nth 2 row 0) data).
Proof.
  intros Hrows Hnoise. unfold population_counts.
  rewrite (column_rows data 3 Hrows). cbn [bind].
  rewrite (column_rows data 2)
    by (eapply Forall_impl; [|exact Hrows]; cbn beta; intros; lia).
  cbn [bind].
  set (noise := map (fun row => nth 3 row 0) data).
  set (pop := map (fun row => nth 2 row 0) data).
  assert (Hln : length noise = length data) by apply length_map.
  assert (Hlp : length pop = length noise)
    by (unfold pop, noise; rewrite !length_map; reflexivity).
  assert (Hnth : forall i, nth i noise 0 = nth 3 (nth i data []) 0).
  { intros i. exact (map_nth (fun row => nth 3 row 0) data [] i). }
  assert (Hpth : forall i, nth i pop 0 = nth 2 (nth i data []) 0).
  { intros i. exact (map_nth (fun row => nth 2 row 0) data [] i). }
  destruct (population_loop noise pop Hlp) with (k := length noise) (a := 0%nat)
    (s := zeros (length bin_edges - 1)) as (s' & Hrun & Hl & _ & Hsum).
  - intros i Hi. rewrite Hnth. apply Hnoise. apply nth_In. lia.
  - lia.
  - rewrite bin_edges_values. reflexivity.
  - unfold digitize at 2. rewrite length_map.
    exists s'. split; [exact Hrun|]. split; [exact Hl|].
    rewrite Hsum.
    replace (pysum (zeros (length bin_edges - 1))) with 0.
    2:{ rewrite bin_edges_values. cbn [length Nat.sub zeros repeat].
        unfold pysum. cbn [fold_left]. lra. }
    rewrite Hln, Rplus_0_l, pysum_total.
    transitivity (total (map (fun row => nth 2 row 0) data)); [|reflexivity].
    rewrite <- (map_seq_nth R (fun row => nth 2 row 0) data).
    f_equal. apply map_ext. intros i. apply Hpth.
Qed.

(** X15: when every county's noise is below 85.5, the loop returns ten
    counts; the population of a county is added to the bin of width 1 that
    holds its noise (from 75.5 on), and, because the index -1 denotes the
    last entry, a county with noise below 75.5 is added to the last bin.
    The counts add up to the whole population. *)
Theorem population_counts_bins (data : list (list R)) :
  Forall (fun row => (3 < length row)%nat) data ->
  (forall row, In row data -> nth 3 row 0 < 85.5) ->
  exists counts,
    population_counts data = Ok counts /\
    length counts = 10%nat /\
    (forall j,
        nth j counts 0
        = total (map (fun row => if Nat.eqb (credited_bin (nth 3 row 0)) j
                                 then nth 2 row 0 else 0) data)) /\
    pysum counts = pysum (map (fun row => nth 2 row 0) data).
Proof.
  intros Hrows Hnoise. unfold population_counts.
  rewrite (column_rows data 3 Hrows). cbn [bind].
  rewrite (column_rows data 2)
    by (eapply Forall_impl; [|exact Hrows]; cbn beta; intros; lia).
  cbn [bind].
  set (noise := map (fun row => nth 3 row 0) data).
  set (pop := map (fun row => nth 2 row 0) data).
  assert (Hln : length noise = length data) by apply length_map.
  assert (Hlp : length pop = length noise)
    by (unfold pop, noise; rewrite !length_map; reflexivity).
  assert (Hnth : forall i, nth i noise 0 = nth 3 (nth i data []) 0).
  { intros i. exact (map_nth (fun row => nth 3 row 0) data [] i). }
  assert (Hpth : forall i, nth i pop 0 = nth 2 (nth i data []) 0).
  { intros i. exact (map_nth (fun row => nth 2 row 0) data [] i). }
  destruct (population_loop noise pop Hlp) with (k := length noise) (a := 0%nat)
    (s := zeros (length bin_edges - 1)) as (s' & Hrun & Hl & Hval & Hsum).
  - intros i Hi. rewrite Hnth. apply Hnoise. apply nth_In. lia.
  - lia.
  - rewrite bin_edges_values. reflexivity.
  - unfold digitize at 2. rewrite length_map.
    exists s'. split; [exact Hrun|]. split; [exact Hl|]. split.
    + intros j. rewrite (Hval j).
      replace (nth j (zeros (length bin_edges - 1)) 0) with 0.
      2:{ rewrite bin_edges_values. cbn [length Nat.sub zeros repeat].
          do 11 (destruct j as [|j]; [reflexivity|]). destruct j; reflexivity. }
      rewrite Hln, Rplus_0_l.
      rewrite <- (map_seq_nth R
                    (fun row => if Nat.eqb (credited_bin (nth 3 row 0)) j
                                then nth 2 row 0 else 0) data).
      f_equal. apply map_ext. intros i. rewrite Hnth, Hpth. reflexivity.
    + rewrite Hsum.
      replace (pysum (zeros (length bin_edges - 1))) with 0.
      2:{ rewrite bin_edges_values. cbn [length Nat.sub zeros repeat].
          unfold pysum. cbn [fold_left]. lra. }
      rewrite Hln, Rplus_0_l, pysum_total.
      transitivity (total (map (fun row => nth 2 row 0) data)); [|reflexivity].
      rewrite <- (map_seq_nth R (fun row => nth 2 row 0) data).
      f_equal. apply map_ext. intros i. apply Hpth.
Qed.

Lemma population_counts_bins_witness :
  exists counts,
    population_counts [[1; 2; 300; 70]; [3; 4; 500; 80.2]] = Ok counts /\
    nth 9 counts 0
    = total (map (fun row => if Nat.eqb (credited_bin (nth 3 row 0)) 9
                             then nth 2 row 0 else 0)
               [[1; 2; 300; 70]; [3; 4; 500; 80.2]]).
Proof.
  destruct (population_counts_bins [[1; 2; 300; 70]; [3; 4; 500; 80.2]])
    as (counts & Hrun & _ & Hval & _).
  - repeat constructor.
  - intros row [<-|[<-|[]]]; cbn [nth]; lra.
  - exists counts. split; [exact Hrun | exact (Hval 9%nat)].
Defined.

Lemma population_loop_raises (noise pop : list R) :
  length pop = length noise ->
  forall (k a : nat) (s : list R),
    (a + k <= length noise)%nat -> length s = 10%nat ->
    (exists i, (a <= i < a + k)%nat /\ 85.5 <= nth i noise 0) ->
    for_each (add_population (digitize noise bin_edges) pop) (seq a k) s
    = Raise IndexError.
Proof.
  intros Hlen. induction k as [|k IH]; intros a s Hk Hs (i & Hi & Hbad).
  - lia.
  - cbn [seq for_each].
    destruct (Rlt_le_dec (nth a noise 0) 85.5) as [Hok|Hout].
    + rewrite add_population_inside; [ | lia | exact Hlen | exact Hs | exact Hok ].
      destruct (bin_index_inside _ Hok) as [_ Hb].
      destruct (setitem_Ok s (credited_bin (nth a noise 0))
                  (nth (credited_bin (nth a noise 0)) s 0 + nth a pop 0))
        as (s1 & Hset & Hlen1 & _); [lia|].
      rewrite Hset. cbn [bind]. apply IH; [lia | lia |].
      exists i. split; [|exact Hbad].
      destruct (Nat.eq_dec i a) as [->|Hne]; [lra | lia].
    + rewrite add_population_outside; [reflexivity | lia | exact Hs | exact Hout].
Qed.

(** X16: a single county with a noise of 85.5 or more makes the binning
    fail: [np.digitize] returns 11 for it, and index 10 is outside the ten
    bins, so the script stops with an [IndexError]. *)
Theorem population_out_of_range (data : list (list R)) :
  Forall (fun row => (3 < length row)%nat) data ->
  (exists row, In row data /\ 85.5 <= nth 3 row 0) ->
  population_counts data = Raise IndexError /\
  population_density data = Raise IndexError.
Proof.
  intros Hrows (row & Hin & Hbad).
  assert (Hc : population_counts data = Raise IndexError).
  { unfold population_counts.
    rewrite (column_rows data 3 Hrows). cbn [bind].
    rewrite (column_rows data 2)
      by (eapply Forall_impl; [|exact Hrows]; cbn beta; intros; lia).
    cbn [bind]. unfold digitize at 2. rewrite !length_map.
    apply population_loop_raises.
    - rewrite !length_map. reflexivity.
    - rewrite length_map. lia.
    - rewrite bin_edges_values. reflexivity.
    - destruct (In_nth data row [] Hin) as (i & Hi & Hrow).
      exists i. split; [lia|].
      rewrite (map_nth (fun r => nth 3 r 0) data [] i : nth i _ 0 = _).
      rewrite Hrow. exact Hbad. }
  split; [exact Hc|]. unfold population_density. rewrite Hc. reflexivity.
Qed.

Lemma population_out_of_range_witness :
  population_counts [[1; 2; 300; 80]; [3; 4; 500; 85.5]] = Raise IndexError.
Proof.
  apply (population_out_of_range [[1; 2; 300; 80]; [3; 4; 500; 85.5]]).
  - repeat constructor.
  - exists [3; 4; 500; 85.5]. split; [right; left; reflexivity|].
    cbn [nth]. lra.
Defined.

Lemma total_map_mult (k : R) (l : list R) :
  total (map (fun v => v * k) l) = total l * k.
Proof.
  induction l as [|x t IH]; cbn [map total]; [lra | rewrite IH; lra].
Qed.

Lemma total_map_div (k : R) (l : list R) :
  total (map (fun v => v / k) l) = total l / k.
Proof.
  induction l as [|x t IH]; cbn [map total].
  - unfold Rdiv. lra.
  - rewrite IH. unfold Rdiv. lra.
Qed.

(** X17: when every county's noise is below 85.5 and the whole population
    is not zero, the normalised population levels integrate to one over
    the bins: [sum(pop_level)*step = 1]. *)
Theorem population_density_integral (data : list (list R)) :
  Forall (fun row => (3 < length row)%nat) data ->
  (forall row, In row data -> nth 3 row 0 < 85.5) ->
  pysum (map (fun row => nth 2 row 0) data) <> 0 ->
  exists pop_level,
    population_density data = Ok pop_level /\
    length pop_level = 10%nat /\
    pysum pop_level * step = 1.
Proof.
  intros Hrows Hnoise Hpop.
  destruct (population_counts_loop_total data Hrows Hnoise)
    as (counts & Hrun & Hlen & Hsum).
  unfold population_density. rewrite Hrun. cbn [bind].
  eexists. split; [reflexivity|]. split; [rewrite length_map; exact Hlen|].
  rewrite !pysum_total, total_map_div, total_map_mult, <- !pysum_total.
  rewrite Hsum, step_is_1. field. lra.
Qed.

Lemma population_density_integral_witness :
  exists pop_level,
    population_density [[1; 2; 300; 70]; [3; 4; 500; 80.2]] = Ok pop_level /\
    pysum pop_level * step = 1.
Proof.
  destruct (population_density_integral [[1; 2; 300; 70]; [3; 4; 500; 80.2]])
    as (pop_level & Hrun & _ & Hint).
  - repeat constructor.
  - intros row [<-|[<-|[]]]; cbn [nth]; lra.
  - unfold pysum. cbn [map nth fold_left]. lra.
  - exists pop_level. split; [exact Hrun | exact Hint].
Defined.

(** ** Pressure altitude *)

Lemma Rpower_one_base (y : R) : Rpower 1 y = 1.
Proof. unfold Rpower. rewrite ln_1, Rmult_0_r. apply exp_0. Qed.

Lemma Rpower_pos (x y : R) : 0 < Rpower x y.
Proof. unfold Rpower. apply exp_pos. Qed.

Lemma elevation_positive_pressure (p : R) :
  0 < p ->
  Gfs.elevation p
  = Some (10 ^ 5 / 2.5577 * (1 - Rpower (p / 101325) (1 / 5.2558)) / 0.3048).
Proof.
  intros Hp. unfold Gfs.elevation, power.
  rewrite flt_true by (apply Rdiv_lt_0_compat; lra). reflexivity.
Qed.

(** X18: the elevation computed from a pressure entry is finite for every
    positive pressure; it is 0 at 101325 Pa, positive below and negative
    above that pressure, strictly decreasing in the pressure, and stays
    below [10^5 / 2.5577 / 0.3048] feet, the value at pressure 0; a
    negative pressure gives no number. *)
Theorem elevation_of_pressure (p q : R) :
  0 < p -> p < q ->
  exists hp hq,
    Gfs.elevation p = Some hp /\
    Gfs.elevation q = Some hq /\
    hq < hp /\
    hp < 10 ^ 5 / 2.5577 / 0.3048 /\
    (p < 101325 -> 0 < hp) /\
    (101325 < p -> hp < 0) /\
    Gfs.elevation 101325 = Some 0 /\
    Gfs.elevation 0 = Some (10 ^ 5 / 2.5577 / 0.3048) /\
    Gfs.elevation (- p) = None.
Proof.
  intros Hp Hpq.
  rewrite (elevation_positive_pressure p Hp).
  rewrite (elevation_positive_pressure q) by lra.
  rewrite (elevation_positive_pressure 101325) by lra.
  eexists. eexists. split; [reflexivity|]. split; [reflexivity|].
  assert (Hc : 0 < 1 / 5.2558) by (apply Rdiv_lt_0_compat; lra).
  assert (Hmono : forall a b, 0 < a -> a < b ->
                  Rpower (a / 101325) (1 / 5.2558)
                  < Rpower (b / 101325) (1 / 5.2558)).
  { intros a b Ha Hab. apply Rlt_Rpower_l; [exact Hc|]. split.
    - apply Rdiv_lt_0_compat; lra.
    - unfold Rdiv. apply Rmult_lt_compat_r; [|exact Hab].
      apply Rinv_0_lt_compat. lra. }
  assert (H1 : Rpower (101325 / 101325) (1 / 5.2558) = 1).
  { replace (101325 / 101325) with 1 by (field; lra). apply Rpower_one_base. }
  pose proof (Hmono p q Hp Hpq) as Hpq'.
  pose proof (Rpower_pos (p / 101325) (1 / 5.2558)) as Hpos.
  assert (Hk : 0 < 10 ^ 5 / 2.5577 / 0.3048).
  { apply Rdiv_lt_0_compat; [apply Rdiv_lt_0_compat|]; lra. }
  set (k := 10 ^ 5 / 2.5577 / 0.3048) in *.
  assert (Hform : forall r, 10 ^ 5 / 2.5577 * (1 - r) / 0.3048 = k * (1 - r)).
  { intros r. unfold k. unfold Rdiv. ring. }
  rewrite !Hform.
  split; [nra|]. split; [nra|]. split.
  { intros Hlow. pose proof (Hmono p 101325 Hp Hlow) as H. rewrite H1 in H. nra. }
  split.
  { intros Hhigh. pose proof (Hmono 101325 p ltac:(lra) Hhigh) as H.
    rewrite H1 in H. nra. }
  split; [rewrite H1; f_equal; lra|].
  split.
  - unfold Gfs.elevation, power.
    replace (0 / 101325) with 0 by (unfold Rdiv; lra).
    rewrite flt_false, fle_true by lra. cbn [option_map].
    f_equal. rewrite Hform. lra.
  - unfold Gfs.elevation, power.
    assert (Hneg : - p / 101325 < 0).
    { unfold Rdiv. assert (0 < / 101325) by (apply Rinv_0_lt_compat; lra). nra. }
    rewrite flt_false, fle_false by lra. reflexivity.
Qed.

Lemma elevation_of_pressure_witness :
  exists hp hq,
    Gfs.elevation 50000 = Some hp /\ Gfs.elevation 60000 = Some hq /\ hq < hp.
Proof.
  destruct (elevation_of_pressure 50000 60000) as (hp & hq & H1 & H2 & H3 & _);
    [lra | lra |].
  exists hp, hq. split; [exact H1|]. split; [exact H2 | exact H3].
Defined.

(** ** Band energies and sound pressure levels *)

Lemma take_selected (p : R -> bool) :
  forall (fr a pre : list R),
    (length fr <= length a)%nat ->
    take (pre ++ a) (nonzero_from (length pre) (map p fr))
    = Ok (select p fr a).
Proof.
  induction fr as [|f fr IH]; intros a pre Hlen; [reflexivity|].
  destruct a as [|v a]; [cbn [length] in Hlen; lia|].
  cbn [length] in Hlen.
  assert (IH' : take (pre ++ v :: a)
                  (nonzero_from (S (length pre)) (map p fr))
                = Ok (select p fr a)).
  { specialize (IH a (pre ++ [v]) ltac:(lia)).
    rewrite <- app_assoc in IH. cbn [app] in IH.
    rewrite length_app in IH. cbn [length] in IH.
    rewrite Nat.add_1_r in IH. exact IH. }
  cbn [map nonzero_from select]. destruct (p f).
  - cbn [take]. unfold getitem. rewrite nth_error_app2 by lia.
    rewrite Nat.sub_diag. cbn [nth_error bind]. rewrite IH'. reflexivity.
  - exact IH'.
Qed.

Lemma length_select (p : R -> bool) :
  forall (fr a : list R),
    (length fr <= length a)%nat ->
    length (select p fr a) = length (nonzero_from 0 (map p fr)).
Proof.
  assert (G : forall (fr a : list R) (k : nat),
             (length fr <= length a)%nat ->
             length (select p fr a) = length (nonzero_from k (map p fr))).
  { induction fr as [|f fr IH]; intros a k Hlen; [reflexivity|].
    destruct a as [|v a]; [cbn [length] in Hlen; lia|].
    cbn [length] in Hlen. cbn [map nonzero_from select].
    destruct (p f); cbn [length]; rewrite (IH a (S k)) by lia; reflexivity. }
  intros fr a. apply G.
Qed.

Lemma band_limits_defined (j : nat) :
  (j < 42)%nat ->
  getitem BAND_LOWER_LIMITS j = Ok (nth j BAND_LOWER_LIMITS 0) /\
  getitem BAND_UPPER_LIMITS j = Ok (nth j BAND_UPPER_LIMITS 0).
Proof. intros H. split; apply getitem_nth; exact H. Qed.

(** One pass of the loop over the bands. *)
Lemma band_energy_pass (freq power s : list R) (j : nat) :
  (j < 42)%nat -> (j < length s)%nat -> (length freq <= length power)%nat ->
  exists s',
    band_energy freq power j s = Ok s' /\
    length s' = length s /\
    nth j s' 0
    = (if (length (select (in_band j) freq freq) =? 0)%nat then nth j s 0
       else trapz (select (in_band j) freq power)
                  (select (in_band j) freq freq)) /\
    (forall i, i <> j -> nth i s' 0 = nth i s 0).
Proof.
  intros Hj Hs Hlen. unfold band_energy.
  destruct (band_limits_defined j Hj) as [Hlo Hhi].
  rewrite Hlo, Hhi. cbn [bind]. fold (in_band j). unfold nonzero.
  rewrite <- (length_select (in_band j) freq freq) by lia.
  destruct (length (select (in_band j) freq freq) =? 0)%nat eqn:E; cbn [negb].
  - exists s. repeat split; reflexivity.
  - pose proof (take_selected (in_band j) freq power [] Hlen) as Hp.
    pose proof (take_selected (in_band j) freq freq [] (le_n _)) as Hf.
    cbn [app length] in Hp, Hf. rewrite Hp. cbn [bind]. rewrite Hf. cbn [bind].
    destruct (setitem_Ok s j (trapz (select (in_band j) freq power)
                                (select (in_band j) freq freq)) Hs)
      as (s' & Hset & Hl & Hat & Hother).
    exists s'. repeat split; assumption.
Qed.

Lemma band_energy_loop (freq power : list R) :
  (length freq <= length power)%nat ->
  forall (k a : nat) (s : list R),
    (a + k <= 42)%nat -> (a + k <= length s)%nat ->
    exists s',
      for_each (band_energy freq power) (seq a k) s = Ok s' /\
      length s' = length s /\
      (forall j, (a <= j < a + k)%nat ->
         nth j s' 0
         = (if (length (select (in_band j) freq freq) =? 0)%nat
            then nth j s 0
            else trapz (select (in_band j) freq power)
                       (select (in_band j) freq freq))) /\
      (forall j, (j < a \/ a + k <= j)%nat -> nth j s' 0 = nth j s 0).
Proof.
  intros Hlen. induction k as [|k IH]; intros a s Hk Hs.
  - exists s. cbn [seq for_each]. repeat split; auto. intros j Hj. lia.
  - cbn [seq for_each].
    destruct (band_energy_pass freq power s a) as (s1 & Hrun1 & Hl1 & Hat & Hother);
      [lia | lia | exact Hlen |].
    rewrite Hrun1. cbn [bind].
    destruct (IH (S a) s1) as (s' & Hrun & Hl & Hin & Hout); [lia | lia |].
    exists s'. split; [exact Hrun|]. split; [congruence|]. split.
    + intros j Hj. destruct (Nat.eq_dec j a) as [->|Hne].
      * rewrite Hout by lia. exact Hat.
      * rewrite Hin by lia. rewrite Hother by exact Hne. reflexivity.
    + intros j Hj. rewrite Hout by lia. apply Hother. lia.
Qed.

Lemma trapz_nil_l (x : list R) : trapz [] x = 0.
Proof. reflexivity. Qed.

Lemma select_empty_trapz (p : R -> bool) (fr a : list R) :
  (length fr <= length a)%nat ->
  length (select p fr fr) = 0%nat ->
  trapz (select p fr a) (select p fr fr) = 0.
Proof.
  intros Hlen H0.
  assert (E : length (select p fr a) = 0%nat).
  { rewrite (length_select p fr a Hlen).
    rewrite <- (length_select p fr fr (le_n _)). exact H0. }
  destruct (select p fr a); [reflexivity | discriminate].
Qed.

(** The energies and levels of all bands. *)
Lemma sound_pressure_levels_values (freq power : list R) (n : nat) :
  (n <= 42)%nat -> (length freq <= length power)%nat ->
  exists energy loudness,
    _sound_pressure_levels freq power n = Ok (energy, loudness) /\
    length energy = n /\
    length loudness = n /\
    forall j, (j < n)%nat ->
      nth j energy 0
      = trapz (select (in_band j) freq power)
              (select (in_band j) freq freq) / t_crit /\
      nth j loudness None
      = option_map (fun l => 10 * l - 3)
          (finite_log log10 (nth j energy 0 / po ^ 2)).
Proof.
  intros Hn Hlen. unfold _sound_pressure_levels.
  destruct (band_energy_loop freq power Hlen n 0 (zeros n))
    as (s' & Hrun & Hl & Hin & _).
  { lia. }
  { unfold zeros. rewrite repeat_length. lia. }
  rewrite Hrun. cbn [bind].
  assert (Hls : length s' = n).
  { rewrite Hl. unfold zeros. apply repeat_length. }
  eexists. eexists. split; [reflexivity|].
  split; [rewrite length_map; exact Hls|].
  split; [rewrite !length_map; exact Hls|].
  intros j Hj.
  assert (He : nth j (map (fun e => e / t_crit) s') 0
               = trapz (select (in_band j) freq power)
                   (select (in_band j) freq freq) / t_crit).
  { rewrite (nth_map_R _ (fun e => e / t_crit) s' 0) by lia.
    f_equal. rewrite (Hin j) by lia.
    destruct (length (select (in_band j) freq freq) =? 0)%nat eqn:E;
      [|reflexivity].
    apply Nat.eqb_eq in E.
    rewrite (select_empty_trapz _ _ _ Hlen E).
    unfold zeros. apply nth_repeat. }
  split; [exact He|].
  rewrite (nth_indep _ None
             (option_map (fun l => 10 * l - 3) (finite_log log10 (0 / po ^ 2))))
    by (rewrite !length_map; lia).
  rewrite (map_nth (fun e => option_map (fun l => 10 * l - 3)
                               (finite_log log10 (e / po ^ 2)))).
  reflexivity.
Qed.

Lemma select_filter (p : R -> bool) (fr : list R) :
  select p fr fr = filter p fr.
Proof.
  assert (G : forall l a, a = l -> select p l a = filter p l).
  { induction l as [|f l IH]; intros a ->; [reflexivity|].
    cbn [select filter]. destruct (p f); [f_equal|]; apply IH; reflexivity. }
  apply G. reflexivity.
Qed.

Lemma select_all (P : R -> Prop) (p : R -> bool) :
  forall fr a : list R, all P a -> all P (select p fr a).
Proof.
  induction fr as [|f fr IH]; intros a Ha; [exact I|].
  destruct a as [|v a]; [exact I|]. destruct Ha as [Hv Ha].
  cbn [select]. destruct (p f); [split; [exact Hv|]|]; apply IH; exact Ha.
Qed.

Lemma all_of_In (P : R -> Prop) (l : list R) :
  (forall x, In x l -> P x) -> all P l.
Proof.
  induction l as [|a t IH]; intros H; [exact I|].
  split; [apply H; left; reflexivity | apply IH; intros x Hx; apply H; right; exact Hx].
Qed.

Lemma nondecreasing_tail_above (a : R) (t : list R) :
  nondecreasing (a :: t) -> all (fun v => a <= v) t /\ nondecreasing t.
Proof.
  revert a. induction t as [|b t IH]; intros a Hn; [split; exact I|].
  destruct Hn as [Hab Ht]. destruct (IH b Ht) as [Hall _].
  split; [|exact Ht]. split; [exact Hab|].
  apply all_of_In. intros x Hx. pose proof (all_In _ _ Hall x Hx). cbn beta in *. lra.
Qed.

Lemma nondecreasing_cons (a : R) (t : list R) :
  all (fun v => a <= v) t -> nondecreasing t -> nondecreasing (a :: t).
Proof.
  intros Hall Ht. destruct t as [|b t]; [exact I|].
  destruct Hall as [Hab _]. split; assumption.
Qed.

Lemma filter_nondecreasing (p : R -> bool) (l : list R) :
  nondecreasing l -> nondecreasing (filter p l).
Proof.
  induction l as [|a t IH]; intros Hn; [exact I|].
  destruct (nondecreasing_tail_above a t Hn) as [Hall Ht].
  cbn [filter]. destruct (p a); [|apply IH; exact Ht].
  apply nondecreasing_cons; [|apply IH; exact Ht].
  apply all_of_In. intros x Hx. apply filter_In in Hx.
  apply (all_In _ _ Hall x). tauto.
Qed.

Lemma trapz_nonneg :
  forall y x : list R,
    all (fun v => 0 <= v) y -> nondecreasing x -> 0 <= trapz y x.
Proof.
  induction y as [|y0 y IH]; intros x Hy Hx; [cbn [trapz]; lra|].
  destruct x as [|x0 x]; [cbn [trapz]; lra|].
  cbn [trapz]. destruct y as [|y1 y]; [lra|]. destruct x as [|x1 x]; [lra|].
  destruct Hy as [Hy0 Hy]. pose proof Hy as [Hy1 _]. destruct Hx as [Hx01 Hx].
  specialize (IH (x1 :: x) Hy Hx).
  assert (0 <= (x1 - x0) * (y1 + y0) / 2) by nra. lra.
Qed.

(** X19: for at most 42 bands and a power array at least as long as the
    frequency array, the band integration returns one energy and one level
    per band; a band that holds at most one frequency sample has energy 0,
    and its level, the logarithm of 0, is not a finite number. *)
Theorem sound_pressure_levels_empty_band (freq power : list R) (n j : nat) :
  (n <= 42)%nat -> (length freq <= length power)%nat -> (j < n)%nat ->
  (length (filter (in_band j) freq) <= 1)%nat ->
  exists energy loudness,
    _sound_pressure_levels freq power n = Ok (energy, loudness) /\
    length energy = n /\
    length loudness = n /\
    nth j energy 0 = 0 /\
    nth j loudness None = None.
Proof.
  intros Hn Hlen Hj Hone.
  destruct (sound_pressure_levels_values freq power n Hn Hlen)
    as (energy & loudness & Hrun & Hle & Hll & Hval).
  exists energy, loudness. split; [exact Hrun|].
  split; [exact Hle|]. split; [exact Hll|].
  destruct (Hval j Hj) as [He Hl].
  assert (Hz : nth j energy 0 = 0).
  { rewrite He. rewrite <- select_filter in Hone.
    assert (Hsel : length (select (in_band j) freq power)
                   = length (select (in_band j) freq freq)).
    { rewrite (length_select _ freq power Hlen).
      rewrite (length_select _ freq freq (le_n _)). reflexivity. }
    destruct (select (in_band j) freq power) as [|y0 [|y1 y]];
      destruct (select (in_band j) freq freq) as [|x0 [|x1 x]];
      cbn [length] in *; try lia; cbn [trapz]; unfold Rdiv; lra. }
  split; [exact Hz|]. rewrite Hl, Hz.
  unfold finite_log. rewrite flt_false; [reflexivity|].
  unfold Rdiv. lra.
Qed.

Lemma sound_pressure_levels_empty_band_witness :
  exists energy loudness,
    _sound_pressure_levels [0; 1; 2] [5; 6; 7] 42 = Ok (energy, loudness) /\
    nth 41 energy 0 = 0.
Proof.
  destruct (sound_pressure_levels_empty_band [0; 1; 2] [5; 6; 7] 42 41)
    as (energy & loudness & Hrun & _ & _ & Hz & _).
  - lia.
  - cbn [length]. lia.
  - lia.
  - unfold in_band, fle. cbn [filter nth BAND_LOWER_LIMITS BAND_UPPER_LIMITS].
    repeat match goal with
      | |- context [Rle_dec ?a ?b] => destruct (Rle_dec a b); try lra
      end; cbn [andb length]; lia.
  - exists energy, loudness. split; [exact Hrun | exact Hz].
Defined.

(** X20: when no power value is negative and the frequencies are in
    non-decreasing order, no band energy is negative. *)
Theorem band_energies_nonnegative (freq power : list R) (n : nat) :
  (n <= 42)%nat -> (length freq <= length power)%nat ->
  all (fun v => 0 <= v) power -> nondecreasing freq ->
  exists energy loudness,
    _sound_pressure_levels freq power n = Ok (energy, loudness) /\
    forall j, 0 <= nth j energy 0.
Proof.
  intros Hn Hlen Hpow Hfreq.
  destruct (sound_pressure_levels_values freq power n Hn Hlen)
    as (energy & loudness & Hrun & Hle & _ & Hval).
  exists energy, loudness. split; [exact Hrun|].
  intros j. destruct (Nat.lt_ge_cases j n) as [Hj|Hj].
  - destruct (Hval j Hj) as [He _]. rewrite He.
    apply Rle_mult_inv_pos; [|unfold t_crit; lra].
    apply trapz_nonneg.
    + apply select_all. exact Hpow.
    + rewrite select_filter. apply filter_nondecreasing. exact Hfreq.
  - rewrite nth_overflow by lia. lra.
Qed.

Lemma band_energies_nonnegative_witness :
  exists energy loudness,
    _sound_pressure_levels [0; 1; 2] [5; 6; 7] 42 = Ok (energy, loudness) /\
    0 <= nth 0 energy 0.
Proof.
  destruct (band_energies_nonnegative [0; 1; 2] [5; 6; 7] 42)
    as (energy & loudness & Hrun & Hpos).
  - lia.
  - cbn [length]. lia.
  - cbn [all]. repeat split; lra.
  - cbn [nondecreasing]. repeat split; lra.
  - exists energy, loudness. split; [exact Hrun | exact (Hpos 0%nat)].
Defined.

Lemma getitem_raises (a : list R) (i : nat) (e : exn) :
  getitem a i = Raise e -> e = IndexError.
Proof.
  unfold getitem. destruct (nth_error a i); [discriminate | congruence].
Qed.

Lemma take_raises (a : list R) :
  forall (idx : list nat) (e : exn), take a idx = Raise e -> e = IndexError.
Proof.
  induction idx as [|i idx IH]; intros e; cbn [take]; [discriminate|].
  destruct (getitem a i) as [v|e'] eqn:E; cbn [bind].
  - destruct (take a idx) as [r|e'']; cbn [bind]; [discriminate|].
    intros [= <-]. apply IH. reflexivity.
  - intros [= <-]. exact (getitem_raises _ _ _ E).
Qed.

Lemma setitem_raises (a : list R) (i : nat) (v : R) (e : exn) :
  setitem a i v = Raise e -> e = IndexError.
Proof.
  unfold setitem. destruct (i <? length a)%nat; [discriminate | congruence].
Qed.

Lemma band_energy_raises (freq power s : list R) (j : nat) (e : exn) :
  band_energy freq power j s = Raise e -> e = IndexError.
Proof.
  unfold band_energy.
  destruct (getitem BAND_LOWER_LIMITS j) as [lo|e1] eqn:E1; cbn [bind];
    [|intros [= <-]; exact (getitem_raises _ _ _ E1)].
  destruct (getitem BAND_UPPER_LIMITS j) as [hi|e2] eqn:E2; cbn [bind];
    [|intros [= <-]; exact (getitem_raises _ _ _ E2)].
  destruct (negb _); [|discriminate].
  destruct (take power _) as [ps|e3] eqn:E3; cbn [bind];
    [|intros [= <-]; exact (take_raises _ _ _ E3)].
  destruct (take freq _) as [fs|e4] eqn:E4; cbn [bind];
    [|intros [= <-]; exact (take_raises _ _ _ E4)].
  apply setitem_raises.
Qed.

Lemma for_each_raises_at
  (body : nat -> list R -> result (list R)) (bad : nat) :
  (forall i s e, body i s = Raise e -> e = IndexError) ->
  (forall s, body bad s = Raise IndexError) ->
  forall (range : list nat) (s : list R),
    In bad range -> for_each body range s = Raise IndexError.
Proof.
  intros Honly Hbad. induction range as [|i rest IH]; intros s Hin;
    [contradiction|].
  cbn [for_each]. destruct (body i s) as [s1|e] eqn:E; cbn [bind].
  - destruct Hin as [->|Hin]; [rewrite Hbad in E; discriminate|].
    apply IH. exact Hin.
  - f_equal. exact (Honly _ _ _ E).
Qed.

(** X21: the band tables hold 42 bands; asking for more bands raises an
    [IndexError] whatever the spectrum is. *)
Theorem sound_pressure_levels_too_many_bands (freq power : list R) (n : nat) :
  (42 < n)%nat -> _sound_pressure_levels freq power n = Raise IndexError.
Proof.
  intros Hn. unfold _sound_pressure_levels.
  rewrite (for_each_raises_at (band_energy freq power) 42).
  - reflexivity.
  - intros i s e. apply band_energy_raises.
  - intros s. reflexivity.
  - apply in_seq. lia.
Qed.

Lemma sound_pressure_levels_too_many_bands_witness :
  (42 < 43)%nat /\
  _sound_pressure_levels [0; 1; 2] [5; 6; 7] 43 = Raise IndexError.
Proof.
  assert (H : (42 < 43)%nat) by lia.
  split; [exact H|].
  exact (sound_pressure_levels_too_many_bands [0; 1; 2] [5; 6; 7] 43 H).
Defined.

Lemma select_scaled (p : R -> bool) (k : R) :
  forall fr a : list R,
    select p fr (map (fun v => k * v) a) = map (fun v => k * v) (select p fr a).
Proof.
  induction fr as [|f fr IH]; intros a; [reflexivity|].
  destruct a as [|v a]; [reflexivity|].
  cbn [map select]. destruct (p f); cbn [map]; rewrite IH; reflexivity.
Qed.

Lemma trapz_scaled (k : R) :
  forall y x : list R, trapz (map (fun v => k * v) y) x = k * trapz y x.
Proof.
  induction y as [|y0 y IH]; intros x; [cbn [map trapz]; lra|].
  destruct x as [|x0 x]; [cbn [map trapz]; lra|].
  cbn [map trapz]. destruct y as [|y1 y]; [cbn [map]; lra|].
  destruct x as [|x1 x]; [cbn [map]; lra|].
  specialize (IH (x1 :: x)). cbn [map] in IH |- *. rewrite IH. lra.
Qed.

(** X22: the band integration is linear in the power: multiplying every
    power value by [k > 0] multiplies every band energy by [k], and raises
    the level of every band of positive energy by [10 log10(k)] dB. *)
Theorem sound_pressure_levels_scaling (freq power : list R) (n : nat) (k : R) :
  (n <= 42)%nat -> (length freq <= length power)%nat -> 0 < k ->
  exists energy loudness energy' loudness',
    _sound_pressure_levels freq power n = Ok (energy, loudness) /\
    _sound_pressure_levels freq (map (fun v => k * v) power) n
    = Ok (energy', loudness') /\
    forall j, (j < n)%nat ->
      nth j energy' 0 = k * nth j energy 0 /\
      (0 < nth j energy 0 ->
       exists l, nth j loudness None = Some l /\
                 nth j loudness' None = Some (l + 10 * log10 k)).
Proof.
  intros Hn Hlen Hk.
  destruct (sound_pressure_levels_values freq power n Hn Hlen)
    as (energy & loudness & Hrun & _ & _ & Hval).
  destruct (sound_pressure_levels_values freq (map (fun v => k * v) power) n Hn)
    as (energy' & loudness' & Hrun' & _ & _ & Hval');
    [rewrite length_map; exact Hlen|].
  exists energy, loudness, energy', loudness'.
  split; [exact Hrun|]. split; [exact Hrun'|].
  intros j Hj. destruct (Hval j Hj) as [He Hl].
  destruct (Hval' j Hj) as [He' Hl'].
  assert (Hs : nth j energy' 0 = k * nth j energy 0).
  { rewrite He', He, select_scaled, trapz_scaled. unfold Rdiv. ring. }
  split; [exact Hs|]. intros Hpos.
  assert (Hpo : 0 < po ^ 2) by (unfold po; nra).
  assert (Hq : 0 < nth j energy 0 / po ^ 2) by (apply Rdiv_lt_0_compat; lra).
  assert (Hq' : 0 < k * nth j energy 0 / po ^ 2)
    by (apply Rdiv_lt_0_compat; [nra | lra]).
  rewrite Hl, Hl', Hs. unfold finite_log.
  rewrite (flt_true _ _ Hq), (flt_true _ _ Hq'). cbn [option_map].
  eexists. split; [reflexivity|]. f_equal.
  unfold log10.
  replace (k * nth j energy 0 / po ^ 2) with (k * (nth j energy 0 / po ^ 2))
    by (unfold Rdiv; ring).
  rewrite ln_mult by lra.
  assert (Hln10 : 0 < ln 10) by (rewrite <- ln_1; apply ln_increasing; lra).
  field. lra.
Qed.

Lemma sound_pressure_levels_scaling_witness :
  exists energy loudness energy' loudness',
    _sound_pressure_levels [0; 1; 2] [5; 6; 7] 42 = Ok (energy, loudness) /\
    _sound_pressure_levels [0; 1; 2] (map (fun v => 4 * v) [5; 6; 7]) 42
    = Ok (energy', loudness') /\
    nth 0 energy' 0 = 4 * nth 0 energy 0.
Proof.
  destruct (sound_pressure_levels_scaling [0; 1; 2] [5; 6; 7] 42 4)
    as (e & l & e' & l' & H1 & H2 & H3).
  - lia.
  - cbn [length]. lia.
  - lra.
  - exists e, l, e', l'. split; [exact H1|]. split; [exact H2|].
    apply (H3 0%nat). lia.
Defined.

(** ** The merged, sorted spectrum *)

Lemma insert_index_perm (a : list R) (i : nat) :
  forall idx, Permutation (insert_index a i idx) (i :: idx).
Proof.
  induction idx as [|j t IH]; [apply Permutation_refl|].
  cbn [insert_index]. destruct (fle (nth i a 0) (nth j a 0)).
  - apply Permutation_refl.
  - apply Permutation_trans with (j :: i :: t).
    + apply perm_skip. exact IH.
    + apply perm_swap.
Qed.

Lemma insert_index_sorted (a : list R) (i : nat) :
  forall idx,
    nondecreasing (map (fun k => nth k a 0) idx) ->
    nondecreasing (map (fun k => nth k a 0) (insert_index a i idx)).
Proof.
  induction idx as [|j t IH]; intros Hs; [exact I|].
  cbn [insert_index]. unfold fle.
  destruct (Rle_dec (nth i a 0) (nth j a 0)) as [Hle|Hgt].
  - cbn [map]. split; [exact Hle | exact Hs].
  - cbn [map] in Hs |- *.
    destruct (nondecreasing_tail_above _ _ Hs) as [Hall Ht].
    apply nondecreasing_cons; [|apply IH; exact Ht].
    apply all_of_In. intros x Hx. apply in_map_iff in Hx.
    destruct Hx as (k & <- & Hk).
    apply (Permutation_in _ (insert_index_perm a i t)) in Hk.
    destruct Hk as [<-|Hk]; [lra|].
    exact (all_In _ _ Hall (nth k a 0)
             (in_map (fun k => nth k a 0) t k Hk)).
Qed.

(** The insertion argsort meets the contract of [np.argsort]. *)
Lemma insertion_argsort_sorts (a : list R) : sorts (insertion_argsort a) a.
Proof.
  unfold sorts, insertion_argsort.
  induction (seq 0 (length a)) as [|i l IH]; cbn [fold_right].
  - split; [apply Permutation_refl | exact I].
  - destruct IH as [Hp Hs]. split.
    + apply Permutation_trans with (i :: fold_right (insert_index a) [] l).
      * apply insert_index_perm.
      * apply perm_skip. exact Hp.
    + apply insert_index_sorted. exact Hs.
Qed.

Lemma take_indices (a : list R) :
  forall idx : list nat,
    (forall i, In i idx -> (i < length a)%nat) ->
    take a idx = Ok (map (fun i => nth i a 0) idx).
Proof.
  induction idx as [|i idx IH]; intros Hin; [reflexivity|].
  cbn [take map]. rewrite (getitem_nth a i) by (apply Hin; left; reflexivity).
  cbn [bind]. rewrite IH by (intros k Hk; apply Hin; right; exact Hk).
  reflexivity.
Qed.

Lemma sorts_take (idx : list nat) (a b : list R) :
  sorts idx a -> length b = length a ->
  take a idx = Ok (map (fun i => nth i a 0) idx) /\
  take b idx = Ok (map (fun i => nth i b 0) idx) /\
  length idx = length a /\
  (forall x, In x a -> In x (map (fun i => nth i a 0) idx)).
Proof.
  intros [Hp Hs] Hlen.
  assert (Hin : forall i, In i idx -> (i < length a)%nat).
  { intros i Hi. apply (Permutation_in _ Hp) in Hi. apply in_seq in Hi. lia. }
  split; [apply take_indices; exact Hin|].
  split; [apply take_indices; intros i Hi; rewrite Hlen; apply Hin; exact Hi|].
  split; [rewrite (Permutation_length Hp); apply length_seq|].
  intros x Hx. destruct (In_nth a x 0 Hx) as (i & Hi & <-).
  apply in_map_iff. exists i. split; [reflexivity|].
  apply (Permutation_in _ (Permutation_sym Hp)). apply in_seq. lia.
Qed.

Lemma one_sided_defined (freq power : list R) (N : nat) :
  (1 <= N / 2 <= length power)%nat ->
  one_sided freq power N
  = Ok (slice freq 0 (N / 2),
        slice (firstn 1 power
               ++ map (fun v => 2 * v) (slice power 1 (N / 2))
               ++ skipn (N / 2) power) 0 (N / 2)).
Proof.
  intros H. unfold one_sided.
  rewrite assign_slice_inside; [reflexivity | lia |].
  rewrite length_map, length_slice; lia.
Qed.

Lemma interp_freq_members (j : nat) :
  (j < 42)%nat ->
  In (nth j BAND_LOWER_LIMITS 0)
     (BAND_LOWER_LIMITS ++ [last BAND_UPPER_LIMITS 0]) /\
  In (nth j BAND_UPPER_LIMITS 0)
     (BAND_LOWER_LIMITS ++ [last BAND_UPPER_LIMITS 0]).
Proof.
  intros Hj. split.
  - apply in_or_app. left. apply nth_In. exact Hj.
  - destruct (Nat.eq_dec j 41) as [->|Hne].
    + apply in_or_app. right. left. reflexivity.
    + apply in_or_app. left.
      replace (nth j BAND_UPPER_LIMITS 0) with (nth (S j) BAND_LOWER_LIMITS 0).
      * apply nth_In. change (length BAND_LOWER_LIMITS) with 42%nat. lia.
      * rewrite <- (firstn_skipn 1 BAND_LOWER_LIMITS) at 1.
        rewrite app_nth2 by (cbn [length firstn BAND_LOWER_LIMITS]; lia).
        rewrite band_limits_partition.
        replace (S j - length (firstn 1 BAND_LOWER_LIMITS))%nat with j
          by (cbn [length firstn BAND_LOWER_LIMITS]; lia).
        rewrite nth_firstn. rewrite (proj2 (Nat.ltb_lt j 41)) by lia.
        reflexivity.
Qed.

(** The merged spectrum of [_power_interp]. *)
Lemma power_interp_merged
  (argsort : list R -> list nat) (freq power : list R) (N : nat) :
  (forall a, sorts (argsort a) a) ->
  (1 <= N / 2)%nat -> (N / 2 <= length freq)%nat ->
  (N / 2 <= length power)%nat ->
  let fos := slice freq 0 (N / 2) in
  let pos := slice (firstn 1 power
                    ++ map (fun v => 2 * v) (slice power 1 (N / 2))
                    ++ skipn (N / 2) power) 0 (N / 2) in
  let interp_freq := BAND_LOWER_LIMITS ++ [last BAND_UPPER_LIMITS 0] in
  let full_freq := fos ++ interp_freq in
  let full_power := pos ++ interp interp_freq fos pos (hd 0 pos) (last pos 0) in
  let idx := argsort full_freq in
  _power_interp argsort freq power N
  = Ok (map (fun i => nth i full_freq 0) idx,
        map (fun i => nth i full_power 0) idx) /\
  length fos = (N / 2)%nat /\
  length pos = (N / 2)%nat /\
  length full_power = length full_freq /\
  length full_freq = (N / 2 + 43)%nat /\
  length idx = (N / 2 + 43)%nat.
Proof.
  intros Hsort H1 Hf Hp fos pos interp_freq full_freq full_power idx.
  assert (Lf : length fos = (N / 2)%nat)
    by (unfold fos; rewrite length_slice; lia).
  assert (Lp : length pos = (N / 2)%nat).
  { unfold pos. rewrite length_slice; [lia|].
    rewrite !length_app, length_firstn, length_map, length_slice, length_skipn
      by lia. lia. }
  assert (Lif : length interp_freq = 43%nat) by reflexivity.
  assert (Lff : length full_freq = (N / 2 + 43)%nat)
    by (unfold full_freq; rewrite length_app, Lf, Lif; reflexivity).
  assert (Lfp : length full_power = length full_freq).
  { unfold full_power, interp. rewrite length_app, length_map, Lp, Lif, Lff.
    reflexivity. }
  destruct (sorts_take idx full_freq full_power (Hsort full_freq) Lfp)
    as (Ht1 & Ht2 & Li & _).
  split; [|repeat split; try assumption; congruence].
  unfold _power_interp. rewrite one_sided_defined by lia.
  cbn [bind fst snd]. fold fos pos.
  change (getlast BAND_UPPER_LIMITS) with (Ok (last BAND_UPPER_LIMITS 0)).
  cbn [bind]. fold interp_freq. unfold interp_default.
  rewrite Lf, Lp, Nat.eqb_refl.
  rewrite (proj2 (Nat.eqb_neq (N / 2) 0)) by lia. cbn [negb bind].
  fold full_freq full_power idx. rewrite Ht1. cbn [bind]. rewrite Ht2.
  reflexivity.
Qed.

(** X23: [_power_interp] with at least one retained bin.  For every
    argsort that sorts, the merged spectrum has [N/2 + 43] points, its
    frequencies are in non-decreasing order, and it contains every
    retained frequency bin and every band limit: the 42 lower limits and
    the 42 upper limits. *)
Theorem power_interp_spectrum
  (argsort : list R -> list nat) (freq power : list R) (N : nat) :
  (forall a, sorts (argsort a) a) ->
  (1 <= N / 2)%nat -> (N / 2 <= length freq)%nat ->
  (N / 2 <= length power)%nat ->
  exists freq_one power_one,
    _power_interp argsort freq power N = Ok (freq_one, power_one) /\
    length freq_one = (N / 2 + 43)%nat /\
    length power_one = (N / 2 + 43)%nat /\
    nondecreasing freq_one /\
    (forall k, (k < N / 2)%nat -> In (nth k freq 0) freq_one) /\
    (forall j, (j < 42)%nat ->
       In (nth j BAND_LOWER_LIMITS 0) freq_one /\
       In (nth j BAND_UPPER_LIMITS 0) freq_one).
Proof.
  intros Hsort H1 Hf Hp.
  destruct (power_interp_merged argsort freq power N Hsort H1 Hf Hp)
    as (Hrun & Lf & Lp & Lfp & Lff & Li).
  cbv zeta in Hrun, Lf, Lp, Lfp, Lff, Li.
  set (fos := slice freq 0 (N / 2)) in *.
  set (interp_freq := BAND_LOWER_LIMITS ++ [last BAND_UPPER_LIMITS 0]) in *.
  set (full_freq := fos ++ interp_freq) in *.
  eexists. eexists. split; [exact Hrun|].
  destruct (Hsort full_freq) as [Hperm Hsorted].
  assert (Hcover : forall x, In x full_freq ->
                   In x (map (fun i => nth i full_freq 0) (argsort full_freq))).
  { intros x Hx. destruct (In_nth full_freq x 0 Hx) as (i & Hi & <-).
    apply in_map_iff. exists i. split; [reflexivity|].
    apply (Permutation_in _ (Permutation_sym Hperm)). apply in_seq. lia. }
  split; [rewrite length_map; exact Li|].
  split; [rewrite length_map; exact Li|].
  split; [exact Hsorted|]. split.
  - intros k Hk. apply Hcover. unfold full_freq. apply in_or_app. left.
    replace (nth k freq 0) with (nth k fos 0).
    + apply nth_In. lia.
    + unfold fos. rewrite nth_slice by lia. reflexivity.
  - intros j Hj. destruct (interp_freq_members j Hj) as [Hlo Hhi].
    split; apply Hcover; unfold full_freq; apply in_or_app; right; assumption.
Qed.

Lemma power_interp_spectrum_witness :
  exists freq_one power_one,
    _power_interp insertion_argsort [0; 5; -5] [1; 2; 3] 3
    = Ok (freq_one, power_one) /\
    length freq_one = (3 / 2 + 43)%nat.
Proof.
  destruct (power_interp_spectrum insertion_argsort [0; 5; -5] [1; 2; 3] 3)
    as (f & p & Hrun & Hlen & _).
  - exact insertion_argsort_sorts.
  - cbn. lia.
  - cbn. lia.
  - cbn. lia.
  - exists f, p. split; [exact Hrun | exact Hlen].
Defined.

(** X24: the spectrum cannot be computed from an empty time sequence
    ([IndexError]) nor, given times, from fewer than two pressure samples
    ([ValueError]: the Fourier transform refuses an empty array, and the
    interpolation at the band limits an empty spectrum), whatever the
    argsort. *)
Theorem power_spectrum_errors
  (argsort : list R -> list nat) (time pressure : list R) :
  (time = [] -> _power_spectrum argsort time pressure = Raise IndexError) /\
  (time <> [] -> (length pressure < 2)%nat ->
   _power_spectrum argsort time pressure = Raise ValueError).
Proof.
  split.
  - intros ->. reflexivity.
  - intros Ht Hn. unfold _power_spectrum, two_sided, time_step.
    destruct time as [|t0 time]; [congruence|].
    cbn [getlast getitem nth_error bind].
    destruct pressure as [|p0 [|p1 pressure]]; [reflexivity | | cbn [length] in Hn; lia].
    cbn [fft length seq map bind]. unfold _power_interp, one_sided.
    cbn [Nat.div Nat.divmod fst]. unfold assign_slice, slice, interp_default.
    cbn. reflexivity.
Qed.

Lemma power_spectrum_errors_witness :
  [0; 1] <> [] /\
  _power_spectrum insertion_argsort [0; 1] [7] = Raise ValueError.
Proof.
  assert (H : [0; 1] <> []) by discriminate.
  split; [exact H|].
  apply (proj2 (power_spectrum_errors insertion_argsort [0; 1] [7]) H).
  cbn [length]. lia.
Defined.

(** ** From the spectrum to the band energies *)

Lemma In_firstn (n : nat) (l : list R) (x : R) : In x (firstn n l) -> In x l.
Proof.
  intros H. rewrite <- (firstn_skipn n l). apply in_or_app. left. exact H.
Qed.

Lemma In_skipn (n : nat) (l : list R) (x : R) : In x (skipn n l) -> In x l.
Proof.
  intros H. rewrite <- (firstn_skipn n l). apply in_or_app. right. exact H.
Qed.

Lemma In_slice (l : list R) (a b : nat) (x : R) : In x (slice l a b) -> In x l.
Proof. unfold slice. intros H. apply In_firstn in H. apply In_skipn in H. exact H. Qed.

Lemma increasing_of_nth :
  forall l : list R,
    (forall k, (S k < length l)%nat -> nth k l 0 < nth (S k) l 0) ->
    increasing l.
Proof.
  induction l as [|a t IH]; intros H; [exact I|].
  destruct t as [|b t']; [exact I|]. split.
  - apply (H 0%nat). cbn [length]. lia.
  - apply IH. intros k Hk. apply (H (S k)). cbn [length] in *. lia.
Qed.

Lemma filter_two (p : R -> bool) (x y : R) :
  forall l : list R,
    x <> y -> In x l -> In y l -> p x = true -> p y = true ->
    (2 <= length (filter p l))%nat.
Proof.
  intros l Hxy Hx Hy Px Py.
  assert (Hfx : In x (filter p l)) by (apply filter_In; tauto).
  assert (Hfy : In y (filter p l)) by (apply filter_In; tauto).
  destruct (filter p l) as [|a [|b t]]; cbn [length]; [contradiction | | lia].
  destruct Hfx as [<-|[]]. destruct Hfy as [Heq|[]]. congruence.
Qed.

Lemma band_limits_ordered (j : nat) :
  (j < 42)%nat -> nth j BAND_LOWER_LIMITS 0 < nth j BAND_UPPER_LIMITS 0.
Proof.
  intros Hj.
  do 42 (destruct j as [|j];
         [cbn [nth BAND_LOWER_LIMITS BAND_UPPER_LIMITS]; lra|]).
  lia.
Qed.

Lemma in_band_limits (j : nat) :
  (j < 42)%nat ->
  in_band j (nth j BAND_LOWER_LIMITS 0) = true /\
  in_band j (nth j BAND_UPPER_LIMITS 0) = true.
Proof.
  intros Hj. pose proof (band_limits_ordered j Hj) as H.
  unfold in_band. split.
  - rewrite !fle_true by lra. reflexivity.
  - rewrite !fle_true by lra. reflexivity.
Qed.

Lemma two_sided_defined (time pressure : list R) :
  (1 <= length pressure)%nat -> time <> [] ->
  let N := length pressure in
  let dt := (last time 0 - nth 0 time 0) / INR N * 0.001 in
  exists FFT,
    length FFT = N /\
    two_sided time pressure
    = Ok (map (fun v => v / dt) (fftfreq N),
          map (fun z => cabs z ^ 2 * dt ^ 2) FFT, N).
Proof.
  intros Hn Ht N dt. unfold two_sided, time_step.
  destruct time as [|t0 rest]; [congruence|].
  cbn [getlast getitem nth_error bind nth]. fold N. fold dt.
  destruct pressure as [|p0 pressure]; [cbn [length] in Hn; lia|].
  eexists. split; [|cbn [fft bind]; reflexivity].
  rewrite length_map, length_seq. reflexivity.
Qed.

(** The merged spectrum of a signal whose times end after they start. *)
Lemma power_spectrum_structure
  (argsort : list R -> list nat) (time pressure : list R) :
  (forall a, sorts (argsort a) a) ->
  (2 <= length pressure)%nat -> nth 0 time 0 < last time 0 ->
  exists freq power,
    _power_spectrum argsort time pressure = Ok (freq, power) /\
    length freq = (length pressure / 2 + 43)%nat /\
    length power = length freq /\
    nondecreasing freq /\
    all (fun v => 0 <= v) power /\
    (forall j, (j < 42)%nat ->
       In (nth j BAND_LOWER_LIMITS 0) freq /\
       In (nth j BAND_UPPER_LIMITS 0) freq).
Proof.
  intros Hsort Hn Htime.
  assert (Hne : time <> []) by (intros ->; cbn [nth last] in Htime; lra).
  destruct (two_sided_defined time pressure ltac:(lia) Hne) as (FFT & HlF & Htwo).
  cbv zeta in Htwo.
  set (N := length pressure) in *.
  assert (HN : 0 < INR N) by (apply lt_0_INR; unfold N; lia).
  set (dt := (last time 0 - nth 0 time 0) / INR N * 0.001) in *.
  assert (Hdt : 0 < dt).
  { unfold dt. apply Rmult_lt_0_compat; [|lra].
    apply Rdiv_lt_0_compat; lra. }
  set (freqs := map (fun v => v / dt) (fftfreq N)) in *.
  set (P := map (fun z => cabs z ^ 2 * dt ^ 2) FFT) in *.
  assert (Hlfreqs : length freqs = N).
  { unfold freqs. rewrite length_map. apply length_fftfreq. unfold N. lia. }
  assert (HlP : length P = N) by (unfold P; rewrite length_map; exact HlF).
  assert (Hhalf : (1 <= N / 2 <= N)%nat).
  { split.
    - apply Nat.div_le_lower_bound; unfold N; lia.
    - apply Nat.Div0.div_le_upper_bound; lia. }
  destruct (power_interp_merged argsort freqs P N Hsort)
    as (Hrun & Lf & Lp & Lfp & Lff & Li); [lia | lia | lia |].
  cbv zeta in Hrun, Lf, Lp, Lfp, Lff, Li.
  set (fos := slice freqs 0 (N / 2)) in *.
  set (pos := slice (firstn 1 P ++ map (fun v => 2 * v) (slice P 1 (N / 2))
                     ++ skipn (N / 2) P) 0 (N / 2)) in *.
  set (interp_freq := BAND_LOWER_LIMITS ++ [last BAND_UPPER_LIMITS 0]) in *.
  set (full_freq := fos ++ interp_freq) in *.
  set (full_power := pos ++ interp interp_freq fos pos (hd 0 pos) (last pos 0)) in *.
  set (idx := argsort full_freq) in *.
  set (freq_one := map (fun i => nth i full_freq 0) idx) in *.
  set (power_one := map (fun i => nth i full_power 0) idx) in *.
  destruct (Hsort full_freq) as [Hperm Hsorted]. fold idx in Hperm, Hsorted.
  assert (HPpos : forall x, In x P -> 0 <= x).
  { intros x Hx. unfold P in Hx. apply in_map_iff in Hx.
    destruct Hx as (z & <- & _).
    apply Rmult_le_pos; apply pow2_ge_0. }
  assert (Hpos_pos : all (fun v => 0 <= v) pos).
  { apply all_of_In. intros x Hx. unfold pos in Hx. apply In_slice in Hx.
    apply in_app_or in Hx. destruct Hx as [Hx|Hx].
    - apply HPpos. exact (In_firstn _ _ _ Hx).
    - apply in_app_or in Hx. destruct Hx as [Hx|Hx].
      + apply in_map_iff in Hx. destruct Hx as (v & <- & Hv).
        apply In_slice in Hv. pose proof (HPpos v Hv). lra.
      + apply HPpos. exact (In_skipn _ _ _ Hx). }
  assert (Hfos_inc : increasing fos).
  { apply increasing_of_nth. intros k Hk. rewrite Lf in Hk.
    unfold fos. rewrite !nth_slice by lia. cbn [Nat.add]. unfold freqs.
    rewrite !(nth_map_R _ (fun v => v / dt) (fftfreq N) 0)
      by (rewrite length_fftfreq; unfold N in *; lia).
    assert (Hb : (N / 2 <= (N - 1) / 2 + 1)%nat).
    { pose proof (Nat.div_mod_eq N 2). pose proof (Nat.div_mod_eq (N - 1) 2).
      pose proof (Nat.mod_upper_bound N 2). pose proof (Nat.mod_upper_bound (N - 1) 2).
      lia. }
    rewrite !nth_fftfreq by lia. rewrite S_INR.
    assert (Hinv : 0 < 1 / INR N / dt).
    { apply Rdiv_lt_0_compat; [apply Rdiv_lt_0_compat; lra | exact Hdt]. }
    unfold Rdiv in *. nra. }
  assert (Hpos_ne : pos <> []).
  { intros E. rewrite E in Lp. cbn [length] in Lp. lia. }
  assert (Hfull_pos : forall i, 0 <= nth i full_power 0).
  { intros i. destruct (Nat.lt_ge_cases i (length full_power)) as [Hi|Hi].
    - assert (Hall : all (fun v => 0 <= v) full_power).
      { apply all_of_In. intros x Hx. unfold full_power in Hx.
        apply in_app_or in Hx. destruct Hx as [Hx|Hx].
        - exact (all_In _ _ Hpos_pos x Hx).
        - refine (all_In _ _ (all_map_interp1 interp_freq fos pos _ _
                                Hfos_inc Hpos_pos _ _) x Hx).
          + destruct pos as [|v t]; [congruence|]. exact (proj1 Hpos_pos).
          + apply (all_In _ _ Hpos_pos). rewrite <- nth_pred_last.
            apply nth_In. lia. }
      apply (all_In _ _ Hall). apply nth_In. exact Hi.
    - rewrite nth_overflow by exact Hi. lra. }
  assert (Hspec : _power_spectrum argsort time pressure = Ok (freq_one, power_one)).
  { unfold _power_spectrum. rewrite Htwo. cbn [bind]. exact Hrun. }
  assert (Hlf1 : length freq_one = (N / 2 + 43)%nat)
    by (unfold freq_one; rewrite length_map; exact Li).
  assert (Hlp1 : length power_one = (N / 2 + 43)%nat)
    by (unfold power_one; rewrite length_map; exact Li).
  exists freq_one, power_one.
  split; [exact Hspec|]. split; [exact Hlf1|]. split; [lia|].
  split; [exact Hsorted|]. split.
  - apply all_of_In. intros x Hx. unfold power_one in Hx.
    apply in_map_iff in Hx. destruct Hx as (i & <- & _). apply Hfull_pos.
  - intros j Hj. destruct (interp_freq_members j Hj) as [Hlo Hhi].
    split; unfold freq_one; apply in_map_iff.
    + assert (Hxf : In (nth j BAND_LOWER_LIMITS 0) full_freq)
        by (unfold full_freq; apply in_or_app; right; exact Hlo).
      destruct (In_nth full_freq _ 0 Hxf) as (i & Hi & E).
      exists i. split; [exact E|].
      apply (Permutation_in _ (Permutation_sym Hperm)). apply in_seq. lia.
    + assert (Hxf : In (nth j BAND_UPPER_LIMITS 0) full_freq)
        by (unfold full_freq; apply in_or_app; right; exact Hhi).
      destruct (In_nth full_freq _ 0 Hxf) as (i & Hi & E).
      exists i. split; [exact E|].
      apply (Permutation_in _ (Permutation_sym Hperm)). apply in_seq. lia.
Qed.

(** The band integration of a sorted, non-negative spectrum that holds
    every band limit. *)
Lemma band_integration_of_spectrum (freq power : list R) :
  length power = length freq ->
  nondecreasing freq ->
  all (fun v => 0 <= v) power ->
  (forall j, (j < 42)%nat ->
     In (nth j BAND_LOWER_LIMITS 0) freq /\
     In (nth j BAND_UPPER_LIMITS 0) freq) ->
  exists energy loudness,
    _sound_pressure_levels freq power n_bins = Ok (energy, loudness) /\
    length energy = 42%nat /\
    length loudness = 42%nat /\
    (forall j, (j < 42)%nat -> (2 <= length (filter (in_band j) freq))%nat) /\
    (forall j, 0 <= nth j energy 0).
Proof.
  intros Hlen Hsorted Hpos Hcover.
  destruct (sound_pressure_levels_values freq power n_bins)
    as (energy & loudness & Hspl & Hle & Hll & Hval);
    [unfold n_bins; cbn [length BAND_CENTERS]; lia | lia |].
  exists energy, loudness.
  split; [exact Hspl|]. split; [exact Hle|]. split; [exact Hll|]. split.
  - intros j Hj. destruct (Hcover j Hj) as [Hlo Hhi].
    destruct (in_band_limits j Hj) as [Plo Phi].
    pose proof (band_limits_ordered j Hj) as Hord.
    apply (filter_two (in_band j) (nth j BAND_LOWER_LIMITS 0)
             (nth j BAND_UPPER_LIMITS 0)); try assumption. lra.
  - intros j. destruct (Nat.lt_ge_cases j n_bins) as [Hj|Hj].
    + destruct (Hval j Hj) as [He _]. rewrite He.
      apply Rle_mult_inv_pos; [|unfold t_crit; lra].
      apply trapz_nonneg.
      * apply select_all. exact Hpos.
      * rewrite select_filter. apply filter_nondecreasing. exact Hsorted.
    + rewrite nth_overflow by lia. lra.
Qed.

(** X25: the spectrum followed by the band integration.  For times that
    end after they start, at least two pressure samples and an argsort
    that sorts, the merged spectrum feeds the band integration without
    error: every one of the 42 bands holds at least two spectrum points
    (its two limits), and no band energy is negative. *)
Theorem spectrum_feeds_band_integration
  (argsort : list R -> list nat) (time pressure : list R) :
  (forall a, sorts (argsort a) a) ->
  (2 <= length pressure)%nat -> nth 0 time 0 < last time 0 ->
  exists freq power energy loudness,
    _power_spectrum argsort time pressure = Ok (freq, power) /\
    _sound_pressure_levels freq power n_bins = Ok (energy, loudness) /\
    length energy = 42%nat /\
    (forall j, (j < 42)%nat -> (2 <= length (filter (in_band j) freq))%nat) /\
    (forall j, 0 <= nth j energy 0).
Proof.
  intros Hsort Hn Htime.
  destruct (power_spectrum_structure argsort time pressure Hsort Hn Htime)
    as (freq & power & Hspec & _ & Hlen & Hsorted & Hpos & Hcover).
  destruct (band_integration_of_spectrum freq power Hlen Hsorted Hpos Hcover)
    as (energy & loudness & Hspl & Hle & _ & Htwo & Hnonneg).
  exists freq, power, energy, loudness.
  split; [exact Hspec|]. split; [exact Hspl|]. split; [exact Hle|].
  split; [exact Htwo | exact Hnonneg].
Qed.

Lemma spectrum_feeds_band_integration_witness :
  exists freq power energy loudness,
    _power_spectrum insertion_argsort [0; 1; 2; 3] [1; 2; 3; 4]
    = Ok (freq, power) /\
    _sound_pressure_levels freq power n_bins = Ok (energy, loudness) /\
    length energy = 42%nat.
Proof.
  destruct (spectrum_feeds_band_integration insertion_argsort
              [0; 1; 2; 3] [1; 2; 3; 4])
    as (f & p & e & l & H1 & H2 & H3 & _).
  - exact insertion_argsort_sorts.
  - cbn [length]. lia.
  - cbn [nth last]. lra.
  - exists f, p, e, l. split; [exact H1|]. split; [exact H2 | exact H3].
Defined.

(** ** The pipeline up to the band levels *)

(** X26: the window is applied first and is never checked against the
    signal, so the whole calculation stops with a [ValueError] when the
    window half-length exceeds the number of pressure samples, as the
    default 800 does for a shorter signal, and when it is 0; this holds
    for every time sequence, padding and argsort. *)
Theorem perceivedloudness_window_errors
  (argsort : list R -> list nat) (time pressure : list R)
  (pad_front pad_rear len_window : nat) :
  (1 <= length pressure)%nat ->
  (len_window = 0%nat \/ (length pressure < len_window)%nat) ->
  perceivedloudness_levels argsort time pressure pad_front pad_rear len_window
  = Raise ValueError.
Proof.
  intros Hn Hw. unfold perceivedloudness_levels.
  assert (E : _window pressure len_window = Raise ValueError).
  { destruct Hw as [->|Hw].
    - apply window_zero_raises. exact Hn.
    - apply window_too_long. lia. }
  rewrite E. reflexivity.
Qed.

Lemma perceivedloudness_window_errors_witness :
  perceivedloudness_levels insertion_argsort [0; 1; 2] [5; 6; 7] 1 1 800
  = Raise ValueError.
Proof.
  apply perceivedloudness_window_errors.
  - cbn [length]. lia.
  - right. cbn [length]. lia.
Defined.

(** The stages of the pipeline on a signal of the documented domain. *)
Lemma levels_reached
  (argsort : list R -> list nat) (time pressure : list R)
  (pad_front pad_rear len_window : nat) (dt : R) :
  (forall a, sorts (argsort a) a) ->
  uniform dt time -> 0 < dt ->
  (2 <= length time)%nat -> length pressure = length time ->
  (1 <= len_window <= length pressure)%nat ->
  (1 <= pad_front)%nat -> (1 <= pad_rear)%nat ->
  exists energy loudness,
    perceivedloudness_levels argsort time pressure pad_front pad_rear len_window
    = Ok (energy, loudness) /\
    length energy = 42%nat /\
    length loudness = 42%nat /\
    forall j, 0 <= nth j energy 0.
Proof.
  intros Hsort Hu Hdt Hn Hlen Hw Hpf Hpr.
  unfold perceivedloudness_levels.
  destruct (window_defined pressure len_window Hw)
    as (_ & pw & _ & _ & _ & Hlpw & Hwin).
  rewrite Hwin. cbn [bind].
  set (f := (length pressure * pad_front)%nat).
  set (r := (length pressure * pad_rear)%nat).
  assert (Hf : (2 <= f)%nat) by (unfold f; nia).
  assert (Hr : (2 <= r)%nat) by (unfold r; nia).
  destruct (padded_time_ends time pw f r dt Hn Hu ltac:(lia) Hr)
    as (px & Hpad & Hlpx & Hfirst & Hlast).
  rewrite Hpad. cbn [bind fst snd].
  assert (Hlpy : (2 <= length (pad pw f r))%nat).
  { unfold pad, zeros. rewrite !length_app, !repeat_length. lia. }
  assert (Hends : nth 0 px 0 < last px 0).
  { rewrite Hlast, Hfirst.
    assert (0 < INR (length px - 1)) by (apply lt_0_INR; lia). nra. }
  destruct (power_spectrum_structure argsort px (pad pw f r) Hsort Hlpy Hends)
    as (freq & power & Hspec & _ & Hl & Hsorted & Hpos & Hcover).
  rewrite Hspec. cbn [bind fst snd].
  destruct (band_integration_of_spectrum freq power Hl Hsorted Hpos Hcover)
    as (energy & loudness & Hspl & Hle & Hll & _ & Hnonneg).
  exists energy, loudness.
  split; [exact Hspl|]. split; [exact Hle|]. split; [exact Hll | exact Hnonneg].
Qed.

(** X27: for a signal in the documented domain, that is times uniformly
    spaced by [dt > 0], as many pressure samples as times (at least two), a
    window that fits, padding factors of at least one and an argsort that
    sorts, the pipeline reaches the band levels without error and returns
    42 band energies, none negative, and 42 levels. *)
Theorem perceivedloudness_levels_defined
  (argsort : list R -> list nat) (time pressure : list R)
  (pad_front pad_rear len_window : nat) (dt : R) :
  (forall a, sorts (argsort a) a) ->
  uniform dt time -> 0 < dt ->
  (2 <= length time)%nat -> length pressure = length time ->
  (1 <= len_window <= length pressure)%nat ->
  (1 <= pad_front)%nat -> (1 <= pad_rear)%nat ->
  exists energy loudness,
    perceivedloudness_levels argsort time pressure pad_front pad_rear len_window
    = Ok (energy, loudness) /\
    length energy = 42%nat /\
    length loudness = 42%nat /\
    forall j, 0 <= nth j energy 0.
Proof.
  exact (levels_reached argsort time pressure pad_front pad_rear len_window dt).
Qed.

Lemma perceivedloudness_levels_defined_witness :
  exists energy loudness,
    perceivedloudness_levels insertion_argsort [0; 1; 2] [5; 6; 7] 1 1 1
    = Ok (energy, loudness) /\
    length energy = 42%nat.
Proof.
  destruct (perceivedloudness_levels_defined insertion_argsort
              [0; 1; 2] [5; 6; 7] 1 1 1 1)
    as (e & l & Hrun & Hlen & _).
  - exact insertion_argsort_sorts.
  - cbn [uniform]. repeat split; lra.
  - lra.
  - cbn [length]. lia.
  - reflexivity.
  - cbn [length]. lia.
  - lia.
  - lia.
  - exists e, l. split; [exact Hrun | exact Hlen].
Defined.

(** ** Scaling the pressure amplitude *)

Lemma total_map_scaled (A : Type) (c : R) (g : A -> R) (l : list A) :
  total (map (fun m => c * g m) l) = c * total (map g l).
Proof.
  induction l as [|x t IH]; cbn [map total]; [lra | rewrite IH; lra].
Qed.

Lemma nth_scaled (c : R) (l : list R) (k : nat) :
  nth k (map (fun v => c * v) l) 0 = c * nth k l 0.
Proof.
  destruct (Nat.lt_ge_cases k (length l)) as [H|H].
  - apply (nth_map_R _ (fun v => c * v) l 0 k H).
  - rewrite !nth_overflow by (rewrite ?length_map; exact H). lra.
Qed.

Lemma dft_re_scaled (c : R) (p : list R) (k : nat) :
  dft_re (map (fun v => c * v) p) k = c * dft_re p k.
Proof.
  unfold dft_re. rewrite length_map, !pysum_total.
  rewrite <- total_map_scaled. f_equal. apply map_ext. intros m.
  rewrite nth_scaled. ring.
Qed.

Lemma dft_im_scaled (c : R) (p : list R) (k : nat) :
  dft_im (map (fun v => c * v) p) k = c * dft_im p k.
Proof.
  unfold dft_im. rewrite length_map, !pysum_total.
  rewrite <- total_map_scaled. f_equal. apply map_ext. intros m.
  rewrite nth_scaled. ring.
Qed.

Lemma cabs_scaled (c x y : R) :
  cabs (c * x, c * y) ^ 2 = c ^ 2 * cabs (x, y) ^ 2.
Proof.
  unfold cabs. cbn [fst snd].
  rewrite !pow2_sqrt by nra. ring.
Qed.

Lemma map_scaled_zeros (c : R) (n : nat) :
  map (fun v => c * v) (zeros n) = zeros n.
Proof.
  unfold zeros. induction n as [|n IH]; [reflexivity|].
  cbn [repeat map]. rewrite IH. f_equal. lra.
Qed.

Lemma hd_scaled (c : R) (l : list R) :
  hd 0 (map (fun v => c * v) l) = c * hd 0 l.
Proof. destruct l; cbn [map hd]; lra. Qed.

Lemma last_scaled (c : R) (l : list R) :
  last (map (fun v => c * v) l) 0 = c * last l 0.
Proof.
  induction l as [|a t IH]; [cbn [map last]; lra|].
  destruct t as [|b t']; [reflexivity|].
  change (last (map (fun v => c * v) (a :: b :: t')) 0)
    with (last (map (fun v => c * v) (b :: t')) 0).
  exact IH.
Qed.

Lemma slice_scaled (c : R) (l : list R) (a b : nat) :
  slice (map (fun v => c * v) l) a b = map (fun v => c * v) (slice l a b).
Proof. unfold slice. rewrite skipn_map, firstn_map. reflexivity. Qed.

Lemma interp_seg_scaled (c x : R) :
  forall xp fp : list R,
    interp_seg x xp (map (fun v => c * v) fp) = c * interp_seg x xp fp.
Proof.
  induction xp as [|x0 xp IH]; intros fp; cbn [interp_seg]; [lra|].
  destruct fp as [|f0 fp]; cbn [map]; [lra|].
  destruct xp as [|x1 xp]; [reflexivity|].
  destruct fp as [|f1 fp]; cbn [map]; [reflexivity|].
  destruct (Rlt_dec x x1).
  - destruct (Req_dec_T x x0); [reflexivity|]. unfold Rdiv. ring.
  - exact (IH (f1 :: fp)).
Qed.

Lemma interp_scaled (c : R) (xs xp fp : list R) :
  interp xs xp (map (fun v => c * v) fp)
    (hd 0 (map (fun v => c * v) fp)) (last (map (fun v => c * v) fp) 0)
  = map (fun v => c * v) (interp xs xp fp (hd 0 fp) (last fp 0)).
Proof.
  unfold interp. rewrite map_map. apply map_ext. intros x.
  unfold interp1. rewrite hd_scaled, last_scaled, interp_seg_scaled.
  destruct (Rlt_dec x (hd 0 xp)); [reflexivity|].
  destruct (Rlt_dec (last xp 0) x); reflexivity.
Qed.

Lemma take_scaled (c : R) (a : list R) :
  forall (idx : list nat) (r : list R),
    take a idx = Ok r ->
    take (map (fun v => c * v) a) idx = Ok (map (fun v => c * v) r).
Proof.
  induction idx as [|i idx IH]; intros r; cbn [take].
  - intros [= <-]. reflexivity.
  - unfold getitem. rewrite nth_error_map.
    destruct (nth_error a i) as [v|]; cbn [option_map bind]; [|discriminate].
    destruct (take a idx) as [r'|e]; cbn [bind]; [|discriminate].
    intros [= <-]. rewrite (IH r' eq_refl). reflexivity.
Qed.

Lemma take_length (a : list R) :
  forall (idx : list nat) (r : list R),
    take a idx = Ok r -> length r = length idx.
Proof.
  induction idx as [|i idx IH]; intros r; cbn [take].
  - intros [= <-]. reflexivity.
  - destruct (getitem a i); cbn [bind]; [|discriminate].
    destruct (take a idx) as [r'|e]; cbn [bind]; [|discriminate].
    intros [= <-]. cbn [length]. rewrite (IH r' eq_refl). reflexivity.
Qed.

Lemma imul_slice_scaled (c : R) (a b : list R) (start stop : nat) :
  imul_slice (map (fun v => c * v) a) start stop b
  = match imul_slice a start stop b with
    | Ok r => Ok (map (fun v => c * v) r)
    | Raise e => Raise e
    end.
Proof.
  unfold imul_slice. rewrite !length_map.
  rewrite !skipn_map, !firstn_map, ?length_map.
  destruct (length b =? _)%nat.
  - f_equal. rewrite !map_app. f_equal. f_equal.
    set (t := firstn _ (skipn _ a)). clearbody t. revert b.
    induction t as [|x t IH]; intros b; [reflexivity|].
    destruct b as [|y b]; [reflexivity|].
    cbn [map combine fst snd]. rewrite IH. f_equal. ring.
  - destruct (length b =? 1)%nat; [|reflexivity].
    f_equal. rewrite !map_app, !map_map. f_equal. f_equal.
    apply map_ext. intros v. ring.
Qed.

Lemma window_scaled (c : R) (dataset : list R) (len_window : nat) :
  _window (map (fun v => c * v) dataset) len_window
  = match _window dataset len_window with
    | Ok r => Ok (map (fun v => c * v) r)
    | Raise e => Raise e
    end.
Proof.
  unfold _window. rewrite imul_slice_scaled.
  destruct (imul_slice dataset 0 len_window _) as [w1|e]; [|reflexivity].
  cbn [bind]. rewrite length_map, imul_slice_scaled.
  destruct (imul_slice w1 _ _ _) as [w2|e]; reflexivity.
Qed.

Lemma pad_scaled (c : R) (y : list R) (f r : nat) :
  pad (map (fun v => c * v) y) f r = map (fun v => c * v) (pad y f r).
Proof.
  unfold pad. rewrite !map_app, !map_scaled_zeros. reflexivity.
Qed.

Lemma padding_scaled (c : R) (x_var y_var : list R) (f_pad r_pad : nat) :
  _padding x_var (map (fun v => c * v) y_var) f_pad r_pad
  = match _padding x_var y_var f_pad r_pad with
    | Ok padded => Ok (fst padded, map (fun v => c * v) (snd padded))
    | Raise e => Raise e
    end.
Proof.
  unfold _padding. rewrite pad_scaled.
  destruct (getitem x_var 1) as [x1|e]; [|reflexivity]. cbn [bind].
  destruct (getitem x_var 0) as [x0|e]; [|reflexivity]. cbn [bind].
  destruct (getlast x_var) as [xl|e]; [|reflexivity]. cbn [bind].
  destruct (assign_slice _ 0 _ _) as [p1|e]; [|reflexivity]. cbn [bind].
  destruct (assign_slice p1 _ _ _) as [p2|e]; [|reflexivity]. cbn [bind].
  destruct (assign_slice p2 _ _ _) as [p3|e]; reflexivity.
Qed.

Lemma assign_slice_scaled (c : R) (a b : list R) (start stop : nat) :
  assign_slice (map (fun v => c * v) a) start stop (map (fun v => c * v) b)
  = match assign_slice a start stop b with
    | Ok r => Ok (map (fun v => c * v) r)
    | Raise e => Raise e
    end.
Proof.
  unfold assign_slice. rewrite !length_map, !skipn_map, !firstn_map.
  destruct (length b =? _)%nat.
  - rewrite !map_app. reflexivity.
  - destruct (length b =? 1)%nat; [|reflexivity].
    rewrite !map_app, map_repeat, hd_scaled. reflexivity.
Qed.

(** Scaling the power scales the merged spectrum. *)
Lemma power_interp_scaled
  (argsort : list R -> list nat) (c : R) (freq power : list R) (N : nat)
  (freq_one power_one : list R) :
  _power_interp argsort freq power N = Ok (freq_one, power_one) ->
  _power_interp argsort freq (map (fun v => c * v) power) N
  = Ok (freq_one, map (fun v => c * v) power_one).
Proof.
  unfold _power_interp, one_sided.
  replace (map (fun v => 2 * v) (slice (map (fun v => c * v) power) 1 (N / 2)))
    with (map (fun v => c * v) (map (fun v => 2 * v) (slice power 1 (N / 2)))).
  2:{ rewrite slice_scaled, !map_map. apply map_ext. intros v. ring. }
  rewrite assign_slice_scaled.
  destruct (assign_slice power 1 (N / 2) _) as [p1|e]; [|discriminate].
  cbn [bind fst snd]. rewrite slice_scaled.
  destruct (getlast BAND_UPPER_LIMITS) as [u|e]; [|discriminate].
  cbn [bind]. unfold interp_default. rewrite !length_map.
  destruct (length (slice freq 0 (N / 2)) =? 0)%nat; [discriminate|].
  destruct (negb _); [discriminate|]. cbn [bind].
  rewrite interp_scaled, <- map_app.
  destruct (take (slice freq 0 (N / 2) ++ BAND_LOWER_LIMITS ++ [u]) _)
    as [f1|e]; [|discriminate].
  cbn [bind].
  destruct (take (slice p1 0 (N / 2) ++ _) _) as [q1|e] eqn:Et; [|discriminate].
  cbn [bind]. intros [= <- <-].
  rewrite (take_scaled c _ _ _ Et). reflexivity.
Qed.

Lemma power_spectrum_scaled
  (argsort : list R -> list nat) (a : R) (time pressure freq power : list R) :
  _power_spectrum argsort time pressure = Ok (freq, power) ->
  _power_spectrum argsort time (map (fun v => a * v) pressure)
  = Ok (freq, map (fun v => a ^ 2 * v) power).
Proof.
  unfold _power_spectrum, two_sided. rewrite length_map.
  destruct (time_step time (length pressure)) as [dt|e]; [|discriminate].
  cbn [bind].
  destruct pressure as [|p0 pressure]; [discriminate|].
  set (p := p0 :: pressure).
  change (fft (map (fun v => a * v) p))
    with (Ok (map (fun k => (dft_re (map (fun v => a * v) p) k,
                             dft_im (map (fun v => a * v) p) k))
                (seq 0 (length (map (fun v => a * v) p))))).
  change (fft p)
    with (Ok (map (fun k => (dft_re p k, dft_im p k)) (seq 0 (length p)))).
  cbn [bind]. rewrite length_map, !map_map.
  replace (map (fun x => cabs (dft_re (map (fun v => a * v) p) x,
                               dft_im (map (fun v => a * v) p) x) ^ 2 * dt ^ 2)
             (seq 0 (length p)))
    with (map (fun v => a ^ 2 * v)
            (map (fun x => cabs (dft_re p x, dft_im p x) ^ 2 * dt ^ 2)
               (seq 0 (length p)))).
  2:{ rewrite map_map. apply map_ext. intros k.
      rewrite dft_re_scaled, dft_im_scaled, cabs_scaled. ring. }
  apply power_interp_scaled.
Qed.

Lemma take_scaled_result (c : R) (a : list R) :
  forall idx : list nat,
    take (map (fun v => c * v) a) idx
    = match take a idx with
      | Ok r => Ok (map (fun v => c * v) r)
      | Raise e => Raise e
      end.
Proof.
  induction idx as [|i idx IH]; cbn [take]; [reflexivity|].
  unfold getitem. rewrite nth_error_map.
  destruct (nth_error a i) as [v|]; cbn [option_map bind]; [|reflexivity].
  rewrite IH. destruct (take a idx) as [r|e]; reflexivity.
Qed.

Lemma setitem_scaled (c : R) (a : list R) (i : nat) (v : R) :
  setitem (map (fun v => c * v) a) i (c * v)
  = match setitem a i v with
    | Ok r => Ok (map (fun v => c * v) r)
    | Raise e => Raise e
    end.
Proof.
  unfold setitem. rewrite length_map.
  destruct (i <? length a)%nat; [|reflexivity].
  rewrite map_app, firstn_map. cbn [map]. rewrite skipn_map. reflexivity.
Qed.

Lemma band_energy_scaled (c : R) (freq power : list R) (j : nat)
  (energy : list R) :
  band_energy freq (map (fun v => c * v) power) j (map (fun v => c * v) energy)
  = match band_energy freq power j energy with
    | Ok r => Ok (map (fun v => c * v) r)
    | Raise e => Raise e
    end.
Proof.
  unfold band_energy.
  destruct (getitem BAND_LOWER_LIMITS j) as [lower|e]; [|reflexivity].
  cbn [bind].
  destruct (getitem BAND_UPPER_LIMITS j) as [upper|e]; [|reflexivity].
  cbn [bind].
  destruct (negb _); [|reflexivity].
  rewrite take_scaled_result.
  destruct (take power _) as [ps|e]; [|reflexivity]. cbn [bind].
  destruct (take freq _) as [fs|e]; [|reflexivity]. cbn [bind].
  rewrite trapz_scaled. apply setitem_scaled.
Qed.

Lemma band_energy_loop_scaled (c : R) (freq power : list R) :
  forall (range : list nat) (energy : list R),
    for_each (band_energy freq (map (fun v => c * v) power)) range
      (map (fun v => c * v) energy)
    = match for_each (band_energy freq power) range energy with
      | Ok r => Ok (map (fun v => c * v) r)
      | Raise e => Raise e
      end.
Proof.
  induction range as [|j range IH]; intros energy; cbn [for_each];
    [reflexivity|].
  rewrite band_energy_scaled.
  destruct (band_energy freq power j energy) as [r|e]; [|reflexivity].
  cbn [bind]. apply IH.
Qed.

(** The band energies of a scaled power, and the levels taken of them. *)
Lemma sound_pressure_levels_scaled (c : R) (freq power : list R) (n : nat)
  (energy : list R) (loudness : list (option R)) :
  _sound_pressure_levels freq power n = Ok (energy, loudness) ->
  loudness
  = map (fun e => option_map (fun l => 10 * l - 3)
                    (finite_log log10 (e / po ^ 2))) energy /\
  _sound_pressure_levels freq (map (fun v => c * v) power) n
  = Ok (map (fun v => c * v) energy,
        map (fun e => option_map (fun l => 10 * l - 3)
                        (finite_log log10 (e / po ^ 2)))
          (map (fun v => c * v) energy)).
Proof.
  unfold _sound_pressure_levels.
  rewrite <- (map_scaled_zeros c n) at 2.
  rewrite band_energy_loop_scaled.
  destruct (for_each (band_energy freq power) (seq 0 n) (zeros n))
    as [s|e]; [|discriminate].
  cbn [bind]. intros [= <- <-]. split; [reflexivity|].
  replace (map (fun e => e / t_crit) (map (fun v => c * v) s))
    with (map (fun v => c * v) (map (fun e => e / t_crit) s)).
  2:{ rewrite !map_map. apply map_ext. intros v. unfold Rdiv. ring. }
  reflexivity.
Qed.

(** The level of a band whose energy is multiplied by [a ^ 2]. *)
Lemma level_scaled (a e l : R) :
  a <> 0 ->
  option_map (fun l => 10 * l - 3) (finite_log log10 (e / po ^ 2)) = Some l ->
  option_map (fun l => 10 * l - 3) (finite_log log10 (a ^ 2 * e / po ^ 2))
  = Some (l + 20 * log10 (Rabs a)).
Proof.
  intros Ha. unfold finite_log, flt.
  assert (Hpo : 0 < po ^ 2) by (unfold po; nra).
  assert (Hab : 0 < Rabs a) by (apply Rabs_pos_lt; exact Ha).
  assert (Ha2 : a ^ 2 = Rabs a * Rabs a).
  { rewrite <- Rabs_mult. rewrite Rabs_pos_eq by nra. ring. }
  destruct (Rlt_dec 0 (e / po ^ 2)) as [He|He]; [|discriminate].
  cbn [option_map]. intros [= <-].
  assert (Hq : 0 < a ^ 2 * e / po ^ 2).
  { replace (a ^ 2 * e / po ^ 2) with (Rabs a * Rabs a * (e / po ^ 2))
      by (rewrite Ha2; unfold Rdiv; ring).
    apply Rmult_lt_0_compat; [apply Rmult_lt_0_compat|]; assumption. }
  destruct (Rlt_dec 0 (a ^ 2 * e / po ^ 2)) as [_|Hn]; [|contradiction].
  cbn [option_map]. f_equal. unfold log10.
  replace (a ^ 2 * e / po ^ 2) with (Rabs a * Rabs a * (e / po ^ 2))
    by (rewrite Ha2; unfold Rdiv; ring).
  rewrite !ln_mult by (try assumption; apply Rmult_lt_0_compat; assumption).
  assert (Hln10 : 0 < ln 10) by (rewrite <- ln_1; apply ln_increasing; lra).
  change (po * (po * 1)) with (po ^ 2).
  generalize dependent (ln (e / po ^ 2)). generalize dependent (ln (Rabs a)).
  generalize dependent (ln 10). intros t Ht y x.
  field. lra.
Qed.

(** X28: the pipeline is homogeneous in the pressure amplitude.  When the
    calculation reaches the band levels for a signal, it also does for the
    signal with every pressure multiplied by [a <> 0]: each band energy is
    multiplied by [a ^ 2], and each level that is finite rises by
    [20 log10 |a|] dB. *)
Theorem perceivedloudness_levels_amplitude
  (argsort : list R -> list nat) (time pressure : list R)
  (pad_front pad_rear len_window : nat) (a : R)
  (energy : list R) (loudness : list (option R)) :
  a <> 0 ->
  perceivedloudness_levels argsort time pressure pad_front pad_rear len_window
  = Ok (energy, loudness) ->
  exists loudness',
    perceivedloudness_levels argsort time (map (fun v => a * v) pressure)
      pad_front pad_rear len_window
    = Ok (map (fun v => a ^ 2 * v) energy, loudness') /\
    length loudness' = length loudness /\
    forall j l, nth j loudness None = Some l ->
      nth j loudness' None = Some (l + 20 * log10 (Rabs a)).
Proof.
  intros Ha. unfold perceivedloudness_levels.
  rewrite window_scaled, length_map.
  destruct (_window pressure len_window) as [pw|e]; [|discriminate].
  cbn [bind]. rewrite padding_scaled.
  destruct (_padding time pw _ _) as [[px py]|e]; [|discriminate].
  cbn [bind fst snd].
  destruct (_power_spectrum argsort px py) as [[freq power]|e] eqn:Es;
    [|discriminate].
  rewrite (power_spectrum_scaled argsort a px py freq power Es).
  cbn [bind fst snd]. intros Hspl.
  destruct (sound_pressure_levels_scaled (a ^ 2) freq power _ energy loudness
              Hspl) as [Hl Hrun].
  eexists. split; [exact Hrun|]. split.
  - rewrite Hl, !length_map. reflexivity.
  - intros j l Hj. subst loudness.
    set (g := fun e => option_map (fun l => 10 * l - 3)
                         (finite_log log10 (e / po ^ 2))) in *.
    destruct (Nat.lt_ge_cases j (length energy)) as [Hlt|Hge].
    + rewrite (nth_indep _ None (g 0)) in Hj by (rewrite length_map; exact Hlt).
      rewrite map_nth in Hj.
      rewrite (nth_indep _ None (g 0)) by (rewrite !length_map; exact Hlt).
      rewrite map_nth, nth_scaled. unfold g.
      apply level_scaled; assumption.
    + rewrite nth_overflow in Hj by (rewrite length_map; exact Hge).
      discriminate.
Qed.

Lemma perceivedloudness_levels_amplitude_witness :
  exists energy loudness loudness',
    perceivedloudness_levels insertion_argsort [0; 1; 2] [5; 6; 7] 1 1 1
    = Ok (energy, loudness) /\
    perceivedloudness_levels insertion_argsort [0; 1; 2]
      (map (fun v => 2 * v) [5; 6; 7]) 1 1 1
    = Ok (map (fun v => 2 ^ 2 * v) energy, loudness') /\
    length loudness' = length loudness.
Proof.
  destruct (levels_reached insertion_argsort [0; 1; 2] [5; 6; 7] 1 1 1 1)
    as (e & l & Hrun & _).
  - exact insertion_argsort_sorts.
  - cbn [uniform]. repeat split; lra.
  - lra.
  - cbn [length]. lia.
  - reflexivity.
  - cbn [length]. lia.
  - lia.
  - lia.
  - destruct (perceivedloudness_levels_amplitude insertion_argsort
                [0; 1; 2] [5; 6; 7] 1 1 1 2 e l)
      as (l' & Hrun' & Hlen & _).
    + lra.
    + exact Hrun.
    + exists e, l, l'. split; [exact Hrun|]. split; [exact Hrun' | exact Hlen].
Defined.
